(** * Pixel Update Receiver (Lilka v2): frame decoder and compositor

    A shallow embedding of [src/main.cpp]: the PXUP / PXUR frame protocol
    decoder, the reusable update buffer and the batch compositor, with the
    properties of the natural-language specification stated over it.

    Conventions.
    - C++ integers are [Z] with their wrap-around written out ([u16], [u32],
      [int16]); [unsigned long] is 32 bits wide on the ESP32.
    - The globals of [main.cpp] and the collaborators it talks to (socket,
      display, heap, serial port, millisecond clock) are the fields of one
      [State] record that every function threads explicitly.
    - What the environment decides (bytes that arrive, allocator answers) is
      a script inside the state, so every function is executable.
    - [setup] and [showWaitingScreen] (WiFi credentials, the waiting screen)
      are outside the core and are not modelled; [handleClient] is what
      [loop] calls on every turn, and [loop] takes the waiting screen as a
      parameter. *)

From Stdlib Require Import ZArith Lia Bool String.
From stdpp Require Import base list gmap.

Local Open Scope Z_scope.

(** ** Machine integers *)

Definition byte := Z.

Definition u16 (v : Z) : Z := v mod 2 ^ 16.
Definition u32 (v : Z) : Z := v mod 2 ^ 32.

(** Conversion to [int16_t]: two's complement wrap. *)
Definition int16 (v : Z) : Z := (v + 2 ^ 15) mod 2 ^ 16 - 2 ^ 15.

(** [lo | (hi << 8)] stored into a [uint16_t]. *)
Definition le16 (lo hi : byte) : Z := u16 (Z.lor lo (Z.shiftl hi 8)).

(** [(uint32_t)b0 | ((uint32_t)b1 << 8) | ((uint32_t)b2 << 16) | ((uint32_t)b3 << 24)]. *)
Definition le32 (b0 b1 b2 b3 : byte) : Z :=
  u32 (Z.lor (Z.lor (Z.lor b0 (Z.shiftl b1 8)) (Z.shiftl b2 16)) (Z.shiftl b3 24)).

(** ** Protocol constants (main.cpp:41-46) *)

Definition MAGIC : list byte := [80; 88; 85; 80].       (* 'P' 'X' 'U' 'P' *)
Definition PROTO_VERSION : byte := 2.
Definition HEADER_SIZE : Z := 11.
Definition MAGIC_RUN : list byte := [80; 88; 85; 82].   (* 'P' 'X' 'U' 'R' *)
Definition RUN_VERSION : byte := 1.
Definition RUN_HEADER_SIZE : Z := 11.

(** ** The update entry (main.cpp:54-59) *)

Record PixelUpdate := mkUpdate {
  upd_x : Z;
  upd_y : Z;
  upd_len : Z;      (* for run packets *)
  upd_color : Z
}.

Definition sizeof_PixelUpdate : Z := 8.

Definition blank : PixelUpdate := mkUpdate 0 0 0 0.

Definition with_x (v : Z) (e : PixelUpdate) := mkUpdate v (upd_y e) (upd_len e) (upd_color e).
Definition with_y (v : Z) (e : PixelUpdate) := mkUpdate (upd_x e) v (upd_len e) (upd_color e).
Definition with_len (v : Z) (e : PixelUpdate) := mkUpdate (upd_x e) (upd_y e) v (upd_color e).
Definition with_color (v : Z) (e : PixelUpdate) := mkUpdate (upd_x e) (upd_y e) (upd_len e) v.

(** ** Heap

    [ps_malloc] and [malloc] succeed or fail as the environment decides: the
    heap carries one script of answers per allocator, consumed one answer per
    call (an exhausted script answers "no memory"). Live blocks are kept in a
    store indexed by address; address [0] is [nullptr]. *)

Record Heap := mkHeap {
  psram_answers : list bool;
  ram_answers : list bool;
  blocks : gmap nat (list PixelUpdate);
  last_addr : nat
}.

Definition nullptr : nat := 0%nat.

Definition is_null (p : nat) : bool := Nat.eqb p nullptr.

(** A fresh block of [bytes] bytes, seen as an array of [PixelUpdate]. *)
Definition fresh_block (bytes : Z) : list PixelUpdate :=
  replicate (Z.to_nat (bytes / sizeof_PixelUpdate)) blank.

Definition ps_malloc (bytes : Z) (h : Heap) : nat * Heap :=
  match psram_answers h with
  | true :: rest =>
      let p := S (last_addr h) in
      (p, mkHeap rest (ram_answers h) (<[p := fresh_block bytes]> (blocks h)) p)
  | false :: rest => (nullptr, mkHeap rest (ram_answers h) (blocks h) (last_addr h))
  | [] => (nullptr, h)
  end.

Definition malloc (bytes : Z) (h : Heap) : nat * Heap :=
  match ram_answers h with
  | true :: rest =>
      let p := S (last_addr h) in
      (p, mkHeap (psram_answers h) rest (<[p := fresh_block bytes]> (blocks h)) p)
  | false :: rest => (nullptr, mkHeap (psram_answers h) rest (blocks h) (last_addr h))
  | [] => (nullptr, h)
  end.

Definition with_blocks (b : gmap nat (list PixelUpdate)) (h : Heap) : Heap :=
  mkHeap (psram_answers h) (ram_answers h) b (last_addr h).

Definition free (p : nat) (h : Heap) : Heap := with_blocks (delete p (blocks h)) h.

(** The next [ps_malloc] (resp. [malloc]) call reports no memory. *)
Definition ps_fails (h : Heap) : bool := negb (hd false (psram_answers h)).
Definition ram_fails (h : Heap) : bool := negb (hd false (ram_answers h)).

(** ** Transport ([WiFiClient], [WiFiServer])

    [rx] holds the bytes received and not yet read. [incoming] is what the
    peer will still deliver: one segment (possibly empty) per millisecond of
    [delay]; once [rx] and [incoming] are both exhausted the peer is gone. *)

Record WiFiClient := mkClient {
  attached : bool;
  rx : list byte;
  incoming : list (list byte)
}.

Definition no_client : WiFiClient := mkClient false [] [].

Definition is_nil {A} (l : list A) : bool := match l with [] => true | _ => false end.

Definition connected (c : WiFiClient) : bool :=
  attached c && (negb (is_nil (rx c)) || negb (is_nil (incoming c))).

(** [operator bool] of the ESP32 [WiFiClient] is [connected()]. *)
Definition client_bool (c : WiFiClient) : bool := connected c.

Definition available (c : WiFiClient) : Z :=
  if attached c then Z.of_nat (length (rx c)) else 0.

(** [c.read(dst, n)]: up to [n] buffered bytes. *)
Definition client_read (n : nat) (c : WiFiClient) : list byte * WiFiClient :=
  if attached c
  then (take n (rx c), mkClient true (drop n (rx c)) (incoming c))
  else ([], c).

Definition client_stop (c : WiFiClient) : WiFiClient := no_client.

(** One millisecond passes: the next segment of the peer arrives. *)
Definition client_tick (c : WiFiClient) : WiFiClient :=
  match incoming c with
  | seg :: rest => if attached c then mkClient true (rx c ++ seg) rest else c
  | [] => c
  end.

(** All bytes the connection will ever yield from now on. *)
Definition stream (c : WiFiClient) : list byte := rx c ++ concat (incoming c).

(** ** Display (the Lilka SDK's [lilka::display])

    The calls issued to the display are recorded in order. *)

Inductive DrawOp :=
  | FillScreen (color : Z)
  | DrawPixel (x y color : Z)
  | FillRect (x y w h color : Z).

Record Display := mkDisplay {
  raw_width : Z;
  raw_height : Z;
  ops : list DrawOp
}.

(** [width()] and [height()] return [int16_t]. *)
Definition width (d : Display) : Z := int16 (raw_width d).
Definition height (d : Display) : Z := int16 (raw_height d).

Definition Black : Z := 0.

Definition issue (op : DrawOp) (d : Display) : Display :=
  mkDisplay (raw_width d) (raw_height d) (ops d ++ [op]).

(** Modelled from the spec: the Surface collaborator ([setPixel],
    [fillRow]) is the Lilka SDK, which is not part of this repository's
    sources; [op_pixels] lists the coordinates one call writes. *)
Definition span (start len : Z) : list Z :=
  map (fun k => start + Z.of_nat k) (seq 0 (Z.to_nat len)).

Definition op_pixels (d : Display) (op : DrawOp) : list (Z * Z) :=
  match op with
  | FillScreen _ =>
      y ← span 0 (height d); x ← span 0 (width d); [(x, y)]
  | DrawPixel x y _ => [(x, y)]
  | FillRect x y w h _ =>
      y' ← span y h; x' ← span x w; [(x', y')]
  end.

(** ** Serial port *)

Inductive SerialItem :=
  | Text (s : string)
  | Num (n : Z)
  | Hex (n : Z)
  | Newline.

(** ** Program state: the globals of main.cpp:37-62 and their environment *)

Record State := mkState {
  server : list WiFiClient;       (* connections waiting in the listener *)
  client : WiFiClient;
  display : Display;
  heap : Heap;
  serial : list SerialItem;
  uptime : Z;                     (* millis() *)
  frameCount : Z;
  lastStats : Z;
  updatesApplied : Z;
  lastFrameId : Z;
  updateBuffer : nat;
  bufferCapacity : Z
}.

Definition set_server v s := mkState v (client s) (display s) (heap s) (serial s) (uptime s)
  (frameCount s) (lastStats s) (updatesApplied s) (lastFrameId s) (updateBuffer s) (bufferCapacity s).
Definition set_client v s := mkState (server s) v (display s) (heap s) (serial s) (uptime s)
  (frameCount s) (lastStats s) (updatesApplied s) (lastFrameId s) (updateBuffer s) (bufferCapacity s).
Definition set_display v s := mkState (server s) (client s) v (heap s) (serial s) (uptime s)
  (frameCount s) (lastStats s) (updatesApplied s) (lastFrameId s) (updateBuffer s) (bufferCapacity s).
Definition set_heap v s := mkState (server s) (client s) (display s) v (serial s) (uptime s)
  (frameCount s) (lastStats s) (updatesApplied s) (lastFrameId s) (updateBuffer s) (bufferCapacity s).
Definition set_serial v s := mkState (server s) (client s) (display s) (heap s) v (uptime s)
  (frameCount s) (lastStats s) (updatesApplied s) (lastFrameId s) (updateBuffer s) (bufferCapacity s).
Definition set_uptime v s := mkState (server s) (client s) (display s) (heap s) (serial s) v
  (frameCount s) (lastStats s) (updatesApplied s) (lastFrameId s) (updateBuffer s) (bufferCapacity s).
Definition set_frameCount v s := mkState (server s) (client s) (display s) (heap s) (serial s) (uptime s)
  v (lastStats s) (updatesApplied s) (lastFrameId s) (updateBuffer s) (bufferCapacity s).
Definition set_lastStats v s := mkState (server s) (client s) (display s) (heap s) (serial s) (uptime s)
  (frameCount s) v (updatesApplied s) (lastFrameId s) (updateBuffer s) (bufferCapacity s).
Definition set_updatesApplied v s := mkState (server s) (client s) (display s) (heap s) (serial s) (uptime s)
  (frameCount s) (lastStats s) v (lastFrameId s) (updateBuffer s) (bufferCapacity s).
Definition set_lastFrameId v s := mkState (server s) (client s) (display s) (heap s) (serial s) (uptime s)
  (frameCount s) (lastStats s) (updatesApplied s) v (updateBuffer s) (bufferCapacity s).
Definition set_updateBuffer v s := mkState (server s) (client s) (display s) (heap s) (serial s) (uptime s)
  (frameCount s) (lastStats s) (updatesApplied s) (lastFrameId s) v (bufferCapacity s).
Definition set_bufferCapacity v s := mkState (server s) (client s) (display s) (heap s) (serial s) (uptime s)
  (frameCount s) (lastStats s) (updatesApplied s) (lastFrameId s) (updateBuffer s) v.

Definition Serial_print (it : SerialItem) (s : State) : State :=
  set_serial (serial s ++ [it]) s.
Definition Serial_println (it : SerialItem) (s : State) : State :=
  set_serial (serial s ++ [it; Newline]) s.

Definition draw (op : DrawOp) (s : State) : State :=
  set_display (issue op (display s)) s.

(** [delay(1)]. *)
Definition delay1 (s : State) : State :=
  set_uptime (u32 (uptime s + 1)) (set_client (client_tick (client s)) s).

(** ** ensureUpdateBuffer (main.cpp:65-83) *)

Definition ensureUpdateBuffer (needed : Z) (s : State) : bool * State :=
  if (needed <=? bufferCapacity s) && negb (is_null (updateBuffer s)) then (true, s)
  else
    let bytes := u32 (needed * sizeof_PixelUpdate) in
    let '(tmp, h1) := ps_malloc bytes (heap s) in
    let '(tmp, h2) := if is_null tmp then malloc bytes h1 else (tmp, h1) in
    if is_null tmp then
      (false, Serial_println (Text "Failed to allocate update buffer") (set_heap h2 s))
    else
      let h3 := if negb (is_null (updateBuffer s)) then free (updateBuffer s) h2 else h2 in
      (true, set_bufferCapacity needed (set_updateBuffer tmp (set_heap h3 s))).

(** ** readExactly (main.cpp:85-96)

    [got] is the prefix of [dst] filled so far. The loop ends once [len]
    bytes are in or the peer is gone; since every round either takes bytes
    out of [rx] or consumes one segment of [incoming], [read_fuel] rounds are
    enough (lemma [readLoop_fuel] below), and the first branch is never the
    one that ends the loop. *)

Fixpoint readLoop (fuel : nat) (len : nat) (got : list byte) (s : State)
  : bool * list byte * State :=
  match fuel with
  | O => (false, got, s)
  | S fuel' =>
      if (length got <? len)%nat && connected (client s) then
        let '(chunk, c') := client_read (len - length got) (client s) in
        if negb (is_nil chunk) then
          readLoop fuel' len (got ++ chunk) (set_client c' s)
        else
          readLoop fuel' len got (delay1 (set_client c' s))   (* allow other tasks *)
      else ((length got =? len)%nat, got, s)
  end.

Definition read_need (len : nat) (got : list byte) (c : WiFiClient) : nat :=
  if (length got <? len)%nat
  then 2 * length (incoming c) + (if is_nil (rx c) then 0 else 1) + 2
  else 1.

Definition read_fuel (c : WiFiClient) : nat := 2 * length (incoming c) + 3.

Definition readExactly (len : nat) (s : State) : bool * list byte * State :=
  readLoop (read_fuel (client s)) len [] s.

(** ** Access to the update buffer through the heap

    [updateBuffer[i].f = v] and [updateBuffer[i]]. An index outside the
    block is undefined behaviour in C++; [handleClient] only uses
    [i < count <= bufferCapacity]. Here such a write changes nothing and
    such a read yields [blank]. *)

Definition buf_update (i : Z) (f : PixelUpdate → PixelUpdate) (s : State) : State :=
  set_heap (with_blocks (alter (alter f (Z.to_nat i)) (updateBuffer s) (blocks (heap s)))
              (heap s)) s.

Definition buf_get (i : Z) (s : State) : PixelUpdate :=
  default blank (blocks (heap s) !! updateBuffer s ≫= (.!! Z.to_nat i)).

Definition byte_at (buf : list byte) (k : nat) : byte := default 0 (buf !! k).

(** [memcmp(a, b, n) == 0]. *)
Fixpoint memcmp_eq (a b : list byte) (n : nat) : bool :=
  match n with
  | O => true
  | S n' =>
      match a, b with
      | x :: a', y :: b' => (x =? y) && memcmp_eq a' b' n'
      | _, _ => false
      end
  end.

(** ** handleClient (main.cpp:166-348) *)

(** Which [return] of [handleClient] was taken, named as in the
    specification's error taxonomy. *)
Inductive Outcome :=
  | NoClient              (* main.cpp:181 *)
  | Incomplete            (* main.cpp:186 *)
  | Truncated             (* main.cpp:193, 209, 243, 280, 315 *)
  | BadMagic              (* main.cpp:201 *)
  | UnsupportedVersion    (* main.cpp:215, 286 *)
  | CountTooLarge         (* main.cpp:229, 300 *)
  | AllocationFailure     (* main.cpp:235, 306 *)
  | EmptyFrame            (* main.cpp:223, 294 *)
  | AppliedFrame.         (* main.cpp:272, 347 *)

(** The [bool] that [handleClient] returns. *)
Definition outcome_bool (o : Outcome) : bool :=
  match o with
  | Incomplete | EmptyFrame | AppliedFrame => true
  | _ => false
  end.

Definition stop_client (s : State) : State := set_client (client_stop (client s)) s.

(** [server.available()]. *)
Definition server_available (s : State) : WiFiClient * State :=
  match server s with
  | c :: rest => (c, set_server rest s)
  | [] => (no_client, s)
  end.

(** Accept new client (main.cpp:168-178). *)
Definition acceptClient (s : State) : State :=
  if negb (client_bool (client s)) || negb (connected (client s)) then
    let '(c, s1) := server_available s in
    let s2 := set_client c s1 in
    if client_bool (client s2) then
      let s3 := Serial_println (Text "Client connected") s2 in
      (* setNoDelay(true), setTimeout(50): socket options, not modelled *)
      let s4 := set_frameCount 0 s3 in
      let s5 := set_updatesApplied 0 s4 in
      draw (FillScreen Black) s5
    else s2
  else s.

(** [frameCount++; lastFrameId = frameId;] *)
Definition countFrame (frameId : Z) (s : State) : State :=
  set_lastFrameId frameId (set_frameCount (u32 (frameCount s + 1)) s).

(** main.cpp:260-271 and 334-345. *)
Definition finishFrame (frameId : Z) (s : State) : State :=
  let s1 := countFrame frameId s in
  let now := uptime s1 in
  if 2000 <? u32 (now - lastStats s1) then
    let s2 := Serial_print (Text "Frames: ") s1 in
    let s3 := Serial_print (Num (frameCount s2)) s2 in
    let s4 := Serial_print (Text " (last frameId ") s3 in
    let s5 := Serial_print (Num (lastFrameId s4)) s4 in
    let s6 := Serial_print (Text ") | Updates applied: ") s5 in
    let s7 := Serial_println (Num (updatesApplied s6)) s6 in
    set_lastStats now s7
  else s1.

(** Body of a pixel frame into the buffer (main.cpp:238-248). The loop
    index is a [uint16_t] below [count <= 65535], so [i + 1] never wraps. *)
Fixpoint decodePixels (n : nat) (i : Z) (s : State) : bool * State :=
  match n with
  | O => (true, s)
  | S n' =>
      let '(ok, entry, s1) := readExactly 6 s in
      if negb ok then
        (false, stop_client (Serial_println (Text "Stream ended mid-frame; dropping client") s1))
      else
        let s2 := buf_update i (with_x (le16 (byte_at entry 0) (byte_at entry 1))) s1 in
        let s3 := buf_update i (with_y (le16 (byte_at entry 2) (byte_at entry 3))) s2 in
        let s4 := buf_update i (with_color (le16 (byte_at entry 4) (byte_at entry 5))) s3 in
        decodePixels n' (i + 1) s4
  end.

(** Apply all updates in one batch (main.cpp:251-258). *)
Fixpoint applyPixels (n : nat) (i : Z) (s : State) : State :=
  match n with
  | O => s
  | S n' =>
      let x := upd_x (buf_get i s) in
      let y := upd_y (buf_get i s) in
      let s1 :=
        if (x <? width (display s)) && (y <? height (display s)) then
          let s' := draw (DrawPixel (int16 x) (int16 y) (upd_color (buf_get i s))) s in
          set_updatesApplied (u32 (updatesApplied s' + 1)) s'
        else s in
      applyPixels n' (i + 1) s1
  end.

(** Body of a run frame into the buffer (main.cpp:310-321). *)
Fixpoint decodeRuns (n : nat) (i : Z) (s : State) : bool * State :=
  match n with
  | O => (true, s)
  | S n' =>
      let '(ok, entry, s1) := readExactly 8 s in
      if negb ok then
        (false, stop_client (Serial_println (Text "Stream ended mid-run frame; dropping client") s1))
      else
        let s2 := buf_update i (with_y (le16 (byte_at entry 0) (byte_at entry 1))) s1 in
        let s3 := buf_update i (with_x (le16 (byte_at entry 2) (byte_at entry 3))) s2 in
        let s4 := buf_update i (with_len (le16 (byte_at entry 4) (byte_at entry 5))) s3 in
        let s5 := buf_update i (with_color (le16 (byte_at entry 6) (byte_at entry 7))) s4 in
        decodeRuns n' (i + 1) s5
  end.

(** Apply runs in one batch (main.cpp:324-332). [x0 + runLen] is computed in
    [int] and cannot overflow. *)
Fixpoint applyRuns (n : nat) (i : Z) (s : State) : State :=
  match n with
  | O => s
  | S n' =>
      let x0 := upd_x (buf_get i s) in
      let y := upd_y (buf_get i s) in
      let runLen := upd_len (buf_get i s) in
      let s1 :=
        if (x0 <? width (display s)) && (y <? height (display s))
           && (0 <? runLen) && (x0 + runLen <=? width (display s)) then
          let s' := draw (FillRect (int16 x0) (int16 y) (int16 runLen) 1 (upd_color (buf_get i s))) s in
          set_updatesApplied (u32 (updatesApplied s' + runLen)) s'
        else s in
      applyRuns n' (i + 1) s1
  end.

(** From the allocation on (main.cpp:232-272). *)
Definition pixelBody (frameId count : Z) (s : State) : Outcome * State :=
  let '(ok, s1) := ensureUpdateBuffer count s in
  if negb ok then
    (AllocationFailure, stop_client (Serial_println (Text "No buffer for updates; dropping client") s1))
  else
    let '(ok, s2) := decodePixels (Z.to_nat count) 0 s1 in
    if negb ok then (Truncated, s2)
    else (AppliedFrame, finishFrame frameId (applyPixels (Z.to_nat count) 0 s2)).

(** From the allocation on (main.cpp:303-347). *)
Definition runBody (frameId count : Z) (s : State) : Outcome * State :=
  let '(ok, s1) := ensureUpdateBuffer count s in
  if negb ok then
    (AllocationFailure, stop_client (Serial_println (Text "No buffer for run updates; dropping client") s1))
  else
    let '(ok, s2) := decodeRuns (Z.to_nat count) 0 s1 in
    if negb ok then (Truncated, s2)
    else (AppliedFrame, finishFrame frameId (applyRuns (Z.to_nat count) 0 s2)).

(** Pixel packet (main.cpp:204-273). *)
Definition pixelFrame (s : State) : Outcome * State :=
  let '(ok, rest, s1) := readExactly (Z.to_nat (HEADER_SIZE - 4)) s in
  if negb ok then
    (Truncated, stop_client (Serial_println (Text "Failed to read pixel header; dropping client") s1))
  else if negb (byte_at rest 0 =? PROTO_VERSION) then
    let s2 := Serial_print (Text "Unsupported pixel version: ") s1 in
    (UnsupportedVersion, stop_client (Serial_println (Hex (byte_at rest 0)) s2))
  else
    let frameId := le32 (byte_at rest 1) (byte_at rest 2) (byte_at rest 3) (byte_at rest 4) in
    let count := le16 (byte_at rest 5) (byte_at rest 6) in   (* little-endian *)
    if count =? 0 then (EmptyFrame, countFrame frameId s1)
    else if width (display s1) * height (display s1) <? count then
      let s2 := Serial_print (Text "Update count too large: ") s1 in
      (CountTooLarge, stop_client (Serial_println (Num count) s2))
    else pixelBody frameId count s1.

(** Run packet (main.cpp:275-347). *)
Definition runFrame (s : State) : Outcome * State :=
  let '(ok, rest, s1) := readExactly (Z.to_nat (RUN_HEADER_SIZE - 4)) s in
  if negb ok then
    (Truncated, stop_client (Serial_println (Text "Failed to read run header; dropping client") s1))
  else if negb (byte_at rest 0 =? RUN_VERSION) then
    let s2 := Serial_print (Text "Unsupported run version: ") s1 in
    (UnsupportedVersion, stop_client (Serial_println (Hex (byte_at rest 0)) s2))
  else
    let frameId := le32 (byte_at rest 1) (byte_at rest 2) (byte_at rest 3) (byte_at rest 4) in
    let count := le16 (byte_at rest 5) (byte_at rest 6) in   (* number of runs *)
    if count =? 0 then (EmptyFrame, countFrame frameId s1)
    else if width (display s1) * height (display s1) <? count then
      let s2 := Serial_print (Text "Run count too large: ") s1 in
      (CountTooLarge, stop_client (Serial_println (Num count) s2))
    else runBody frameId count s1.

(** Everything after the accept (main.cpp:180-348). *)
Definition serveClient (s : State) : Outcome * State :=
  if negb (client_bool (client s)) || negb (connected (client s)) then (NoClient, s)
  else if available (client s) <? 11 then (Incomplete, s)   (* keep connection, wait for more data *)
  else
    let '(ok, magicBuf, s1) := readExactly 4 s in
    if negb ok then (Truncated, stop_client s1)
    else
      let isRun := memcmp_eq magicBuf MAGIC_RUN 4 in
      let isPixel := memcmp_eq magicBuf MAGIC 4 in
      if negb isRun && negb isPixel then
        (BadMagic, stop_client (Serial_println (Text "Bad magic; flushing stream") s1))
      else if isPixel then pixelFrame s1
      else runFrame s1.

Definition handleClient_outcome (s : State) : Outcome * State :=
  serveClient (acceptClient s).

Definition handleClient (s : State) : bool * State :=
  let '(o, s') := handleClient_outcome s in (outcome_bool o, s').

(** * Vocabulary of the specification *)

(** ** Wire format (specification, section 6): what a sender puts on the
    stream *)

Definition enc16 (v : Z) : list byte := [v mod 256; v / 256 mod 256].

Definition enc32 (v : Z) : list byte :=
  [v mod 256; v / 256 mod 256; v / 65536 mod 256; v / 16777216 mod 256].

Inductive FrameKind := PixelKind | RunKind.

Definition magic_of (k : FrameKind) : list byte :=
  match k with PixelKind => MAGIC | RunKind => MAGIC_RUN end.

Definition version_of (k : FrameKind) : byte :=
  match k with PixelKind => PROTO_VERSION | RunKind => RUN_VERSION end.

(** Bytes per body entry. *)
Definition entry_size (k : FrameKind) : Z :=
  match k with PixelKind => 6 | RunKind => 8 end.

Definition header (k : FrameKind) (frameId count : Z) : list byte :=
  magic_of k ++ [version_of k] ++ enc32 frameId ++ enc16 count.

Record PixelEntry := mkPixel { pe_x : Z; pe_y : Z; pe_color : Z }.

Record RunEntry := mkRun { re_y : Z; re_x0 : Z; re_length : Z; re_color : Z }.

Definition is_u16 (v : Z) : bool := (0 <=? v) && (v <? 65536).

Definition pixel_wf (e : PixelEntry) : bool :=
  is_u16 (pe_x e) && is_u16 (pe_y e) && is_u16 (pe_color e).

Definition run_wf (e : RunEntry) : bool :=
  is_u16 (re_y e) && is_u16 (re_x0 e) && is_u16 (re_length e) && is_u16 (re_color e).

Definition enc_pixel (e : PixelEntry) : list byte :=
  enc16 (pe_x e) ++ enc16 (pe_y e) ++ enc16 (pe_color e).

Definition enc_run (e : RunEntry) : list byte :=
  enc16 (re_y e) ++ enc16 (re_x0 e) ++ enc16 (re_length e) ++ enc16 (re_color e).

Definition pixel_frame (frameId : Z) (es : list PixelEntry) : list byte :=
  header PixelKind frameId (Z.of_nat (length es)) ++ concat (map enc_pixel es).

Definition run_frame (frameId : Z) (es : list RunEntry) : list byte :=
  header RunKind frameId (Z.of_nat (length es)) ++ concat (map enc_run es).

(** ** The header as the decoder will read it *)

(** The frame header at the front of the receive buffer, if the 11 bytes
    are there and carry a known magic with its supported version: kind,
    [frameId], [entryCount], and the bytes buffered behind the header. *)
Definition parse_header (c : WiFiClient) : option (FrameKind * Z * Z * list byte) :=
  if attached c then
    match rx c with
    | m0 :: m1 :: m2 :: m3 :: v :: f0 :: f1 :: f2 :: f3 :: c0 :: c1 :: tail =>
        if memcmp_eq [m0; m1; m2; m3] MAGIC 4 then
          if v =? PROTO_VERSION
          then Some (PixelKind, le32 f0 f1 f2 f3, le16 c0 c1, tail) else None
        else if memcmp_eq [m0; m1; m2; m3] MAGIC_RUN 4 then
          if v =? RUN_VERSION
          then Some (RunKind, le32 f0 f1 f2 f3, le16 c0 c1, tail) else None
        else None
    | _ => None
    end
  else None.

(** The client once the header has been read. *)
Definition past_header (tail : list byte) (s : State) : State :=
  set_client (mkClient true tail (incoming (client s))) s.

Definition frameBody (k : FrameKind) (frameId count : Z) (s : State) : Outcome * State :=
  match k with
  | PixelKind => pixelBody frameId count s
  | RunKind => runBody frameId count s
  end.

Definition too_large_text (k : FrameKind) : string :=
  match k with
  | PixelKind => "Update count too large: "
  | RunKind => "Run count too large: "
  end.

(** The connection-fatal outcomes (specification, section 7). *)
Definition fatal (o : Outcome) : bool :=
  match o with
  | Truncated | BadMagic | UnsupportedVersion | CountTooLarge | AllocationFailure => true
  | _ => false
  end.

(** ** The compositor (specification, section 4.4) *)

(** The tests as the specification words them. *)
Definition pixel_in_bounds (d : Display) (e : PixelEntry) : bool :=
  (pe_x e <? width d) && (pe_y e <? height d).

Definition run_applies (d : Display) (e : RunEntry) : bool :=
  (re_y e <? height d) && (0 <? re_length e) && (re_x0 e + re_length e <=? width d).

Definition pixel_op (e : PixelEntry) : DrawOp := DrawPixel (pe_x e) (pe_y e) (pe_color e).

Definition run_op (e : RunEntry) : DrawOp :=
  FillRect (re_x0 e) (re_y e) (re_length e) 1 (re_color e).

Definition total_length (es : list RunEntry) : Z := foldr (λ e acc, re_length e + acc) 0 es.

(** ** State invariants and relations between states *)

(** Line 66 of main.cpp: the buffer is held and large enough. *)
Definition fits (n : Z) (s : State) : bool :=
  (n <=? bufferCapacity s) && negb (is_null (updateBuffer s)).

(** No buffer yet means capacity 0, as at start-up (main.cpp:61-62). *)
Definition null_is_empty (s : State) : bool :=
  if is_null (updateBuffer s) then bufferCapacity s =? 0 else true.

(** [updateBuffer] points to a live block of [bufferCapacity] entries. *)
Definition buffer_ok (s : State) : bool :=
  if is_null (updateBuffer s) then bufferCapacity s =? 0
  else (updateBuffer s <=? last_addr (heap s))%nat &&
       match blocks (heap s) !! updateBuffer s with
       | Some cells => Z.of_nat (length cells) =? bufferCapacity s
       | None => false
       end.

(** [buffer_ok], and [updatesApplied] holds an [unsigned long]. *)
Definition state_ok (s : State) : bool :=
  buffer_ok s && (0 <=? updatesApplied s) && (updatesApplied s <? 2 ^ 32).

(** From a good state to a good state, with a buffer at least as large. *)
Definition evolves (s s' : State) : Prop :=
  state_ok s = true → state_ok s' = true ∧ bufferCapacity s <= bufferCapacity s'.

(** The surface and the session statistics are the same in [s] and [s']. *)
Definition keeps (s s' : State) : Prop :=
  display s' = display s
  ∧ frameCount s' = frameCount s
  ∧ updatesApplied s' = updatesApplied s
  ∧ lastFrameId s' = lastFrameId s.

(** The state after a body has been decoded: socket, clock and the cells of
    the update buffer have changed, nothing else. *)
Definition stored (c : WiFiClient) (t : Z) (cells : list PixelUpdate) (s : State) : State :=
  set_heap (with_blocks (<[updateBuffer s := cells]> (blocks (heap s))) (heap s))
    (set_uptime t (set_client c s)).

(** The state after a batch has been applied. *)
Definition composited (new_ops : list DrawOp) (applied : Z) (s : State) : State :=
  set_updatesApplied (u32 (updatesApplied s + applied))
    (set_display (mkDisplay (raw_width (display s)) (raw_height (display s))
                    (ops (display s) ++ new_ops)) s).

(** What one applied frame leaves behind, relative to the state [s1] it
    started from: the batch on the display, the counters, and a connection
    positioned at the next frame. *)
Definition frame_applied (s1 s' : State) (frameId : Z) (new_ops : list DrawOp)
    (applied : Z) (rest : list byte) : Prop :=
  ops (display s') = ops (display s1) ++ new_ops
  ∧ updatesApplied s' = u32 (updatesApplied s1 + applied)
  ∧ frameCount s' = u32 (frameCount s1 + 1)
  ∧ lastFrameId s' = frameId
  ∧ attached (client s') = true
  ∧ stream (client s') = rest
  ∧ state_ok s' = true.

(** Consecutive calls of [ensureUpdateBuffer], whatever they return. *)
Definition ensure_seq (ns : list Z) (s : State) : State :=
  foldl (λ st n, (ensureUpdateBuffer n st).2) s ns.

(** ** Sample sessions *)

(** The globals as initialised at start-up (main.cpp:37-62), with nobody
    connected yet and [pending] peers knocking. *)
Definition power_on (pending : list WiFiClient) (d : Display) (h : Heap) : State :=
  mkState pending no_client d h [] 0 0 0 0 0 nullptr 0.

Definition lilka_display : Display := mkDisplay 280 240 [].

Definition no_memory : Heap := mkHeap [] [] ∅ 0.
Definition plenty : Heap := mkHeap [true; true; true; true] [true; true] ∅ 0.

(** Just after power-on a peer connects and sends one frame: the header at
    once, the body one millisecond later. *)
Definition pixel_session_of (frameId : Z) (es : list PixelEntry) : State :=
  power_on [mkClient true (header PixelKind frameId (Z.of_nat (length es)))
              [concat (map enc_pixel es); []]]
    lilka_display plenty.

Definition run_session_of (frameId : Z) (es : list RunEntry) : State :=
  power_on [mkClient true (header RunKind frameId (Z.of_nat (length es)))
              [concat (map enc_run es); []]]
    lilka_display plenty.

(** Scenario A with an out-of-bounds pixel in the middle. *)
Definition sample_pixels : list PixelEntry :=
  [mkPixel 0 0 65535; mkPixel 300 5 1; mkPixel 279 239 2016].

Definition pixel_session : State := pixel_session_of 7 sample_pixels.

(** Scenario A with the body trickling in one byte per millisecond. *)
Definition trickle_session : State :=
  power_on [mkClient true (header PixelKind 7 1)
              (map (λ b, [b]) (enc_pixel (mkPixel 0 0 65535)) ++ [[]])]
    lilka_display plenty.

(** Scenarios B and C, and a run over a whole row. *)
Definition sample_runs : list RunEntry :=
  [mkRun 10 5 20 2016; mkRun 10 270 20 2016; mkRun 239 0 280 31].

Definition run_session : State := run_session_of 9 sample_runs.

(** Scenario D: four bytes that are no magic, then seven more. *)
Definition bad_magic_session : State :=
  power_on [mkClient true ([88; 88; 88; 88] ++ [2; 0; 0; 0; 0; 1; 0]) [[]]]
    lilka_display plenty.

(** Scenario E: a pixel frame announcing 50000 entries, all of them
    [(1, 2)] in colour 3, on the 280x240 surface. *)
Definition scenario_E_pixels : list PixelEntry := replicate (Z.to_nat 50000) (mkPixel 1 2 3).

Definition scenario_E : State := pixel_session_of 7 scenario_E_pixels.

Definition scenario_E_header_only : State :=
  power_on [mkClient true (header PixelKind 7 50000) [[]]] lilka_display plenty.

(** The peer sends one and a half of two pixel entries and goes away. *)
Definition cut_session : State :=
  power_on [mkClient true (header PixelKind 7 2) [enc_pixel (mkPixel 1 1 1) ++ [5; 0; 5]]]
    lilka_display plenty.

(** A 100x100 surface and a run frame announcing 20000 entries. *)
Definition small_surface_session : State :=
  power_on [mkClient true (header RunKind 3 20000) [[]]] (mkDisplay 100 100 []) plenty.

(** An empty frame, with and without memory to allocate from. *)
Definition empty_run_session : State :=
  power_on [mkClient true (header RunKind 9 0 ++ [1; 2; 3]) [[]]] lilka_display plenty.

Definition empty_frame_no_memory : State :=
  power_on [mkClient true (header PixelKind 5 0) [[]]] lilka_display no_memory.

(** Two peers one after the other: the first sends one pixel in frame 7 and
    leaves, the second has sent nothing yet. *)
Definition two_peers : State :=
  power_on [mkClient true (pixel_frame 7 [mkPixel 3 4 5]) []; mkClient true [] [[]; []]]
    lilka_display plenty.

Definition after_first_peer : State := (handleClient two_peers).2.

(** A buffer of 4 entries is held; then the allocators have no memory. *)
Definition holding_four : State :=
  (ensureUpdateBuffer 4 (power_on [] lilka_display (mkHeap [true; false] [false] ∅ 0))).2.

Definition nothing_held_no_memory : State := power_on [] lilka_display no_memory.
Definition nothing_held : State := power_on [] lilka_display plenty.

(** * Further vocabulary *)

(** Everything but the socket and the clock is the same in [s] and [s']. *)
Definition same_but_socket_and_clock (s s' : State) : Prop :=
  server s' = server s
  ∧ display s' = display s
  ∧ heap s' = heap s
  ∧ serial s' = serial s
  ∧ frameCount s' = frameCount s
  ∧ lastStats s' = lastStats s
  ∧ updatesApplied s' = updatesApplied s
  ∧ lastFrameId s' = lastFrameId s
  ∧ updateBuffer s' = updateBuffer s
  ∧ bufferCapacity s' = bufferCapacity s.

(** The writes into the update buffer that the decode loops make: one
    field, with a freshly decoded 16-bit value. *)
Inductive field_writer : (PixelUpdate → PixelUpdate) → Prop :=
  | writes_x (lo hi : byte) : field_writer (with_x (le16 lo hi))
  | writes_y (lo hi : byte) : field_writer (with_y (le16 lo hi))
  | writes_len (lo hi : byte) : field_writer (with_len (le16 lo hi))
  | writes_color (lo hi : byte) : field_writer (with_color (le16 lo hi)).

(** ** The main loop (main.cpp:350-357)

    [showWaitingScreen] (main.cpp:99-121) draws through text calls whose
    layout depends on the font metrics of the SDK and on the IP address; it
    is a parameter here. *)

Section Loop.

Variable showWaitingScreen : State → State.

Definition loop (s : State) : State :=
  let '(_, s1) := handleClient s in
  let s2 :=
    if client_bool (client s1) && negb (connected (client s1)) then
      showWaitingScreen (Serial_println (Text "Client disconnected") s1)
    else s1 in
  delay1 s2.

(** [n] turns of the main loop. *)
Fixpoint turns (n : nat) (s : State) : State :=
  match n with
  | O => s
  | S n' => turns n' (loop s)
  end.

End Loop.

(** ** Safety vocabulary *)

(** A display call that stays inside a [w] x [h] surface. *)
Definition op_inside (w h : Z) (op : DrawOp) : bool :=
  match op with
  | FillScreen _ => true
  | DrawPixel x y _ => (0 <=? x) && (x <? w) && (0 <=? y) && (y <? h)
  | FillRect x y rw rh _ =>
      (0 <=? x) && (0 <=? y) && (0 <? rw) && (0 <? rh) && (x + rw <=? w) && (y + rh <=? h)
  end.

(** The fields of an entry hold [uint16_t] values. *)
Definition cell_u16 (e : PixelUpdate) : bool :=
  is_u16 (upd_x e) && is_u16 (upd_y e) && is_u16 (upd_len e) && is_u16 (upd_color e).

(** Every entry of the update buffer holds [uint16_t] values. *)
Definition buffer_u16 (s : State) : bool :=
  match blocks (heap s) !! updateBuffer s with
  | Some cells => forallb cell_u16 cells
  | None => true
  end.

(** From a buffer of [uint16_t] values to one, with the surface size kept
    and only calls inside the surface added to the display. *)
Definition draws_inside (s s' : State) : Prop :=
  buffer_u16 s = true →
  buffer_u16 s' = true
  ∧ width (display s') = width (display s)
  ∧ height (display s') = height (display s)
  ∧ ∃ new, ops (display s') = ops (display s) ++ new
           ∧ forallb (op_inside (width (display s)) (height (display s))) new = true.

(** The only live block is the update buffer. *)
Definition only_buffer_live (s : State) : bool :=
  bool_decide (dom (blocks (heap s))
               = if is_null (updateBuffer s) then (∅ : gset nat) else {[ updateBuffer s ]}).

(** The frame was counted: it ended as an empty or as an applied frame. *)
Definition counted (o : Outcome) : bool :=
  match o with EmptyFrame | AppliedFrame => true | _ => false end.

(** From a good state that holds no block but the update buffer to
    another such state. *)
Definition stays_tidy (s s' : State) : Prop :=
  state_ok s = true → only_buffer_live s = true →
  state_ok s' = true ∧ only_buffer_live s' = true.

Definition unsupported_text (k : FrameKind) : string :=
  match k with
  | PixelKind => "Unsupported pixel version: "
  | RunKind => "Unsupported run version: "
  end.

(** The kind a known magic at the front of [r] announces; [isPixel] is
    tested first (main.cpp:203). *)
Definition kind_of (r : list byte) : FrameKind :=
  if memcmp_eq r MAGIC 4 then PixelKind else RunKind.

(** [memcmp] finds neither magic at the front of [r]. *)
Definition unknown_magic (r : list byte) : bool :=
  negb (memcmp_eq r MAGIC_RUN 4) && negb (memcmp_eq r MAGIC 4).

Definition no_buffer_text (k : FrameKind) : string :=
  match k with
  | PixelKind => "No buffer for updates; dropping client"
  | RunKind => "No buffer for run updates; dropping client"
  end.

(** A peer whose header arrives in two pieces. *)
Definition half_header_session : State :=
  power_on [mkClient true [80; 88; 85; 80; 2] [[7; 0; 0; 0; 1; 0]; [1; 0; 2; 0; 3; 0]; []]]
    lilka_display plenty.

(** ** The statistics *)

(** What one display call adds to [updatesApplied] (main.cpp:256, 330). *)
Definition op_updates (op : DrawOp) : Z :=
  match op with
  | FillScreen _ => 0
  | DrawPixel _ _ _ => 1
  | FillRect _ _ w _ _ => w
  end.

Definition updates_of (new : list DrawOp) : Z := foldr (λ op acc, op_updates op + acc) 0 new.

(** [updatesApplied] has advanced, modulo 2^32, by what the calls added to
    the display account for. *)
Definition tallies (s s' : State) : Prop :=
  buffer_u16 s = true →
  ∃ new, ops (display s') = ops (display s) ++ new
         ∧ u32 (updatesApplied s') = u32 (updatesApplied s + updates_of new).

Definition inside_and_tallied (s s' : State) : Prop := draws_inside s s' ∧ tallies s s'.

(** ** Segmentation *)

(** The same state but for the pace of the peer: which of the bytes to come
    are already buffered, the clock, and what depends on the clock (the
    statistics lines on the serial port and their time stamp). *)
Definition same_but_pace (s1 s2 : State) : Prop :=
  server s2 = server s1
  ∧ display s2 = display s1
  ∧ heap s2 = heap s1
  ∧ frameCount s2 = frameCount s1
  ∧ updatesApplied s2 = updatesApplied s1
  ∧ lastFrameId s2 = lastFrameId s1
  ∧ updateBuffer s2 = updateBuffer s1
  ∧ bufferCapacity s2 = bufferCapacity s1
  ∧ attached (client s2) = attached (client s1)
  ∧ stream (client s2) = stream (client s1).

(** The session of [trickle_session] with the body in one segment. *)
Definition one_pixel_session : State := pixel_session_of 7 [mkPixel 0 0 65535].


(** * Properties *)

(** ** Machine integers *)

Lemma u16_range v : 0 <= u16 v < 65536.
Proof. unfold u16. apply Z.mod_pos_bound. lia. Qed.

Lemma u32_range v : 0 <= u32 v < 4294967296.
Proof. unfold u32. apply Z.mod_pos_bound. lia. Qed.

Lemma u16_small v : 0 <= v < 65536 → u16 v = v.
Proof. intros. unfold u16. apply Z.mod_small. lia. Qed.

Lemma u32_small v : 0 <= v < 4294967296 → u32 v = v.
Proof. intros. unfold u32. apply Z.mod_small. lia. Qed.

Lemma u32_succ_l a b : u32 (u32 a + b) = u32 (a + b).
Proof. unfold u32. apply Zplus_mod_idemp_l. Qed.

Lemma int16_range v : -32768 <= int16 v <= 32767.
Proof.
  unfold int16. pose proof (Z.mod_pos_bound (v + 2 ^ 15) (2 ^ 16)). lia.
Qed.

Lemma int16_small v : -32768 <= v <= 32767 → int16 v = v.
Proof.
  intros. unfold int16. rewrite Z.mod_small; lia.
Qed.

Lemma le16_range lo hi : 0 <= le16 lo hi < 65536.
Proof. apply u16_range. Qed.

(** Below its width a number has no bits, so [lor] with a shifted number
    is a sum. *)
Lemma lor_shiftl_add a b k :
  0 <= k → 0 <= a < 2 ^ k → Z.lor a (Z.shiftl b k) = a + b * 2 ^ k.
Proof.
  intros Hk Ha.
  assert (Hland : Z.land a (Z.shiftl b k) = 0).
  { apply Z.bits_inj'. intros n Hn.
    rewrite Z.land_spec, Z.bits_0.
    destruct (Z.lt_ge_cases n k) as [Hlt | Hge].
    - rewrite Z.shiftl_spec_low by lia. apply andb_false_r.
    - destruct (Z.eq_dec a 0) as [-> | Hne].
      + rewrite Z.bits_0. reflexivity.
      + rewrite (Z.bits_above_log2 a n); [reflexivity | lia |].
        apply Z.lt_le_trans with k; [| lia].
        apply Z.log2_lt_pow2; lia. }
  rewrite <- Z.lxor_lor by exact Hland.
  rewrite <- Z.add_nocarry_lxor by exact Hland.
  rewrite Z.shiftl_mul_pow2 by lia. reflexivity.
Qed.

Lemma le16_enc v : 0 <= v < 65536 → le16 (v mod 256) (v / 256 mod 256) = v.
Proof.
  intros Hv. unfold le16.
  rewrite (lor_shiftl_add _ _ 8); [| lia | apply Z.mod_pos_bound; lia ].
  change (2 ^ 8) with 256.
  rewrite (Z.mod_small (v / 256) 256).
  2:{ split; [apply Z.div_pos; lia | apply Z.div_lt_upper_bound; lia]. }
  rewrite u16_small; pose proof (Z.div_mod v 256); lia.
Qed.

Lemma le32_enc v :
  0 <= v < 4294967296 →
  le32 (v mod 256) (v / 256 mod 256) (v / 65536 mod 256) (v / 16777216 mod 256) = v.
Proof.
  intros Hv. unfold le32.
  pose proof (Z.mod_pos_bound v 256).
  pose proof (Z.mod_pos_bound (v / 256) 256).
  pose proof (Z.mod_pos_bound (v / 65536) 256).
  pose proof (Z.mod_pos_bound (v / 16777216) 256).
  rewrite (lor_shiftl_add _ _ 8) by lia.
  rewrite (lor_shiftl_add _ _ 16) by lia.
  rewrite (lor_shiftl_add _ _ 24) by lia.
  change (2 ^ 8) with 256. change (2 ^ 16) with 65536. change (2 ^ 24) with 16777216.
  assert (E : v mod 256 + v / 256 mod 256 * 256 + v / 65536 mod 256 * 65536
              + v / 16777216 mod 256 * 16777216 = v).
  { clear -Hv.
    assert (E1 : v / 65536 = v / 256 / 256) by (rewrite Z.div_div by lia; reflexivity).
    assert (E2 : v / 16777216 = v / 256 / 256 / 256) by (rewrite !Z.div_div by lia; reflexivity).
    rewrite E1, E2.
    assert (0 <= v / 256 / 256 / 256 < 256).
    { rewrite <- E2. split; [apply Z.div_pos; lia | apply Z.div_lt_upper_bound; lia]. }
    rewrite (Z.mod_small (v / 256 / 256 / 256) 256) by assumption.
    pose proof (Z.div_mod v 256).
    pose proof (Z.div_mod (v / 256) 256).
    pose proof (Z.div_mod (v / 256 / 256) 256).
    lia. }
  rewrite E. apply u32_small. lia.
Qed.

(** ** readExactly *)

Lemma state_eta s : set_uptime (uptime s) (set_client (client s) s) = s.
Proof. destruct s; reflexivity. Qed.

(** A read only touches the socket and the clock. *)
Lemma readLoop_shape fuel len got s :
  ∃ c' t', (readLoop fuel len got s).2 = set_uptime t' (set_client c' s).
Proof.
  revert got s. induction fuel as [| fuel IH]; intros got s; simpl.
  - exists (client s), (uptime s). symmetry. apply state_eta.
  - destruct ((length got <? len)%nat && connected (client s)).
    + destruct (client_read (len - length got) (client s)) as [chunk c'].
      destruct (negb (is_nil chunk)).
      * destruct (IH (got ++ chunk) (set_client c' s)) as (c2 & t2 & E).
        exists c2, t2. rewrite E. reflexivity.
      * destruct (IH got (delay1 (set_client c' s))) as (c2 & t2 & E).
        exists c2, t2. rewrite E. reflexivity.
    + exists (client s), (uptime s). symmetry. apply state_eta.
Qed.

Lemma readExactly_shape len s :
  ∃ c' t', (readExactly len s).2 = set_uptime t' (set_client c' s).
Proof. apply readLoop_shape. Qed.

(** Bytes already buffered are handed over at once. *)
Lemma readExactly_buffered len s :
  attached (client s) = true → (0 < len ≤ length (rx (client s)))%nat →
  readExactly len s =
    (true, take len (rx (client s)),
     set_client (mkClient true (drop len (rx (client s))) (incoming (client s))) s).
Proof.
  intros Hatt [Hpos Hlen]. unfold readExactly, read_fuel.
  replace (2 * length (incoming (client s)) + 3)%nat
    with (S (S (2 * length (incoming (client s)) + 1))) by lia.
  cbn [readLoop length].
  assert (Hc : connected (client s) = true).
  { unfold connected. rewrite Hatt. destruct (rx (client s)); simpl in *; [lia | reflexivity]. }
  rewrite Hc. replace (0 <? len)%nat with true by (symmetry; apply Nat.ltb_lt; lia).
  cbn [andb]. unfold client_read. rewrite Hatt, Nat.sub_0_r.
  assert (Hne : is_nil (take len (rx (client s))) = false).
  { destruct (rx (client s)), len; simpl in *; try lia; reflexivity. }
  rewrite Hne. cbn [negb app].
  rewrite length_take, Nat.min_l by lia.
  rewrite Nat.ltb_irrefl, Nat.eqb_refl. reflexivity.
Qed.

Lemma stream_length_connected c n :
  attached c = true → (0 < n ≤ length (stream c))%nat → connected c = true.
Proof.
  unfold connected, stream. intros -> [Hpos Hn]. simpl.
  destruct (rx c); [| reflexivity]. destruct (incoming c); [simpl in Hn; lia | reflexivity].
Qed.

(** Whatever the segmentation, a read of [len] bytes succeeds as soon as the
    peer delivers that many before it goes away, and yields exactly the next
    [len] bytes of the stream. *)
Lemma readLoop_stream fuel len got s :
  (read_need len got (client s) ≤ fuel)%nat →
  attached (client s) = true →
  (length got ≤ len)%nat →
  (len - length got ≤ length (stream (client s)))%nat →
  ∃ c' t',
    readLoop fuel len got s =
      (true, got ++ take (len - length got) (stream (client s)),
       set_uptime t' (set_client c' s))
    ∧ attached c' = true
    ∧ stream c' = drop (len - length got) (stream (client s)).
Proof.
  revert got s. induction fuel as [| fuel IH]; intros got s Hfuel Hatt Hgot Hlen.
  { unfold read_need in Hfuel. destruct (length got <? len)%nat; lia. }
  cbn [readLoop]. unfold read_need in Hfuel.
  destruct (length got <? len)%nat eqn:Hlt.
  - apply Nat.ltb_lt in Hlt.
    rewrite (stream_length_connected (client s) (len - length got)) by (auto; lia).
    cbn [andb]. unfold client_read. rewrite Hatt.
    destruct (client s) as [att rxb inc] eqn:Hc. cbn [attached rx incoming] in *. subst att.
    destruct rxb as [| b rxb].
    + (* nothing buffered: wait for the next segment *)
      rewrite take_nil. cbn [is_nil negb].
      destruct inc as [| seg inc]; [unfold stream in Hlen; simpl in Hlen; lia |].
      rewrite drop_nil.
      destruct (IH got (delay1 (set_client (mkClient true [] (seg :: inc)) s)))
        as (c2 & t2 & E & Ha & Hs).
      * unfold delay1, read_need, client_tick. simpl.
        replace (length got <? len)%nat with true by (symmetry; apply Nat.ltb_lt; lia).
        cbn [length] in Hfuel. destruct seg; simpl; lia.
      * reflexivity.
      * exact Hgot.
      * unfold delay1, client_tick. simpl.
        unfold stream in *. simpl in *. exact Hlen.
      * exists c2, t2. rewrite E. split; [| split; [exact Ha |]].
        -- unfold delay1, client_tick. simpl.
           unfold stream. simpl. reflexivity.
        -- rewrite Hs. unfold delay1, client_tick. simpl.
           unfold stream. simpl. reflexivity.
    + remember (len - length got)%nat as k eqn:Hk.
      assert (Hne : is_nil (take k (b :: rxb)) = false).
      { destruct k; [lia | reflexivity]. }
      rewrite Hne. cbn [negb].
      destruct (IH (got ++ take k (b :: rxb))
                  (set_client (mkClient true (drop k (b :: rxb)) inc) s))
        as (c2 & t2 & E & Ha & Hs).
      * unfold read_need. simpl.
        rewrite length_app, length_take.
        destruct (length got + Nat.min k (length (b :: rxb)) <? len)%nat eqn:Hlt2; [| lia].
        apply Nat.ltb_lt in Hlt2.
        rewrite drop_ge by lia. simpl. simpl in Hfuel. lia.
      * reflexivity.
      * rewrite length_app, length_take. lia.
      * simpl. rewrite length_app, length_take. unfold stream in *. simpl in *.
        rewrite length_app in *. rewrite length_drop. simpl in *. lia.
      * exists c2, t2. rewrite E. split; [| split; [exact Ha |]].
        -- f_equal. f_equal. simpl. unfold stream. cbn [rx incoming].
           rewrite <- app_assoc. f_equal.
           rewrite length_app, length_take.
           rewrite (take_app (b :: rxb)).
           destruct (Nat.le_gt_cases k (length (b :: rxb))) as [Hle | Hgt].
           ++ rewrite Nat.min_l by lia.
              replace (len - (length got + k))%nat with 0%nat by lia.
              replace (k - length (b :: rxb))%nat with 0%nat by lia.
              rewrite !take_0. reflexivity.
           ++ rewrite Nat.min_r by lia.
              rewrite (take_ge (b :: rxb)) by lia.
              rewrite (drop_ge (b :: rxb)) by lia.
              f_equal. f_equal. lia.
        -- rewrite Hs. simpl. unfold stream. cbn [rx incoming].
           rewrite length_app, length_take.
           rewrite (drop_app (b :: rxb) _ k).
           destruct (Nat.le_gt_cases k (length (b :: rxb))) as [Hle | Hgt].
           ++ rewrite Nat.min_l by lia.
              replace (len - (length got + k))%nat with 0%nat by lia.
              replace (k - length (b :: rxb))%nat with 0%nat by lia.
              rewrite !drop_0. reflexivity.
           ++ rewrite Nat.min_r by lia.
              rewrite (drop_ge (b :: rxb)) by lia.
              cbn [app]. f_equal. lia.
  - apply Nat.ltb_ge in Hlt. cbn [andb].
    replace (length got =? len)%nat with true by (symmetry; apply Nat.eqb_eq; lia).
    exists (client s), (uptime s).
    replace (len - length got)%nat with 0%nat by lia.
    rewrite take_0, drop_0, app_nil_r, state_eta. auto.
Qed.

Lemma readExactly_stream len s :
  attached (client s) = true →
  (len ≤ length (stream (client s)))%nat →
  ∃ c' t',
    readExactly len s =
      (true, take len (stream (client s)), set_uptime t' (set_client c' s))
    ∧ attached c' = true
    ∧ stream c' = drop len (stream (client s)).
Proof.
  intros Hatt Hlen.
  destruct (readLoop_stream (read_fuel (client s)) len [] s) as (c' & t' & E & Ha & Hs).
  - unfold read_need, read_fuel. destruct (_ <? _)%nat; [destruct (is_nil _) |]; lia.
  - exact Hatt.
  - simpl. lia.
  - simpl. lia.
  - exists c', t'. unfold readExactly. rewrite E. simpl. rewrite Nat.sub_0_r in *. auto.
Qed.

(** The loop never runs out of rounds: any two budgets above [read_need]
    give the same result. *)
Lemma readLoop_fuel f1 : ∀ f2 len got s,
  (read_need len got (client s) ≤ f1)%nat →
  (read_need len got (client s) ≤ f2)%nat →
  readLoop f1 len got s = readLoop f2 len got s.
Proof.
  induction f1 as [| f1 IH]; intros f2 len got s H1 H2.
  { unfold read_need in H1. destruct (_ <? _)%nat; lia. }
  destruct f2 as [| f2].
  { unfold read_need in H2. destruct (_ <? _)%nat; lia. }
  cbn [readLoop]. unfold read_need in H1, H2.
  destruct (length got <? len)%nat eqn:Hlt; [| reflexivity].
  apply Nat.ltb_lt in Hlt. cbn [andb].
  destruct (connected (client s)) eqn:Hconn; [| reflexivity].
  unfold connected in Hconn. apply andb_true_iff in Hconn as [Hatt Hdata].
  unfold client_read. rewrite Hatt.
  destruct (client s) as [att rxb inc] eqn:Hc. cbn [attached rx incoming] in *. subst att.
  destruct rxb as [| b rxb].
  - rewrite take_nil. cbn [is_nil negb].
    destruct inc as [| seg inc]; [discriminate |].
    rewrite drop_nil.
    apply IH; unfold delay1, client_tick, read_need; simpl;
      replace (length got <? len)%nat with true by (symmetry; apply Nat.ltb_lt; lia);
      simpl in H1, H2; destruct seg; simpl; lia.
  - remember (len - length got)%nat as k eqn:Hk.
    assert (Hne : is_nil (take k (b :: rxb)) = false).
    { destruct k; [lia | reflexivity]. }
    rewrite Hne. cbn [negb].
    apply IH; unfold read_need; simpl; rewrite length_app, length_take;
      (destruct (length got + Nat.min k (length (b :: rxb)) <? len)%nat eqn:Hlt2;
       [ apply Nat.ltb_lt in Hlt2; rewrite drop_ge by lia; simpl; simpl in H1, H2; lia
       | simpl in H1, H2; lia ]).
Qed.

(** A peer that goes away before [len] bytes have come makes the read
    fail. *)
Lemma readLoop_short fuel len got s :
  (length got + length (stream (client s)) < len)%nat →
  (readLoop fuel len got s).1.1 = false.
Proof.
  revert got s. induction fuel as [| fuel IH]; intros got s Hshort; [reflexivity |].
  cbn [readLoop].
  destruct ((length got <? len)%nat && connected (client s)) eqn:Hgo.
  - apply andb_true_iff in Hgo as [_ Hconn].
    unfold connected in Hconn. apply andb_true_iff in Hconn as [Hatt _].
    unfold client_read. rewrite Hatt.
    destruct (negb (is_nil (take (len - length got) (rx (client s))))).
    + apply IH. simpl. unfold stream in *. simpl.
      rewrite !length_app, length_take, length_drop in *. lia.
    + apply IH. unfold delay1, client_tick. simpl.
      unfold stream in *.
      destruct (incoming (client s)) as [| seg inc] eqn:Hinc; simpl in *;
        rewrite ?length_app, ?length_drop in *; lia.
  - simpl. apply Nat.eqb_neq. lia.
Qed.

Lemma readExactly_short len s :
  (length (stream (client s)) < len)%nat → (readExactly len s).1.1 = false.
Proof. intros H. apply readLoop_short. simpl. lia. Qed.

(** ** The header *)

Lemma parse_header_attached c k fid count tail :
  parse_header c = Some (k, fid, count, tail) → attached c = true.
Proof. unfold parse_header. destruct (attached c); [reflexivity | discriminate]. Qed.

Lemma parse_header_connected c k fid count tail :
  parse_header c = Some (k, fid, count, tail) → connected c = true.
Proof.
  unfold parse_header, connected. destruct (attached c); [| discriminate].
  destruct (rx c); [discriminate | reflexivity].
Qed.

Lemma parse_header_count_range c k fid count tail :
  parse_header c = Some (k, fid, count, tail) → 0 <= count < 65536.
Proof.
  unfold parse_header. intros H.
  repeat match type of H with
         | (if ?b then _ else _) = _ => destruct b; try discriminate
         | match ?l with [] => _ | _ :: _ => _ end = _ => destruct l; try discriminate
         end; injection H as _ _ <- _; apply le16_range.
Qed.

(** With a whole valid header buffered, [serveClient] reads it without
    waiting and branches on the parsed count alone. *)
Lemma serve_header s k fid count tail :
  parse_header (client s) = Some (k, fid, count, tail) →
  serveClient s =
    if count =? 0 then (EmptyFrame, countFrame fid (past_header tail s))
    else if width (display s) * height (display s) <? count then
      (CountTooLarge,
       stop_client (Serial_println (Num count)
                      (Serial_print (Text (too_large_text k)) (past_header tail s))))
    else frameBody k fid count (past_header tail s).
Proof.
  intros Hp. unfold serveClient, client_bool.
  rewrite (parse_header_connected _ _ _ _ _ Hp). cbn [negb orb].
  pose proof (parse_header_attached _ _ _ _ _ Hp) as Hatt.
  unfold parse_header in Hp. rewrite Hatt in Hp.
  destruct (rx (client s))
    as [| m0 [| m1 [| m2 [| m3 [| v [| f0 [| f1 [| f2 [| f3 [| c0 [| c1 tl]]]]]]]]]]] eqn:Hrx;
    try discriminate.
  assert (Hav : (available (client s) <? 11) = false).
  { unfold available. rewrite Hatt, Hrx. apply Z.ltb_ge. simpl length. lia. }
  rewrite Hav.
  rewrite readExactly_buffered by (rewrite ?Hrx; simpl; auto; lia).
  rewrite Hrx. cbn [take drop negb].
  set (s4 := set_client _ s).
  assert (Hrest : readExactly (Z.to_nat 7) s4 =
    (true, [v; f0; f1; f2; f3; c0; c1], past_header tl s)).
  { rewrite readExactly_buffered by (subst s4; simpl; auto; lia). reflexivity. }
  destruct (memcmp_eq [m0; m1; m2; m3] MAGIC 4) eqn:Hpx.
  - rewrite andb_false_r. unfold pixelFrame.
    change (HEADER_SIZE - 4) with 7. rewrite Hrest. cbv [byte_at default from_option lookup list_lookup id]. cbn [negb].
    destruct (v =? PROTO_VERSION); [| discriminate].
    injection Hp as <- <- <- <-. cbn [negb]. reflexivity.
  - destruct (memcmp_eq [m0; m1; m2; m3] MAGIC_RUN 4) eqn:Hrn; [| discriminate].
    cbn [negb andb]. unfold runFrame.
    change (RUN_HEADER_SIZE - 4) with 7. rewrite Hrest. cbv [byte_at default from_option lookup list_lookup id]. cbn [negb].
    destruct (v =? RUN_VERSION); [| discriminate].
    injection Hp as <- <- <- <-. cbn [negb]. reflexivity.
Qed.

(** ** ensureUpdateBuffer *)

Lemma ensure_fits n s : fits n s = true → ensureUpdateBuffer n s = (true, s).
Proof. unfold fits, ensureUpdateBuffer. intros ->. reflexivity. Qed.

(** What a call that has to allocate does, by the allocators' answers. *)
Lemma ensure_grow n s :
  fits n s = false →
  (ps_fails (heap s) = true ∧ ram_fails (heap s) = true ∧
   ∃ h', ensureUpdateBuffer n s =
           (false, Serial_println (Text "Failed to allocate update buffer") (set_heap h' s))
         ∧ blocks h' = blocks (heap s) ∧ last_addr h' = last_addr (heap s))
  ∨ ((ps_fails (heap s) = false ∨ ram_fails (heap s) = false) ∧
     ∃ h',
       let p := S (last_addr (heap s)) in
       ensureUpdateBuffer n s = (true, set_bufferCapacity n (set_updateBuffer p (set_heap h' s)))
       ∧ last_addr h' = p
       ∧ blocks h' =
           (if is_null (updateBuffer s) then (<[p := fresh_block (u32 (n * sizeof_PixelUpdate))]> (blocks (heap s)))
            else delete (updateBuffer s)
                   (<[p := fresh_block (u32 (n * sizeof_PixelUpdate))]> (blocks (heap s))))).
Proof.
  intros Hfit. unfold ensureUpdateBuffer. fold (fits n s). rewrite Hfit.
  unfold ps_fails, ram_fails, ps_malloc, malloc.
  destruct (heap s) as [ps ram b a] eqn:Hh. cbn [psram_answers ram_answers blocks last_addr].
  destruct ps as [| [] ps]; cbn [hd negb is_null nullptr Nat.eqb].
  - destruct ram as [| [] ram]; cbn [hd negb is_null nullptr Nat.eqb psram_answers ram_answers blocks last_addr].
    + left. repeat split; auto. eexists. split; [reflexivity |]. auto.
    + right. split; [auto |]. eexists. split; [reflexivity |].
      destruct (is_null (updateBuffer s)); cbn; auto.
    + left. repeat split; auto. eexists. split; [reflexivity |]. auto.
  - right. split; [auto |]. eexists. split; [reflexivity |].
    destruct (is_null (updateBuffer s)); cbn; auto.
  - destruct ram as [| [] ram]; cbn [hd negb is_null nullptr Nat.eqb psram_answers ram_answers blocks last_addr].
    + left. repeat split; auto. eexists. split; [reflexivity |]. auto.
    + right. split; [auto |]. eexists. split; [reflexivity |].
      destruct (is_null (updateBuffer s)); cbn; auto.
    + left. repeat split; auto. eexists. split; [reflexivity |]. auto.
Qed.

Lemma ensure_capacity_step n s :
  null_is_empty s = true → 0 <= n →
  bufferCapacity s <= bufferCapacity (ensureUpdateBuffer n s).2
  ∧ null_is_empty (ensureUpdateBuffer n s).2 = true.
Proof.
  intros Hinv Hn. destruct (fits n s) eqn:Hfit.
  - rewrite ensure_fits by exact Hfit. simpl. split; [lia | exact Hinv].
  - destruct (ensure_grow n s Hfit) as [(_ & _ & h' & E & _) | (_ & h' & E & _)];
      rewrite E; cbn [snd].
    + split; [simpl; lia | exact Hinv].
    + split; [| reflexivity]. cbn.
      unfold fits in Hfit. unfold null_is_empty in Hinv.
      destruct (is_null (updateBuffer s)).
      * apply Z.eqb_eq in Hinv. lia.
      * rewrite andb_true_r in Hfit. apply Z.leb_gt in Hfit. lia.
Qed.

Lemma ensure_seq_monotone ns : ∀ s,
  null_is_empty s = true → Forall (λ n, 0 <= n) ns →
  bufferCapacity s <= bufferCapacity (ensure_seq ns s).
Proof.
  induction ns as [| n ns IH]; intros s Hinv Hns; [simpl; lia |].
  inversion Hns as [| ? ? Hn Hns']; subst.
  destruct (ensure_capacity_step n s Hinv Hn) as [Hle Hinv'].
  unfold ensure_seq in *. cbn [foldl].
  specialize (IH _ Hinv' Hns'). lia.
Qed.

Lemma ensure_seq_null_is_empty ns : ∀ s,
  null_is_empty s = true → Forall (λ n, 0 <= n) ns →
  null_is_empty (ensure_seq ns s) = true.
Proof.
  induction ns as [| n ns IH]; intros s Hinv Hns; [exact Hinv |].
  inversion Hns as [| ? ? Hn Hns']; subst.
  destruct (ensure_capacity_step n s Hinv Hn) as [_ Hinv'].
  unfold ensure_seq in *. cbn [foldl]. apply IH; assumption.
Qed.


(** ** The update buffer *)

Ltac st_simpl :=
  cbn [server client display heap serial uptime frameCount lastStats updatesApplied
       lastFrameId updateBuffer bufferCapacity
       set_server set_client set_display set_heap set_serial set_uptime set_frameCount
       set_lastStats set_updatesApplied set_lastFrameId set_updateBuffer set_bufferCapacity
       with_blocks psram_answers ram_answers blocks last_addr
       raw_width raw_height ops issue draw
       Serial_print Serial_println stop_client countFrame past_header
       attached rx incoming fst snd] in *.

Ltac st_unfold :=
  unfold set_server, set_client, set_display, set_heap, set_serial, set_uptime,
    set_frameCount, set_lastStats, set_updatesApplied, set_lastFrameId, set_updateBuffer,
    set_bufferCapacity, draw, issue, with_blocks in *;
  st_simpl.

Lemma buf_update_insert i f s cells :
  blocks (heap s) !! updateBuffer s = Some cells →
  buf_update i f s =
    set_heap (with_blocks (<[updateBuffer s := alter f (Z.to_nat i) cells]> (blocks (heap s)))
                (heap s)) s.
Proof.
  intros Hb. unfold buf_update. f_equal. f_equal.
  apply map_eq. intros k. rewrite lookup_alter, lookup_insert.
  case_decide; [subst; rewrite Hb |]; reflexivity.
Qed.

Lemma stored_same s cells :
  blocks (heap s) !! updateBuffer s = Some cells →
  stored (client s) (uptime s) cells s = s.
Proof.
  intros Hb. unfold stored. rewrite insert_id by exact Hb.
  destruct s as [sv c d [ps ram b a] sr t fc ls ua lf ub bc]. reflexivity.
Qed.

Lemma buf_get_stored c t cells s i :
  buf_get i (stored c t cells s) = default blank (cells !! Z.to_nat i).
Proof.
  unfold buf_get, stored. st_simpl. rewrite lookup_insert_eq. reflexivity.
Qed.

Lemma is_u16_range v : is_u16 v = true → 0 <= v < 65536.
Proof. unfold is_u16. intros H. apply andb_true_iff in H as [H1 H2]. lia. Qed.

Lemma pixel_wf_fields e :
  pixel_wf e = true → is_u16 (pe_x e) = true ∧ is_u16 (pe_y e) = true ∧ is_u16 (pe_color e) = true.
Proof.
  unfold pixel_wf. intros H. apply andb_true_iff in H as [H Hc].
  apply andb_true_iff in H as [Hx Hy]. auto.
Qed.

Lemma run_wf_fields e :
  run_wf e = true →
  is_u16 (re_y e) = true ∧ is_u16 (re_x0 e) = true
  ∧ is_u16 (re_length e) = true ∧ is_u16 (re_color e) = true.
Proof.
  unfold run_wf. intros H. apply andb_true_iff in H as [H Hc].
  apply andb_true_iff in H as [H Hl]. apply andb_true_iff in H as [Hy Hx]. auto.
Qed.

(** *** Pixel bodies *)

Lemma decodePixels_stream es : ∀ i s cells rest,
  attached (client s) = true →
  stream (client s) = concat (map enc_pixel es) ++ rest →
  Forall (λ e, pixel_wf e = true) es →
  blocks (heap s) !! updateBuffer s = Some cells →
  0 <= i →
  (Z.to_nat i + length es ≤ length cells)%nat →
  ∃ c' t' cells',
    decodePixels (length es) i s = (true, stored c' t' cells' s)
    ∧ attached c' = true
    ∧ stream c' = rest
    ∧ length cells' = length cells
    ∧ (∀ k, (k < Z.to_nat i)%nat → cells' !! k = cells !! k)
    ∧ (∀ j e, es !! j = Some e →
         ∃ old, cells' !! (Z.to_nat i + j)%nat
                = Some (mkUpdate (pe_x e) (pe_y e) old (pe_color e))).
Proof.
  induction es as [| e es IH]; intros i s cells rest Hatt Hs Hwf Hb Hi Hlen.
  { exists (client s), (uptime s), cells. cbn [length decodePixels].
    rewrite stored_same by exact Hb. repeat split; auto.
    intros j e Hj. rewrite lookup_nil in Hj. discriminate. }
  inversion Hwf as [| ? ? Hwe Hwes]; subst.
  destruct (pixel_wf_fields e Hwe) as (Hx & Hy & Hc).
  cbn [length decodePixels].
  assert (Hs' : stream (client s) = enc_pixel e ++ (concat (map enc_pixel es) ++ rest)).
  { rewrite Hs. cbn [map concat]. rewrite <- app_assoc. reflexivity. }
  destruct (readExactly_stream 6 s Hatt) as (c1 & t1 & E1 & Ha1 & Hs1).
  { rewrite Hs'. cbn. lia. }
  rewrite E1. cbn [negb]. rewrite Hs' in *.
  change (take 6 (enc_pixel e ++ (concat (map enc_pixel es) ++ rest))) with (enc_pixel e).
  change (drop 6 (enc_pixel e ++ (concat (map enc_pixel es) ++ rest)))
    with (concat (map enc_pixel es) ++ rest) in Hs1.
  set (s1 := set_uptime t1 (set_client c1 s)).
  replace (le16 (byte_at (enc_pixel e) 0) (byte_at (enc_pixel e) 1)) with (pe_x e)
    by (symmetry; apply (le16_enc (pe_x e)), is_u16_range, Hx).
  replace (le16 (byte_at (enc_pixel e) 2) (byte_at (enc_pixel e) 3)) with (pe_y e)
    by (symmetry; apply (le16_enc (pe_y e)), is_u16_range, Hy).
  replace (le16 (byte_at (enc_pixel e) 4) (byte_at (enc_pixel e) 5)) with (pe_color e)
    by (symmetry; apply (le16_enc (pe_color e)), is_u16_range, Hc).
  rewrite (buf_update_insert _ _ s1 cells) by exact Hb.
  set (cells1 := alter (with_x (pe_x e)) (Z.to_nat i) cells).
  set (s2 := set_heap _ s1).
  rewrite (buf_update_insert _ _ s2 cells1) by (subst s2 s1; st_simpl; apply lookup_insert_eq).
  set (cells2 := alter (with_y (pe_y e)) (Z.to_nat i) cells1).
  set (s3 := set_heap _ s2).
  rewrite (buf_update_insert _ _ s3 cells2) by (subst s3 s2 s1; st_simpl; apply lookup_insert_eq).
  set (cells3 := alter (with_color (pe_color e)) (Z.to_nat i) cells2).
  set (s4 := set_heap _ s3).
  assert (Hlen3 : length cells3 = length cells).
  { subst cells3 cells2 cells1. rewrite !length_alter. reflexivity. }
  destruct (IH (i + 1) s4 cells3 rest) as (c' & t' & cells' & E & Ha & Hst & Hl & Hkeep & Hnew).
  - exact Ha1.
  - exact Hs1.
  - exact Hwes.
  - subst s4 s3 s2 s1. st_simpl. apply lookup_insert_eq.
  - lia.
  - rewrite Hlen3. cbn [length] in Hlen. lia.
  - exists c', t', cells'. rewrite E. split; [| split; [exact Ha | split; [exact Hst |
      split; [congruence | split]]]].
    + f_equal. unfold stored. subst s4 s3 s2 s1. st_simpl.
      rewrite !insert_insert_eq. reflexivity.
    + intros k Hk. rewrite Hkeep by lia.
      subst cells3 cells2 cells1. rewrite !list_lookup_alter_ne by lia. reflexivity.
    + intros [| j] e' Hj.
      * cbn in Hj. injection Hj as <-.
        rewrite Nat.add_0_r, Hkeep by lia.
        destruct (lookup_lt_is_Some_2 cells (Z.to_nat i)) as [old Hold];
          [cbn [length] in Hlen; lia |].
        exists (upd_len old). subst cells3 cells2 cells1.
        rewrite !list_lookup_alter_eq, Hold. reflexivity.
      * cbn in Hj. destruct (Hnew j e' Hj) as [old Hold]. exists old.
        rewrite <- Hold. f_equal. lia.
Qed.

Lemma composited_nil s :
  0 <= updatesApplied s < 4294967296 → composited [] 0 s = s.
Proof.
  intros Hua. unfold composited. rewrite Z.add_0_r, u32_small, app_nil_r by exact Hua.
  destruct s as [sv c [w h o] hp sr t fc ls ua lf ub bc]. reflexivity.
Qed.

Lemma width_range d : -32768 <= width d <= 32767.
Proof. apply int16_range. Qed.

Lemma height_range d : -32768 <= height d <= 32767.
Proof. apply int16_range. Qed.

Lemma applyPixels_spec es : ∀ i s,
  0 <= i →
  Forall (λ e, pixel_wf e = true) es →
  (∀ j e, es !! j = Some e →
     ∃ old, buf_get (i + Z.of_nat j) s = mkUpdate (pe_x e) (pe_y e) old (pe_color e)) →
  0 <= updatesApplied s < 4294967296 →
  applyPixels (length es) i s =
    composited (map pixel_op (List.filter (pixel_in_bounds (display s)) es))
      (Z.of_nat (length (List.filter (pixel_in_bounds (display s)) es))) s.
Proof.
  induction es as [| e es IH]; intros i s Hi Hwf Hbuf Hua.
  { cbn [length applyPixels List.filter map]. symmetry. apply composited_nil, Hua. }
  inversion Hwf as [| ? ? Hwe Hwes]; subst.
  destruct (pixel_wf_fields e Hwe) as (Hx & Hy & _).
  apply is_u16_range in Hx, Hy.
  destruct (Hbuf 0%nat e eq_refl) as [old Hcell].
  rewrite Z.add_0_r in Hcell.
  assert (Hnext : ∀ s', (∀ k, buf_get k s' = buf_get k s) →
            ∀ j e', es !! j = Some e' →
              ∃ old', buf_get (i + 1 + Z.of_nat j) s'
                      = mkUpdate (pe_x e') (pe_y e') old' (pe_color e')).
  { intros s' Hsame j e' Hj. rewrite Hsame.
    replace (i + 1 + Z.of_nat j) with (i + Z.of_nat (S j)) by lia.
    apply Hbuf. exact Hj. }
  cbn [length applyPixels List.filter]. rewrite Hcell. cbn [upd_x upd_y upd_color].
  fold (pixel_in_bounds (display s) e).
  destruct (pixel_in_bounds (display s) e) eqn:Hin.
  - unfold pixel_in_bounds in Hin. apply andb_true_iff in Hin as [Hxw Hyh].
    apply Z.ltb_lt in Hxw, Hyh.
    pose proof (width_range (display s)). pose proof (height_range (display s)).
    rewrite (int16_small (pe_x e)), (int16_small (pe_y e)) by lia.
    rewrite IH; [| lia | exact Hwes | apply Hnext; reflexivity | st_simpl; apply u32_range].
    change (pixel_in_bounds (display (set_updatesApplied _ _)))
      with (pixel_in_bounds (display s)).
    unfold composited. st_unfold. cbn [map length].
    rewrite u32_succ_l, <- app_assoc. cbn [app]. unfold pixel_op at 2.
    f_equal. f_equal. lia.
  - rewrite IH; [reflexivity | lia | exact Hwes | apply Hnext; reflexivity | exact Hua].
Qed.

(** *** Run bodies *)

Lemma decodeRuns_stream es : ∀ i s cells rest,
  attached (client s) = true →
  stream (client s) = concat (map enc_run es) ++ rest →
  Forall (λ e, run_wf e = true) es →
  blocks (heap s) !! updateBuffer s = Some cells →
  0 <= i →
  (Z.to_nat i + length es ≤ length cells)%nat →
  ∃ c' t' cells',
    decodeRuns (length es) i s = (true, stored c' t' cells' s)
    ∧ attached c' = true
    ∧ stream c' = rest
    ∧ length cells' = length cells
    ∧ (∀ k, (k < Z.to_nat i)%nat → cells' !! k = cells !! k)
    ∧ (∀ j e, es !! j = Some e →
         cells' !! (Z.to_nat i + j)%nat
         = Some (mkUpdate (re_x0 e) (re_y e) (re_length e) (re_color e))).
Proof.
  induction es as [| e es IH]; intros i s cells rest Hatt Hs Hwf Hb Hi Hlen.
  { exists (client s), (uptime s), cells. cbn [length decodeRuns].
    rewrite stored_same by exact Hb. repeat split; auto.
    intros j e Hj. rewrite lookup_nil in Hj. discriminate. }
  inversion Hwf as [| ? ? Hwe Hwes]; subst.
  destruct (run_wf_fields e Hwe) as (Hy & Hx & Hl & Hc).
  cbn [length decodeRuns].
  assert (Hs' : stream (client s) = enc_run e ++ (concat (map enc_run es) ++ rest)).
  { rewrite Hs. cbn [map concat]. rewrite <- app_assoc. reflexivity. }
  destruct (readExactly_stream 8 s Hatt) as (c1 & t1 & E1 & Ha1 & Hs1).
  { rewrite Hs'. cbn. lia. }
  rewrite E1. cbn [negb]. rewrite Hs' in *.
  change (take 8 (enc_run e ++ (concat (map enc_run es) ++ rest))) with (enc_run e).
  change (drop 8 (enc_run e ++ (concat (map enc_run es) ++ rest)))
    with (concat (map enc_run es) ++ rest) in Hs1.
  set (s1 := set_uptime t1 (set_client c1 s)).
  replace (le16 (byte_at (enc_run e) 0) (byte_at (enc_run e) 1)) with (re_y e)
    by (symmetry; apply (le16_enc (re_y e)), is_u16_range, Hy).
  replace (le16 (byte_at (enc_run e) 2) (byte_at (enc_run e) 3)) with (re_x0 e)
    by (symmetry; apply (le16_enc (re_x0 e)), is_u16_range, Hx).
  replace (le16 (byte_at (enc_run e) 4) (byte_at (enc_run e) 5)) with (re_length e)
    by (symmetry; apply (le16_enc (re_length e)), is_u16_range, Hl).
  replace (le16 (byte_at (enc_run e) 6) (byte_at (enc_run e) 7)) with (re_color e)
    by (symmetry; apply (le16_enc (re_color e)), is_u16_range, Hc).
  rewrite (buf_update_insert _ _ s1 cells) by exact Hb.
  set (cells1 := alter (with_y (re_y e)) (Z.to_nat i) cells).
  set (s2 := set_heap _ s1).
  rewrite (buf_update_insert _ _ s2 cells1) by (subst s2 s1; st_simpl; apply lookup_insert_eq).
  set (cells2 := alter (with_x (re_x0 e)) (Z.to_nat i) cells1).
  set (s3 := set_heap _ s2).
  rewrite (buf_update_insert _ _ s3 cells2) by (subst s3 s2 s1; st_simpl; apply lookup_insert_eq).
  set (cells3 := alter (with_len (re_length e)) (Z.to_nat i) cells2).
  set (s4 := set_heap _ s3).
  rewrite (buf_update_insert _ _ s4 cells3)
    by (subst s4 s3 s2 s1; st_simpl; apply lookup_insert_eq).
  set (cells4 := alter (with_color (re_color e)) (Z.to_nat i) cells3).
  set (s5 := set_heap _ s4).
  assert (Hlen4 : length cells4 = length cells).
  { subst cells4 cells3 cells2 cells1. rewrite !length_alter. reflexivity. }
  destruct (IH (i + 1) s5 cells4 rest) as (c' & t' & cells' & E & Ha & Hst & Hl' & Hkeep & Hnew).
  - exact Ha1.
  - exact Hs1.
  - exact Hwes.
  - subst s5 s4 s3 s2 s1. st_simpl. apply lookup_insert_eq.
  - lia.
  - rewrite Hlen4. cbn [length] in Hlen. lia.
  - exists c', t', cells'. rewrite E. split; [| split; [exact Ha | split; [exact Hst |
      split; [congruence | split]]]].
    + f_equal. unfold stored. subst s5 s4 s3 s2 s1. st_simpl.
      rewrite !insert_insert_eq. reflexivity.
    + intros k Hk. rewrite Hkeep by lia.
      subst cells4 cells3 cells2 cells1. rewrite !list_lookup_alter_ne by lia. reflexivity.
    + intros [| j] e' Hj.
      * cbn in Hj. injection Hj as <-.
        rewrite Nat.add_0_r, Hkeep by lia.
        destruct (lookup_lt_is_Some_2 cells (Z.to_nat i)) as [old Hold];
          [cbn [length] in Hlen; lia |].
        subst cells4 cells3 cells2 cells1.
        rewrite !list_lookup_alter_eq, Hold. reflexivity.
      * cbn in Hj. rewrite <- (Hnew j e' Hj). f_equal. lia.
Qed.

(** The four tests of main.cpp:328 amount to the three of the
    specification: a positive length that fits the row starts inside it. *)
Lemma run_guard d e :
  (re_x0 e <? width d) && (re_y e <? height d) && (0 <? re_length e)
    && (re_x0 e + re_length e <=? width d)
  = run_applies d e.
Proof.
  unfold run_applies.
  destruct (re_x0 e <? width d) eqn:H1, (re_y e <? height d) eqn:H2,
    (0 <? re_length e) eqn:H3, (re_x0 e + re_length e <=? width d) eqn:H4;
    try reflexivity.
  apply Z.ltb_ge in H1. apply Z.ltb_lt in H3. apply Z.leb_le in H4. lia.
Qed.

Lemma applyRuns_spec es : ∀ i s,
  0 <= i →
  Forall (λ e, run_wf e = true) es →
  (∀ j e, es !! j = Some e →
     buf_get (i + Z.of_nat j) s = mkUpdate (re_x0 e) (re_y e) (re_length e) (re_color e)) →
  0 <= updatesApplied s < 4294967296 →
  applyRuns (length es) i s =
    composited (map run_op (List.filter (run_applies (display s)) es))
      (total_length (List.filter (run_applies (display s)) es)) s.
Proof.
  induction es as [| e es IH]; intros i s Hi Hwf Hbuf Hua.
  { cbn [length applyRuns List.filter map total_length foldr].
    symmetry. apply composited_nil, Hua. }
  inversion Hwf as [| ? ? Hwe Hwes]; subst.
  destruct (run_wf_fields e Hwe) as (Hy & Hx & Hl & _).
  apply is_u16_range in Hx, Hy, Hl.
  pose proof (Hbuf 0%nat e eq_refl) as Hcell.
  rewrite Z.add_0_r in Hcell.
  assert (Hnext : ∀ s', (∀ k, buf_get k s' = buf_get k s) →
            ∀ j e', es !! j = Some e' →
              buf_get (i + 1 + Z.of_nat j) s'
              = mkUpdate (re_x0 e') (re_y e') (re_length e') (re_color e')).
  { intros s' Hsame j e' Hj. rewrite Hsame.
    replace (i + 1 + Z.of_nat j) with (i + Z.of_nat (S j)) by lia.
    apply Hbuf. exact Hj. }
  cbn [length applyRuns List.filter]. rewrite Hcell. cbn [upd_x upd_y upd_len upd_color].
  rewrite run_guard.
  destruct (run_applies (display s) e) eqn:Hin.
  - unfold run_applies in Hin. apply andb_true_iff in Hin as [Hin Hfit].
    apply andb_true_iff in Hin as [Hyh Hpos].
    apply Z.ltb_lt in Hyh, Hpos. apply Z.leb_le in Hfit.
    pose proof (width_range (display s)). pose proof (height_range (display s)).
    rewrite (int16_small (re_x0 e)), (int16_small (re_y e)), (int16_small (re_length e)) by lia.
    rewrite IH; [| lia | exact Hwes | apply Hnext; reflexivity | st_simpl; apply u32_range].
    change (run_applies (display (set_updatesApplied _ _)))
      with (run_applies (display s)).
    unfold composited. st_unfold. cbn [map total_length foldr].
    rewrite u32_succ_l, <- app_assoc. cbn [app]. unfold run_op at 2.
    f_equal. f_equal. fold (total_length (List.filter (run_applies (display s)) es)). lia.
  - rewrite IH; [reflexivity | lia | exact Hwes | apply Hnext; reflexivity | exact Hua].
Qed.

(** ** Whole frames *)

Lemma header_parses k fid count tail c :
  attached c = true →
  rx c = header k fid count ++ tail →
  0 <= fid < 4294967296 →
  0 <= count < 65536 →
  parse_header c = Some (k, fid, count, tail).
Proof.
  intros Hatt Hrx Hfid Hcount. unfold parse_header. rewrite Hatt, Hrx.
  destruct k; unfold header, magic_of, version_of, enc32, enc16, MAGIC, MAGIC_RUN;
    cbn [app];
    [ change (memcmp_eq [80; 88; 85; 80] [80; 88; 85; 80] 4) with true
    | change (memcmp_eq [80; 88; 85; 82] [80; 88; 85; 80] 4) with false;
      change (memcmp_eq [80; 88; 85; 82] [80; 88; 85; 82] 4) with true ];
    cbn match; rewrite Z.eqb_refl, le32_enc, le16_enc by assumption; reflexivity.
Qed.

Lemma finishFrame_fields f s :
  display (finishFrame f s) = display s
  ∧ updatesApplied (finishFrame f s) = updatesApplied s
  ∧ frameCount (finishFrame f s) = u32 (frameCount s + 1)
  ∧ lastFrameId (finishFrame f s) = f
  ∧ client (finishFrame f s) = client s
  ∧ state_ok (finishFrame f s) = state_ok s.
Proof.
  unfold finishFrame. destruct (2000 <? _); repeat split; reflexivity.
Qed.

Lemma buffer_ok_block s :
  buffer_ok s = true → is_null (updateBuffer s) = false →
  (updateBuffer s ≤ last_addr (heap s))%nat
  ∧ ∃ cells, blocks (heap s) !! updateBuffer s = Some cells
             ∧ Z.of_nat (length cells) = bufferCapacity s.
Proof.
  unfold buffer_ok. intros H Hnn. rewrite Hnn in H.
  apply andb_true_iff in H as [Hle H]. apply Nat.leb_le in Hle. split; [exact Hle |].
  destruct (blocks (heap s) !! updateBuffer s) as [cells |]; [| discriminate].
  exists cells. split; [reflexivity | apply Z.eqb_eq, H].
Qed.

Lemma fresh_block_length n :
  0 <= n < 2 ^ 29 → Z.of_nat (length (fresh_block (u32 (n * sizeof_PixelUpdate)))) = n.
Proof.
  intros Hn. unfold fresh_block, sizeof_PixelUpdate.
  rewrite length_replicate, u32_small by lia.
  rewrite Z.div_mul by lia. lia.
Qed.

(** After a successful [ensureUpdateBuffer] the buffer is a live block of
    at least [n] entries, and only heap, pointer and capacity have moved. *)
Lemma ensure_ready n s :
  buffer_ok s = true → 0 <= n < 2 ^ 29 →
  (ensureUpdateBuffer n s).1 = true →
  ∃ h' p' cells,
    ensureUpdateBuffer n s =
      (true, set_bufferCapacity (Z.of_nat (length cells)) (set_updateBuffer p' (set_heap h' s)))
    ∧ blocks h' !! p' = Some cells
    ∧ n <= Z.of_nat (length cells)
    ∧ is_null p' = false
    ∧ (p' ≤ last_addr h')%nat.
Proof.
  intros Hok Hn Htrue. destruct (fits n s) eqn:Hfit.
  - rewrite ensure_fits by exact Hfit.
    unfold fits in Hfit. apply andb_true_iff in Hfit as [Hle Hnn].
    apply Z.leb_le in Hle. apply negb_true_iff in Hnn.
    destruct (buffer_ok_block s Hok Hnn) as (Hp & cells & Hb & Hcap).
    exists (heap s), (updateBuffer s), cells. rewrite Hcap.
    split; [destruct s; reflexivity |].
    split; [exact Hb |]. split; [lia |]. split; [exact Hnn | exact Hp].
  - destruct (ensure_grow n s Hfit) as [(_ & _ & h' & E & _) | (_ & h' & E & Hlast & Hb)].
    { rewrite E in Htrue. discriminate. }
    cbn zeta in E, Hb.
    exists h', (S (last_addr (heap s))), (fresh_block (u32 (n * sizeof_PixelUpdate))).
    rewrite fresh_block_length by exact Hn.
    split; [exact E | split; [| split; [lia | split; [reflexivity | lia]]]].
    rewrite Hb. destruct (is_null (updateBuffer s)) eqn:Hnull.
    + apply lookup_insert_eq.
    + destruct (buffer_ok_block s Hok Hnull) as (Hp & _).
      rewrite lookup_delete_ne by lia. apply lookup_insert_eq.
Qed.

Lemma state_ok_fields s :
  state_ok s = true → buffer_ok s = true ∧ 0 <= updatesApplied s < 4294967296.
Proof.
  unfold state_ok. intros H. apply andb_true_iff in H as [H H3].
  apply andb_true_iff in H as [H1 H2]. split; [exact H1 | lia].
Qed.

Lemma pixelBody_applied fid es rest s :
  attached (client s) = true →
  stream (client s) = concat (map enc_pixel es) ++ rest →
  Forall (λ e, pixel_wf e = true) es →
  state_ok s = true →
  Z.of_nat (length es) < 65536 →
  (ensureUpdateBuffer (Z.of_nat (length es)) s).1 = true →
  (pixelBody fid (Z.of_nat (length es)) s).1 = AppliedFrame
  ∧ frame_applied s (pixelBody fid (Z.of_nat (length es)) s).2 fid
      (map pixel_op (List.filter (pixel_in_bounds (display s)) es))
      (Z.of_nat (length (List.filter (pixel_in_bounds (display s)) es))) rest.
Proof.
  intros Hatt Hs Hwf Hok Hcount Hens.
  destruct (state_ok_fields s Hok) as [Hbuf Hua].
  assert (Hrange : 0 <= Z.of_nat (length es) < 2 ^ 29) by lia.
  destruct (ensure_ready _ s Hbuf Hrange Hens) as (h' & p' & cells & E & Hb & Hn & Hnn & Hp).
  unfold pixelBody. rewrite E. cbn [negb]. rewrite Nat2Z.id.
  set (s3 := set_bufferCapacity _ _).
  destruct (decodePixels_stream es 0 s3 cells rest)
    as (c' & t' & cells' & E2 & Ha & Hst & Hl & _ & Hnew); auto; [lia | lia |].
  rewrite E2. cbn [negb fst snd].
  set (s5 := stored c' t' cells' s3).
  rewrite (applyPixels_spec es 0 s5); [| lia | exact Hwf | | exact Hua].
  2:{ intros j e Hj. destruct (Hnew j e Hj) as [old Hold]. exists old.
      subst s5. rewrite buf_get_stored. rewrite Z.add_0_l, Nat2Z.id.
      change (Z.to_nat 0 + j)%nat with j in Hold. rewrite Hold. reflexivity. }
  destruct (finishFrame_fields fid
              (composited (map pixel_op (List.filter (pixel_in_bounds (display s5)) es))
                 (Z.of_nat (length (List.filter (pixel_in_bounds (display s5)) es))) s5))
    as (Hd & Hu & Hf & Hlf & Hc & Hso).
  split; [reflexivity |]. unfold frame_applied.
  rewrite Hd, Hu, Hf, Hlf, Hc, Hso.
  do 4 (split; [reflexivity |]). split; [exact Ha |]. split; [exact Hst |].
  subst s5 s3. unfold state_ok, buffer_ok, composited, stored. st_simpl.
  rewrite Hnn, lookup_insert_eq, Hl, Z.eqb_refl.
  pose proof (u32_range (updatesApplied s
    + Z.of_nat (length (List.filter (pixel_in_bounds (display s)) es)))) as Hr.
  apply andb_true_iff; split; [apply andb_true_iff; split |].
  - apply andb_true_iff; split; [apply Nat.leb_le; exact Hp | reflexivity].
  - apply Z.leb_le. lia.
  - apply Z.ltb_lt. lia.
Qed.

Lemma runBody_applied fid es rest s :
  attached (client s) = true →
  stream (client s) = concat (map enc_run es) ++ rest →
  Forall (λ e, run_wf e = true) es →
  state_ok s = true →
  Z.of_nat (length es) < 65536 →
  (ensureUpdateBuffer (Z.of_nat (length es)) s).1 = true →
  (runBody fid (Z.of_nat (length es)) s).1 = AppliedFrame
  ∧ frame_applied s (runBody fid (Z.of_nat (length es)) s).2 fid
      (map run_op (List.filter (run_applies (display s)) es))
      (total_length (List.filter (run_applies (display s)) es)) rest.
Proof.
  intros Hatt Hs Hwf Hok Hcount Hens.
  destruct (state_ok_fields s Hok) as [Hbuf Hua].
  assert (Hrange : 0 <= Z.of_nat (length es) < 2 ^ 29) by lia.
  destruct (ensure_ready _ s Hbuf Hrange Hens) as (h' & p' & cells & E & Hb & Hn & Hnn & Hp).
  unfold runBody. rewrite E. cbn [negb]. rewrite Nat2Z.id.
  set (s3 := set_bufferCapacity _ _).
  destruct (decodeRuns_stream es 0 s3 cells rest)
    as (c' & t' & cells' & E2 & Ha & Hst & Hl & _ & Hnew); auto; [lia | lia |].
  rewrite E2. cbn [negb fst snd].
  set (s5 := stored c' t' cells' s3).
  rewrite (applyRuns_spec es 0 s5); [| lia | exact Hwf | | exact Hua].
  2:{ intros j e Hj. subst s5. rewrite buf_get_stored. rewrite Z.add_0_l, Nat2Z.id.
      pose proof (Hnew j e Hj) as Hcell.
      change (Z.to_nat 0 + j)%nat with j in Hcell. rewrite Hcell. reflexivity. }
  destruct (finishFrame_fields fid
              (composited (map run_op (List.filter (run_applies (display s5)) es))
                 (total_length (List.filter (run_applies (display s5)) es)) s5))
    as (Hd & Hu & Hf & Hlf & Hc & Hso).
  split; [reflexivity |]. unfold frame_applied.
  rewrite Hd, Hu, Hf, Hlf, Hc, Hso.
  do 4 (split; [reflexivity |]). split; [exact Ha |]. split; [exact Hst |].
  subst s5 s3. unfold state_ok, buffer_ok, composited, stored. st_simpl.
  rewrite Hnn, lookup_insert_eq, Hl, Z.eqb_refl.
  pose proof (u32_range (updatesApplied s
    + total_length (List.filter (run_applies (display s)) es))) as Hr.
  apply andb_true_iff; split; [apply andb_true_iff; split |].
  - apply andb_true_iff; split; [apply Nat.leb_le; exact Hp | reflexivity].
  - apply Z.leb_le. lia.
  - apply Z.ltb_lt. lia.
Qed.

(** The allocation does not look at the socket. *)
Lemma ensure_past_header n tail s :
  (ensureUpdateBuffer n (past_header tail s)).1 = (ensureUpdateBuffer n s).1.
Proof.
  unfold ensureUpdateBuffer, past_header. st_simpl.
  destruct ((n <=? bufferCapacity s) && negb (is_null (updateBuffer s))); [reflexivity |].
  destruct (ps_malloc _ (heap s)) as [tmp h1].
  destruct (if is_null tmp then malloc _ h1 else (tmp, h1)) as [tmp' h2].
  destruct (is_null tmp'); reflexivity.
Qed.

(** A frame whose header is buffered, with a count between 1 and the
    surface area, goes on to its body. *)
Lemma serve_to_body k fid count tail s :
  attached (client s) = true →
  rx (client s) = header k fid count ++ tail →
  0 <= fid < 4294967296 →
  0 < count < 65536 →
  count <= width (display s) * height (display s) →
  serveClient s = frameBody k fid count (past_header tail s).
Proof.
  intros Hatt Hrx Hfid Hcount Hfit.
  rewrite (serve_header s k fid count tail) by (apply header_parses; auto; lia).
  replace (count =? 0) with false by (symmetry; apply Z.eqb_neq; lia).
  replace (_ <? count) with false by (symmetry; apply Z.ltb_ge; lia).
  reflexivity.
Qed.

Lemma pixel_frame_applied s fid es tail rest :
  attached (client (acceptClient s)) = true →
  rx (client (acceptClient s)) = header PixelKind fid (Z.of_nat (length es)) ++ tail →
  tail ++ concat (incoming (client (acceptClient s))) = concat (map enc_pixel es) ++ rest →
  0 <= fid < 4294967296 →
  Forall (λ e, pixel_wf e = true) es →
  0 < Z.of_nat (length es) < 65536 →
  Z.of_nat (length es) <= width (display (acceptClient s)) * height (display (acceptClient s)) →
  state_ok (acceptClient s) = true →
  (ensureUpdateBuffer (Z.of_nat (length es)) (acceptClient s)).1 = true →
  (handleClient_outcome s).1 = AppliedFrame
  ∧ frame_applied (acceptClient s) (handleClient_outcome s).2 fid
      (map pixel_op (List.filter (pixel_in_bounds (display (acceptClient s))) es))
      (Z.of_nat (length (List.filter (pixel_in_bounds (display (acceptClient s))) es))) rest.
Proof.
  intros Hatt Hrx Hbody Hfid Hwf Hcount Hfit Hok Hens.
  unfold handleClient_outcome.
  rewrite (serve_to_body PixelKind fid (Z.of_nat (length es)) tail (acceptClient s) Hatt Hrx Hfid Hcount Hfit).
  cbn [frameBody].
  destruct (pixelBody_applied fid es rest (past_header tail (acceptClient s))) as [Ho Hf].
  - reflexivity.
  - exact Hbody.
  - exact Hwf.
  - exact Hok.
  - lia.
  - rewrite ensure_past_header. exact Hens.
  - split; [exact Ho | exact Hf].
Qed.

Lemma run_frame_applied s fid es tail rest :
  attached (client (acceptClient s)) = true →
  rx (client (acceptClient s)) = header RunKind fid (Z.of_nat (length es)) ++ tail →
  tail ++ concat (incoming (client (acceptClient s))) = concat (map enc_run es) ++ rest →
  0 <= fid < 4294967296 →
  Forall (λ e, run_wf e = true) es →
  0 < Z.of_nat (length es) < 65536 →
  Z.of_nat (length es) <= width (display (acceptClient s)) * height (display (acceptClient s)) →
  state_ok (acceptClient s) = true →
  (ensureUpdateBuffer (Z.of_nat (length es)) (acceptClient s)).1 = true →
  (handleClient_outcome s).1 = AppliedFrame
  ∧ frame_applied (acceptClient s) (handleClient_outcome s).2 fid
      (map run_op (List.filter (run_applies (display (acceptClient s))) es))
      (total_length (List.filter (run_applies (display (acceptClient s))) es)) rest.
Proof.
  intros Hatt Hrx Hbody Hfid Hwf Hcount Hfit Hok Hens.
  unfold handleClient_outcome.
  rewrite (serve_to_body RunKind fid (Z.of_nat (length es)) tail (acceptClient s) Hatt Hrx Hfid Hcount Hfit).
  cbn [frameBody].
  destruct (runBody_applied fid es rest (past_header tail (acceptClient s))) as [Ho Hf].
  - reflexivity.
  - exact Hbody.
  - exact Hwf.
  - exact Hok.
  - lia.
  - rewrite ensure_past_header. exact Hens.
  - split; [exact Ho | exact Hf].
Qed.

(** ** Fatal outcomes leave the surface and the statistics alone *)

Lemma keeps_refl s : keeps s s.
Proof. unfold keeps. auto. Qed.

Lemma keeps_trans s1 s2 s3 : keeps s1 s2 → keeps s2 s3 → keeps s1 s3.
Proof. unfold keeps. intuition congruence. Qed.

Lemma readExactly_keeps len s : keeps s (readExactly len s).2.
Proof.
  destruct (readExactly_shape len s) as (c' & t' & E). rewrite E.
  unfold keeps. auto.
Qed.

Lemma ensure_keeps n s : keeps s (ensureUpdateBuffer n s).2.
Proof.
  destruct (fits n s) eqn:Hfit.
  - rewrite ensure_fits by exact Hfit. apply keeps_refl.
  - destruct (ensure_grow n s Hfit) as [(_ & _ & h' & E & _) | (_ & h' & E & _)];
      rewrite E; unfold keeps; auto.
Qed.

Lemma decodePixels_keeps n : ∀ i s,
  keeps s (decodePixels n i s).2
  ∧ ((decodePixels n i s).1 = false → client (decodePixels n i s).2 = no_client).
Proof.
  induction n as [| n IH]; intros i s; cbn [decodePixels].
  { split; [apply keeps_refl | discriminate]. }
  pose proof (readExactly_keeps 6 s) as K.
  destruct (readExactly 6 s) as [[ok entry] s1]. cbn [snd] in K.
  destruct ok; cbn [negb].
  - match goal with |- context [decodePixels n (i + 1) ?s4] =>
      destruct (IH (i + 1) s4) as [K4 Hstop]; split; [| exact Hstop];
      apply keeps_trans with s4; [| exact K4];
      apply keeps_trans with s1; [exact K | unfold keeps; auto]
    end.
  - split; [| reflexivity]. apply keeps_trans with s1; [exact K | unfold keeps; auto].
Qed.

Lemma decodeRuns_keeps n : ∀ i s,
  keeps s (decodeRuns n i s).2
  ∧ ((decodeRuns n i s).1 = false → client (decodeRuns n i s).2 = no_client).
Proof.
  induction n as [| n IH]; intros i s; cbn [decodeRuns].
  { split; [apply keeps_refl | discriminate]. }
  pose proof (readExactly_keeps 8 s) as K.
  destruct (readExactly 8 s) as [[ok entry] s1]. cbn [snd] in K.
  destruct ok; cbn [negb].
  - match goal with |- context [decodeRuns n (i + 1) ?s5] =>
      destruct (IH (i + 1) s5) as [K5 Hstop]; split; [| exact Hstop];
      apply keeps_trans with s5; [| exact K5];
      apply keeps_trans with s1; [exact K | unfold keeps; auto]
    end.
  - split; [| reflexivity]. apply keeps_trans with s1; [exact K | unfold keeps; auto].
Qed.

Lemma pixelBody_fatal fid count s :
  fatal (pixelBody fid count s).1 = true →
  keeps s (pixelBody fid count s).2 ∧ client (pixelBody fid count s).2 = no_client.
Proof.
  unfold pixelBody.
  pose proof (ensure_keeps count s) as K1.
  destruct (ensureUpdateBuffer count s) as [ok s1]. cbn [snd] in K1.
  destruct ok; cbn [negb].
  - destruct (decodePixels_keeps (Z.to_nat count) 0 s1) as [K2 Hstop].
    destruct (decodePixels (Z.to_nat count) 0 s1) as [ok2 s2]. cbn [fst snd] in *.
    destruct ok2; cbn [negb fst snd]; [discriminate |].
    intros _. split; [apply keeps_trans with s1; assumption | auto].
  - intros _. split; [| reflexivity].
    apply keeps_trans with s1; [exact K1 | unfold keeps; auto].
Qed.

Lemma runBody_fatal fid count s :
  fatal (runBody fid count s).1 = true →
  keeps s (runBody fid count s).2 ∧ client (runBody fid count s).2 = no_client.
Proof.
  unfold runBody.
  pose proof (ensure_keeps count s) as K1.
  destruct (ensureUpdateBuffer count s) as [ok s1]. cbn [snd] in K1.
  destruct ok; cbn [negb].
  - destruct (decodeRuns_keeps (Z.to_nat count) 0 s1) as [K2 Hstop].
    destruct (decodeRuns (Z.to_nat count) 0 s1) as [ok2 s2]. cbn [fst snd] in *.
    destruct ok2; cbn [negb fst snd]; [discriminate |].
    intros _. split; [apply keeps_trans with s1; assumption | auto].
  - intros _. split; [| reflexivity].
    apply keeps_trans with s1; [exact K1 | unfold keeps; auto].
Qed.

Lemma pixelFrame_fatal s :
  fatal (pixelFrame s).1 = true →
  keeps s (pixelFrame s).2 ∧ client (pixelFrame s).2 = no_client.
Proof.
  unfold pixelFrame.
  pose proof (readExactly_keeps (Z.to_nat (HEADER_SIZE - 4)) s) as K.
  destruct (readExactly (Z.to_nat (HEADER_SIZE - 4)) s) as [[ok rest] s1]. cbn [snd] in K.
  destruct ok; cbn [negb].
  2:{ intros _. split; [| reflexivity]. apply keeps_trans with s1; [exact K | unfold keeps; auto]. }
  destruct (negb (byte_at rest 0 =? PROTO_VERSION)).
  { intros _. split; [| reflexivity]. apply keeps_trans with s1; [exact K | unfold keeps; auto]. }
  destruct (le16 (byte_at rest 5) (byte_at rest 6) =? 0); [discriminate |].
  destruct (_ <? _).
  { intros _. split; [| reflexivity]. apply keeps_trans with s1; [exact K | unfold keeps; auto]. }
  intros Hf. destruct (pixelBody_fatal _ _ _ Hf) as [K2 Hc].
  split; [apply keeps_trans with s1; assumption | exact Hc].
Qed.

Lemma runFrame_fatal s :
  fatal (runFrame s).1 = true →
  keeps s (runFrame s).2 ∧ client (runFrame s).2 = no_client.
Proof.
  unfold runFrame.
  pose proof (readExactly_keeps (Z.to_nat (RUN_HEADER_SIZE - 4)) s) as K.
  destruct (readExactly (Z.to_nat (RUN_HEADER_SIZE - 4)) s) as [[ok rest] s1]. cbn [snd] in K.
  destruct ok; cbn [negb].
  2:{ intros _. split; [| reflexivity]. apply keeps_trans with s1; [exact K | unfold keeps; auto]. }
  destruct (negb (byte_at rest 0 =? RUN_VERSION)).
  { intros _. split; [| reflexivity]. apply keeps_trans with s1; [exact K | unfold keeps; auto]. }
  destruct (le16 (byte_at rest 5) (byte_at rest 6) =? 0); [discriminate |].
  destruct (_ <? _).
  { intros _. split; [| reflexivity]. apply keeps_trans with s1; [exact K | unfold keeps; auto]. }
  intros Hf. destruct (runBody_fatal _ _ _ Hf) as [K2 Hc].
  split; [apply keeps_trans with s1; assumption | exact Hc].
Qed.

(** Every connection-fatal return of [handleClient] has stopped the client
    and has written nothing to the display or to the statistics. *)
Lemma serve_fatal s :
  fatal (serveClient s).1 = true →
  keeps s (serveClient s).2 ∧ client (serveClient s).2 = no_client.
Proof.
  unfold serveClient.
  destruct (negb (client_bool (client s)) || negb (connected (client s))); [discriminate |].
  destruct (available (client s) <? 11); [discriminate |].
  pose proof (readExactly_keeps 4 s) as K.
  destruct (readExactly 4 s) as [[ok magicBuf] s1]. cbn [snd] in K.
  destruct ok; cbn [negb].
  2:{ intros _. split; [| reflexivity]. apply keeps_trans with s1; [exact K | unfold keeps; auto]. }
  destruct (negb (memcmp_eq magicBuf MAGIC_RUN 4) && negb (memcmp_eq magicBuf MAGIC 4)).
  { intros _. split; [| reflexivity]. apply keeps_trans with s1; [exact K | unfold keeps; auto]. }
  destruct (memcmp_eq magicBuf MAGIC 4); intros Hf.
  - destruct (pixelFrame_fatal _ Hf) as [K2 Hc].
    split; [apply keeps_trans with s1; assumption | exact Hc].
  - destruct (runFrame_fatal _ Hf) as [K2 Hc].
    split; [apply keeps_trans with s1; assumption | exact Hc].
Qed.

(** ** The count check *)

Lemma pixelBody_not_too_large fid count s : (pixelBody fid count s).1 ≠ CountTooLarge.
Proof.
  unfold pixelBody. destruct (ensureUpdateBuffer count s) as [[] s1]; cbn [negb fst];
    [| discriminate].
  destruct (decodePixels (Z.to_nat count) 0 s1) as [[] s2]; discriminate.
Qed.

Lemma runBody_not_too_large fid count s : (runBody fid count s).1 ≠ CountTooLarge.
Proof.
  unfold runBody. destruct (ensureUpdateBuffer count s) as [[] s1]; cbn [negb fst];
    [| discriminate].
  destruct (decodeRuns (Z.to_nat count) 0 s1) as [[] s2]; discriminate.
Qed.

(** A 16-bit count cannot exceed a surface of 65536 pixels or more. *)
Lemma serve_not_too_large s :
  65536 <= width (display s) * height (display s) →
  (serveClient s).1 ≠ CountTooLarge.
Proof.
  intros Harea. unfold serveClient.
  destruct (negb (client_bool (client s)) || negb (connected (client s))); [discriminate |].
  destruct (available (client s) <? 11); [discriminate |].
  pose proof (readExactly_keeps 4 s) as (Hd1 & _).
  destruct (readExactly 4 s) as [[ok magicBuf] s1]. cbn [snd] in Hd1.
  destruct ok; cbn [negb]; [| discriminate].
  destruct (negb (memcmp_eq magicBuf MAGIC_RUN 4) && negb (memcmp_eq magicBuf MAGIC 4));
    [discriminate |].
  destruct (memcmp_eq magicBuf MAGIC 4).
  - unfold pixelFrame.
    pose proof (readExactly_keeps (Z.to_nat (HEADER_SIZE - 4)) s1) as (Hd2 & _).
    destruct (readExactly (Z.to_nat (HEADER_SIZE - 4)) s1) as [[ok rest] s2]. cbn [snd] in Hd2.
    destruct ok; cbn [negb]; [| discriminate].
    destruct (negb (byte_at rest 0 =? PROTO_VERSION)); [discriminate |].
    destruct (_ =? 0); [discriminate |].
    rewrite Hd2, Hd1.
    pose proof (le16_range (byte_at rest 5) (byte_at rest 6)).
    replace (_ <? _) with false by (symmetry; apply Z.ltb_ge; lia).
    apply pixelBody_not_too_large.
  - unfold runFrame.
    pose proof (readExactly_keeps (Z.to_nat (RUN_HEADER_SIZE - 4)) s1) as (Hd2 & _).
    destruct (readExactly (Z.to_nat (RUN_HEADER_SIZE - 4)) s1) as [[ok rest] s2]. cbn [snd] in Hd2.
    destruct ok; cbn [negb]; [| discriminate].
    destruct (negb (byte_at rest 0 =? RUN_VERSION)); [discriminate |].
    destruct (_ =? 0); [discriminate |].
    rewrite Hd2, Hd1.
    pose proof (le16_range (byte_at rest 5) (byte_at rest 6)).
    replace (_ <? _) with false by (symmetry; apply Z.ltb_ge; lia).
    apply runBody_not_too_large.
Qed.

(** ** The accept *)

Lemma accept_dims s :
  width (display (acceptClient s)) = width (display s)
  ∧ height (display (acceptClient s)) = height (display s).
Proof.
  unfold acceptClient, server_available.
  destruct (negb (client_bool (client s)) || negb (connected (client s))); [| auto].
  destruct (server s) as [| c rest]; cbn zeta; st_simpl;
    match goal with |- context [if ?b then _ else _] => destruct b end; auto.
Qed.

Lemma accept_connected s : connected (client s) = true → acceptClient s = s.
Proof. unfold acceptClient, client_bool. intros ->. reflexivity. Qed.

Lemma accept_new s c rest :
  connected (client s) = false → server s = c :: rest → connected c = true →
  acceptClient s =
    draw (FillScreen Black)
      (set_updatesApplied 0
         (set_frameCount 0
            (Serial_println (Text "Client connected") (set_client c (set_server rest s))))).
Proof.
  intros Hold Hsrv Hnew. unfold acceptClient, client_bool, server_available.
  rewrite Hold, Hsrv. cbn [negb orb]. st_simpl. rewrite Hnew. reflexivity.
Qed.

Lemma accept_state_ok s : state_ok s = true → state_ok (acceptClient s) = true.
Proof.
  intros Hok. unfold acceptClient, server_available.
  destruct (negb (client_bool (client s)) || negb (connected (client s))); [| exact Hok].
  destruct (state_ok_fields s Hok) as [Hb _].
  destruct (server s) as [| c rest]; cbn zeta; st_simpl;
    match goal with |- context [if ?b then _ else _] => destruct b end;
    try exact Hok; unfold state_ok; apply andb_true_iff; split; try reflexivity;
    apply andb_true_iff; split; try reflexivity; exact Hb.
Qed.

(** ** The compositor's calls *)

Lemma run_op_pixels d e :
  op_pixels d (run_op e) = map (λ x, (x, re_y e)) (span (re_x0 e) (re_length e)).
Proof.
  unfold run_op, op_pixels, span. change (Z.to_nat 1) with 1%nat. cbn [seq map].
  rewrite bind_cons. change ([] ≫= _) with (@nil (Z * Z)). rewrite app_nil_r, Z.add_0_r.
  induction (map _ (seq 0 (Z.to_nat (re_length e)))) as [| x xs IH]; [reflexivity |].
  rewrite bind_cons, IH. reflexivity.
Qed.

Lemma span_length start len : length (span start len) = Z.to_nat len.
Proof. unfold span. rewrite length_map, length_seq. reflexivity. Qed.

Lemma handleClient_result s :
  handleClient s = (outcome_bool (handleClient_outcome s).1, (handleClient_outcome s).2).
Proof. unfold handleClient. destruct (handleClient_outcome s). reflexivity. Qed.

(** ** A body that stops short *)

Lemma readExactly_true len s :
  (0 < len)%nat → (readExactly len s).1.1 = true →
  attached (client s) = true ∧ (len ≤ length (stream (client s)))%nat.
Proof.
  intros Hlen Hok. split.
  - destruct (attached (client s)) eqn:Hatt; [reflexivity |].
    unfold readExactly, read_fuel in Hok.
    replace (2 * length (incoming (client s)) + 3)%nat
      with (S (2 * length (incoming (client s)) + 2)) in Hok by lia.
    cbn [readLoop] in Hok. unfold connected in Hok. rewrite Hatt in Hok.
    rewrite andb_false_r in Hok. cbn [fst length] in Hok.
    apply Nat.eqb_eq in Hok. lia.
  - destruct (Nat.le_gt_cases len (length (stream (client s)))) as [Hle | Hgt]; [exact Hle |].
    rewrite readExactly_short in Hok by exact Hgt. discriminate.
Qed.

Lemma decodePixels_short n : ∀ i s,
  Z.of_nat (length (stream (client s))) < 6 * Z.of_nat n →
  (decodePixels n i s).1 = false.
Proof.
  induction n as [| n IH]; intros i s Hshort; [lia |].
  cbn [decodePixels].
  destruct (readExactly 6 s) as [[ok entry] s1] eqn:E.
  destruct ok; cbn [negb]; [| reflexivity].
  destruct (readExactly_true 6 s) as [Hatt Hlen]; [lia | rewrite E; reflexivity |].
  destruct (readExactly_stream 6 s Hatt Hlen) as (c' & t' & E' & _ & Hs).
  rewrite E in E'. injection E' as _ ->.
  apply IH. unfold buf_update. st_simpl. rewrite Hs, length_drop. lia.
Qed.

Lemma decodeRuns_short n : ∀ i s,
  Z.of_nat (length (stream (client s))) < 8 * Z.of_nat n →
  (decodeRuns n i s).1 = false.
Proof.
  induction n as [| n IH]; intros i s Hshort; [lia |].
  cbn [decodeRuns].
  destruct (readExactly 8 s) as [[ok entry] s1] eqn:E.
  destruct ok; cbn [negb]; [| reflexivity].
  destruct (readExactly_true 8 s) as [Hatt Hlen]; [lia | rewrite E; reflexivity |].
  destruct (readExactly_stream 8 s Hatt Hlen) as (c' & t' & E' & _ & Hs).
  rewrite E in E'. injection E' as _ ->.
  apply IH. unfold buf_update. st_simpl. rewrite Hs, length_drop. lia.
Qed.

Lemma ensure_client n s : client (ensureUpdateBuffer n s).2 = client s.
Proof.
  destruct (fits n s) eqn:Hfit.
  - rewrite ensure_fits by exact Hfit. reflexivity.
  - destruct (ensure_grow n s Hfit) as [(_ & _ & h' & E & _) | (_ & h' & E & _)];
      rewrite E; reflexivity.
Qed.


(** ** The state invariant *)

Lemma evolves_refl s : evolves s s.
Proof. intros H. split; [exact H | lia]. Qed.

Lemma evolves_trans s1 s2 s3 : evolves s1 s2 → evolves s2 s3 → evolves s1 s3.
Proof.
  intros H12 H23 H1. destruct (H12 H1) as [H2 Hc2]. destruct (H23 H2) as [H3 Hc3].
  split; [exact H3 | lia].
Qed.

(** Steps that leave heap, buffer pointer, capacity and [updatesApplied]
    alone. *)
Ltac evolves_same := intros Hok; split; [exact Hok | apply Z.le_refl].

Lemma readExactly_evolves len s : evolves s (readExactly len s).2.
Proof.
  destruct (readExactly_shape len s) as (c' & t' & E). rewrite E. evolves_same.
Qed.

Lemma ensure_evolves n s : 0 <= n < 2 ^ 29 → evolves s (ensureUpdateBuffer n s).2.
Proof.
  intros Hn Hok. destruct (state_ok_fields s Hok) as [Hbuf Hua].
  destruct (fits n s) eqn:Hfit.
  { rewrite ensure_fits by exact Hfit. split; [exact Hok | apply Z.le_refl]. }
  destruct (ensure_grow n s Hfit) as [(_ & _ & h' & E & Hb & Hl) | (_ & h' & E & Hl & Hb)];
    rewrite E; cbn [snd].
  - split; [| apply Z.le_refl].
    unfold state_ok, buffer_ok in *. st_simpl. rewrite Hb, Hl. exact Hok.
  - cbn zeta in Hl, Hb.
    assert (Hlook : blocks h' !! S (last_addr (heap s))
                    = Some (fresh_block (u32 (n * sizeof_PixelUpdate)))).
    { rewrite Hb. destruct (is_null (updateBuffer s)) eqn:Hnull.
      - apply lookup_insert_eq.
      - destruct (buffer_ok_block s Hbuf Hnull) as (Hp & _).
        rewrite lookup_delete_ne by lia. apply lookup_insert_eq. }
    split.
    + unfold state_ok, buffer_ok. st_simpl.
      change (is_null (S (last_addr (heap s)))) with false. cbn match.
      rewrite Hlook, Hl, Nat.leb_refl, fresh_block_length, Z.eqb_refl by exact Hn.
      apply andb_true_iff; split; [apply andb_true_iff; split; [reflexivity |] |].
      * apply Z.leb_le. lia.
      * apply Z.ltb_lt. lia.
    + st_simpl. unfold fits in Hfit. unfold buffer_ok in Hbuf.
      destruct (is_null (updateBuffer s)).
      * apply Z.eqb_eq in Hbuf. lia.
      * rewrite andb_true_r in Hfit. apply Z.leb_gt in Hfit. lia.
Qed.

Lemma buf_update_evolves i f s : evolves s (buf_update i f s).
Proof.
  intros Hok. split; [| apply Z.le_refl].
  unfold state_ok, buffer_ok, buf_update in *. st_simpl.
  rewrite lookup_alter_eq.
  destruct (blocks (heap s) !! updateBuffer s) as [cells |]; cbn [fmap option_fmap option_map];
    [rewrite length_alter |]; exact Hok.
Qed.

Lemma decodePixels_evolves n : ∀ i s, evolves s (decodePixels n i s).2.
Proof.
  induction n as [| n IH]; intros i s; cbn [decodePixels]; [apply evolves_refl |].
  pose proof (readExactly_evolves 6 s) as K.
  destruct (readExactly 6 s) as [[ok entry] s1]. cbn [snd] in K.
  destruct ok; cbn [negb snd].
  - eapply evolves_trans; [exact K |].
    eapply evolves_trans; [| apply IH].
    eapply evolves_trans; [apply buf_update_evolves |].
    eapply evolves_trans; apply buf_update_evolves.
  - eapply evolves_trans; [exact K | evolves_same].
Qed.

Lemma decodeRuns_evolves n : ∀ i s, evolves s (decodeRuns n i s).2.
Proof.
  induction n as [| n IH]; intros i s; cbn [decodeRuns]; [apply evolves_refl |].
  pose proof (readExactly_evolves 8 s) as K.
  destruct (readExactly 8 s) as [[ok entry] s1]. cbn [snd] in K.
  destruct ok; cbn [negb snd].
  - eapply evolves_trans; [exact K |].
    eapply evolves_trans; [| apply IH].
    eapply evolves_trans; [apply buf_update_evolves |].
    eapply evolves_trans; [apply buf_update_evolves |].
    eapply evolves_trans; apply buf_update_evolves.
  - eapply evolves_trans; [exact K | evolves_same].
Qed.

Lemma counted_evolves v s :
  evolves s (set_updatesApplied (u32 v) s).
Proof.
  intros Hok. destruct (state_ok_fields s Hok) as [Hbuf _]. split; [| apply Z.le_refl].
  pose proof (u32_range v).
  unfold state_ok. st_simpl.
  apply andb_true_iff; split; [apply andb_true_iff; split; [exact Hbuf |] |].
  - apply Z.leb_le. lia.
  - apply Z.ltb_lt. lia.
Qed.

Lemma applyPixels_evolves n : ∀ i s, evolves s (applyPixels n i s).
Proof.
  induction n as [| n IH]; intros i s; cbn [applyPixels]; [apply evolves_refl |].
  eapply evolves_trans; [| apply IH].
  destruct (_ && _); [| apply evolves_refl].
  eapply evolves_trans; [| apply counted_evolves]. evolves_same.
Qed.

Lemma applyRuns_evolves n : ∀ i s, evolves s (applyRuns n i s).
Proof.
  induction n as [| n IH]; intros i s; cbn [applyRuns]; [apply evolves_refl |].
  eapply evolves_trans; [| apply IH].
  destruct (_ && _); [| apply evolves_refl].
  eapply evolves_trans; [| apply counted_evolves]. evolves_same.
Qed.

Lemma finishFrame_evolves f s : evolves s (finishFrame f s).
Proof. unfold finishFrame. destruct (2000 <? _); evolves_same. Qed.

Lemma pixelBody_evolves fid count s :
  0 <= count < 65536 → evolves s (pixelBody fid count s).2.
Proof.
  intros Hc. unfold pixelBody.
  assert (Hn : 0 <= count < 2 ^ 29) by lia.
  pose proof (ensure_evolves count s Hn) as K1.
  destruct (ensureUpdateBuffer count s) as [ok s1]. cbn [snd] in K1.
  destruct ok; cbn [negb].
  - pose proof (decodePixels_evolves (Z.to_nat count) 0 s1) as K2.
    destruct (decodePixels (Z.to_nat count) 0 s1) as [ok2 s2]. cbn [snd] in K2.
    eapply evolves_trans; [exact K1 |]. eapply evolves_trans; [exact K2 |].
    destruct ok2; cbn [negb snd]; [| apply evolves_refl].
    eapply evolves_trans; [apply applyPixels_evolves | apply finishFrame_evolves].
  - eapply evolves_trans; [exact K1 | evolves_same].
Qed.

Lemma runBody_evolves fid count s :
  0 <= count < 65536 → evolves s (runBody fid count s).2.
Proof.
  intros Hc. unfold runBody.
  assert (Hn : 0 <= count < 2 ^ 29) by lia.
  pose proof (ensure_evolves count s Hn) as K1.
  destruct (ensureUpdateBuffer count s) as [ok s1]. cbn [snd] in K1.
  destruct ok; cbn [negb].
  - pose proof (decodeRuns_evolves (Z.to_nat count) 0 s1) as K2.
    destruct (decodeRuns (Z.to_nat count) 0 s1) as [ok2 s2]. cbn [snd] in K2.
    eapply evolves_trans; [exact K1 |]. eapply evolves_trans; [exact K2 |].
    destruct ok2; cbn [negb snd]; [| apply evolves_refl].
    eapply evolves_trans; [apply applyRuns_evolves | apply finishFrame_evolves].
  - eapply evolves_trans; [exact K1 | evolves_same].
Qed.

Lemma pixelFrame_evolves s : evolves s (pixelFrame s).2.
Proof.
  unfold pixelFrame.
  pose proof (readExactly_evolves (Z.to_nat (HEADER_SIZE - 4)) s) as K.
  destruct (readExactly (Z.to_nat (HEADER_SIZE - 4)) s) as [[ok rest] s1]. cbn [snd] in K.
  eapply evolves_trans; [exact K |].
  destruct ok; cbn [negb]; [| evolves_same].
  destruct (negb (byte_at rest 0 =? PROTO_VERSION)); [evolves_same |].
  destruct (_ =? 0); [evolves_same |].
  destruct (_ <? _); [evolves_same |].
  apply pixelBody_evolves, le16_range.
Qed.

Lemma runFrame_evolves s : evolves s (runFrame s).2.
Proof.
  unfold runFrame.
  pose proof (readExactly_evolves (Z.to_nat (RUN_HEADER_SIZE - 4)) s) as K.
  destruct (readExactly (Z.to_nat (RUN_HEADER_SIZE - 4)) s) as [[ok rest] s1]. cbn [snd] in K.
  eapply evolves_trans; [exact K |].
  destruct ok; cbn [negb]; [| evolves_same].
  destruct (negb (byte_at rest 0 =? RUN_VERSION)); [evolves_same |].
  destruct (_ =? 0); [evolves_same |].
  destruct (_ <? _); [evolves_same |].
  apply runBody_evolves, le16_range.
Qed.

Lemma serve_evolves s : evolves s (serveClient s).2.
Proof.
  unfold serveClient.
  destruct (negb (client_bool (client s)) || negb (connected (client s)));
    [apply evolves_refl |].
  destruct (available (client s) <? 11); [apply evolves_refl |].
  pose proof (readExactly_evolves 4 s) as K.
  destruct (readExactly 4 s) as [[ok magicBuf] s1]. cbn [snd] in K.
  eapply evolves_trans; [exact K |].
  destruct ok; cbn [negb]; [| evolves_same].
  destruct (negb (memcmp_eq magicBuf MAGIC_RUN 4) && negb (memcmp_eq magicBuf MAGIC 4));
    [evolves_same |].
  destruct (memcmp_eq magicBuf MAGIC 4); [apply pixelFrame_evolves | apply runFrame_evolves].
Qed.

Lemma accept_evolves s : evolves s (acceptClient s).
Proof.
  intros Hok. split; [apply accept_state_ok, Hok |].
  unfold acceptClient, server_available.
  destruct (negb (client_bool (client s)) || negb (connected (client s))); [| apply Z.le_refl].
  destruct (server s) as [| c rest]; cbn zeta; st_simpl;
    match goal with |- context [if ?b then _ else _] => destruct b end; apply Z.le_refl.
Qed.

(** Every call of [handleClient] keeps the state invariant, and the buffer
    capacity never decreases from one call to the next; the invariant holds
    at power-on. *)
Lemma handleClient_evolves s : evolves s (handleClient s).2.
Proof.
  rewrite handleClient_result. cbn [snd]. unfold handleClient_outcome.
  eapply evolves_trans; [apply accept_evolves | apply serve_evolves].
Qed.

Lemma power_on_ok pending d h : state_ok (power_on pending d h) = true.
Proof. reflexivity. Qed.

(** ** A fresh session *)

Lemma filter_replicate_true {A} (f : A → bool) n x :
  f x = true → List.filter f (replicate n x) = replicate n x.
Proof.
  intros Hf. induction n as [| n IH]; [reflexivity |].
  cbn [replicate List.filter]. rewrite Hf, IH. reflexivity.
Qed.

(** The first frame of a fresh session on the 280x240 surface. *)
Lemma pixel_session_applied fid es :
  0 <= fid < 4294967296 →
  Forall (λ e, pixel_wf e = true) es →
  0 < Z.of_nat (length es) < 65536 →
  parse_header (client (acceptClient (pixel_session_of fid es)))
    = Some (PixelKind, fid, Z.of_nat (length es), [])
  ∧ (handleClient_outcome (pixel_session_of fid es)).1 = AppliedFrame
  ∧ frame_applied (acceptClient (pixel_session_of fid es))
      (handleClient_outcome (pixel_session_of fid es)).2 fid
      (map pixel_op (List.filter (pixel_in_bounds lilka_display) es))
      (Z.of_nat (length (List.filter (pixel_in_bounds lilka_display) es))) [].
Proof.
  intros Hfid Hwf Hcount.
  assert (Hrx : rx (client (acceptClient (pixel_session_of fid es)))
                = header PixelKind fid (Z.of_nat (length es)) ++ []).
  { rewrite app_nil_r. reflexivity. }
  split; [apply header_parses; [reflexivity | exact Hrx | lia | lia] |].
  apply (pixel_frame_applied (pixel_session_of fid es) fid es [] []).
  - reflexivity.
  - exact Hrx.
  - reflexivity.
  - exact Hfid.
  - exact Hwf.
  - exact Hcount.
  - change (width (display (acceptClient (pixel_session_of fid es)))) with 280.
    change (height (display (acceptClient (pixel_session_of fid es)))) with 240. lia.
  - reflexivity.
  - unfold ensureUpdateBuffer.
    change (bufferCapacity (acceptClient (pixel_session_of fid es))) with 0.
    replace (Z.of_nat (length es) <=? 0) with false by (symmetry; apply Z.leb_gt; lia).
    reflexivity.
Qed.

(** ** The scenarios of the specification, run on the model *)

Example scenario_A :
  handleClient_outcome (pixel_session_of 7 [mkPixel 0 0 65535])
  = (AppliedFrame,
     mkState [] (mkClient true [] [[]])
       (mkDisplay 280 240 [FillScreen 0; DrawPixel 0 0 65535])
       (mkHeap [true; true; true] [true; true] {[ 1%nat := [mkUpdate 0 0 0 65535] ]} 1)
       [Text "Client connected"; Newline] 1 1 0 1 7 1%nat 1).
Proof. vm_compute. reflexivity. Qed.

Example scenario_A_trickling :
  (handleClient trickle_session).1 = true
  ∧ ops (display (handleClient trickle_session).2) = [FillScreen 0; DrawPixel 0 0 65535]
  ∧ updatesApplied (handleClient trickle_session).2 = 1
  ∧ uptime (handleClient trickle_session).2 = 6.
Proof. vm_compute. repeat split. Qed.

Example scenarios_B_and_C :
  (handleClient run_session).1 = true
  ∧ ops (display (handleClient run_session).2)
    = [FillScreen 0; FillRect 5 10 20 1 2016; FillRect 0 239 280 1 31]
  ∧ frameCount (handleClient run_session).2 = 1
  ∧ updatesApplied (handleClient run_session).2 = 300
  ∧ lastFrameId (handleClient run_session).2 = 9.
Proof. vm_compute. repeat split. Qed.

Example scenario_D :
  (handleClient_outcome bad_magic_session).1 = BadMagic
  ∧ (handleClient bad_magic_session).1 = false
  ∧ client (handleClient bad_magic_session).2 = no_client
  ∧ frameCount (handleClient bad_magic_session).2 = 0
  ∧ ops (display (handleClient bad_magic_session).2) = [FillScreen 0].
Proof. vm_compute. repeat split. Qed.

Example cut_session_is_truncated :
  (handleClient_outcome cut_session).1 = Truncated
  ∧ ops (display (handleClient cut_session).2) = [FillScreen 0]
  ∧ updatesApplied (handleClient cut_session).2 = 0.
Proof. vm_compute. repeat split. Qed.

(** * The properties of the specification *)

(** C1. A pixel frame whose count is at most width x height, once decoded,
    is applied in one batch: the display receives one [drawPixel] for each
    entry with [x < width] and [y < height], in order and nothing else, and
    [updatesApplied] grows by one per such entry; entries out of bounds cause
    no call and no count, and the entries after them are still applied. *)
Theorem pixel_frame_entries_applied_once s fid es tail rest :
  attached (client (acceptClient s)) = true →
  rx (client (acceptClient s)) = header PixelKind fid (Z.of_nat (length es)) ++ tail →
  tail ++ concat (incoming (client (acceptClient s))) = concat (map enc_pixel es) ++ rest →
  0 <= fid < 4294967296 →
  Forall (λ e, pixel_wf e = true) es →
  0 < Z.of_nat (length es) < 65536 →
  Z.of_nat (length es) <= width (display (acceptClient s)) * height (display (acceptClient s)) →
  state_ok s = true →
  (ensureUpdateBuffer (Z.of_nat (length es)) (acceptClient s)).1 = true →
  (handleClient s).1 = true
  ∧ (handleClient_outcome s).1 = AppliedFrame
  ∧ frame_applied (acceptClient s) (handleClient_outcome s).2 fid
      (map pixel_op (List.filter (pixel_in_bounds (display (acceptClient s))) es))
      (Z.of_nat (length (List.filter (pixel_in_bounds (display (acceptClient s))) es))) rest.
Proof.
  intros Hatt Hrx Hbody Hfid Hwf Hcount Hfit Hok Hens.
  destruct (pixel_frame_applied s fid es tail rest) as [Ho Hf];
    try assumption; [apply accept_state_ok, Hok |].
  rewrite handleClient_result, Ho. auto.
Qed.

Lemma pixel_frame_entries_applied_once_witness :
  (handleClient pixel_session).1 = true
  ∧ (handleClient_outcome pixel_session).1 = AppliedFrame
  ∧ frame_applied (acceptClient pixel_session) (handleClient_outcome pixel_session).2 7
      [DrawPixel 0 0 65535; DrawPixel 279 239 2016] 2 [].
Proof.
  apply (pixel_frame_entries_applied_once pixel_session 7 sample_pixels [] []).
  - reflexivity.
  - reflexivity.
  - reflexivity.
  - lia.
  - repeat constructor.
  - simpl. lia.
  - vm_compute. discriminate.
  - reflexivity.
  - reflexivity.
Defined.

(** C2. A run frame, once decoded, is applied run by run, each in full or
    not at all: the display receives one [fillRect(x0, y, length, 1)] for
    each run with [y < height], [length > 0] and [x0 + length <= width],
    which covers exactly the [length] pixels of row [y] from [x0] on, and
    [updatesApplied] grows by that [length]; any other run causes no call
    and no count. *)
Theorem run_frame_all_or_nothing s fid es tail rest :
  attached (client (acceptClient s)) = true →
  rx (client (acceptClient s)) = header RunKind fid (Z.of_nat (length es)) ++ tail →
  tail ++ concat (incoming (client (acceptClient s))) = concat (map enc_run es) ++ rest →
  0 <= fid < 4294967296 →
  Forall (λ e, run_wf e = true) es →
  0 < Z.of_nat (length es) < 65536 →
  Z.of_nat (length es) <= width (display (acceptClient s)) * height (display (acceptClient s)) →
  state_ok s = true →
  (ensureUpdateBuffer (Z.of_nat (length es)) (acceptClient s)).1 = true →
  (handleClient s).1 = true
  ∧ (handleClient_outcome s).1 = AppliedFrame
  ∧ frame_applied (acceptClient s) (handleClient_outcome s).2 fid
      (map run_op (List.filter (run_applies (display (acceptClient s))) es))
      (total_length (List.filter (run_applies (display (acceptClient s))) es)) rest
  ∧ (∀ e, op_pixels (display (acceptClient s)) (run_op e)
          = map (λ x, (x, re_y e)) (span (re_x0 e) (re_length e))
          ∧ length (op_pixels (display (acceptClient s)) (run_op e)) = Z.to_nat (re_length e)).
Proof.
  intros Hatt Hrx Hbody Hfid Hwf Hcount Hfit Hok Hens.
  destruct (run_frame_applied s fid es tail rest) as [Ho Hf];
    try assumption; [apply accept_state_ok, Hok |].
  rewrite handleClient_result, Ho.
  split; [reflexivity |]. split; [reflexivity |]. split; [exact Hf |].
  intros e. split.
  - apply run_op_pixels.
  - rewrite run_op_pixels, length_map. apply span_length.
Qed.

Lemma run_frame_all_or_nothing_witness :
  (handleClient run_session).1 = true
  ∧ (handleClient_outcome run_session).1 = AppliedFrame
  ∧ frame_applied (acceptClient run_session) (handleClient_outcome run_session).2 9
      [FillRect 5 10 20 1 2016; FillRect 0 239 280 1 31] 300 []
  ∧ (∀ e, op_pixels (display (acceptClient run_session)) (run_op e)
          = map (λ x, (x, re_y e)) (span (re_x0 e) (re_length e))
          ∧ length (op_pixels (display (acceptClient run_session)) (run_op e))
            = Z.to_nat (re_length e)).
Proof.
  apply (run_frame_all_or_nothing run_session 9 sample_runs [] []).
  - reflexivity.
  - reflexivity.
  - reflexivity.
  - lia.
  - repeat constructor.
  - simpl. lia.
  - vm_compute. discriminate.
  - reflexivity.
  - reflexivity.
Defined.




(** C4. A frame of either kind whose parsed count exceeds width x height
    is rejected as [CountTooLarge]: [handleClient] returns [false] with the
    client stopped, and the display, [frameCount], [lastFrameId] and
    [updatesApplied] are untouched. *)
Theorem count_too_large_is_fatal s k fid count tail :
  parse_header (client (acceptClient s)) = Some (k, fid, count, tail) →
  0 <= width (display (acceptClient s)) * height (display (acceptClient s)) < count →
  (handleClient_outcome s).1 = CountTooLarge
  ∧ (handleClient s).1 = false
  ∧ client (handleClient_outcome s).2 = no_client
  ∧ keeps (acceptClient s) (handleClient_outcome s).2.
Proof.
  intros Hp Harea. rewrite handleClient_result. unfold handleClient_outcome.
  rewrite (serve_header _ _ _ _ _ Hp).
  replace (count =? 0) with false by (symmetry; apply Z.eqb_neq; lia).
  replace (_ <? count) with true by (symmetry; apply Z.ltb_lt; lia).
  cbn [fst snd outcome_bool]. unfold keeps. repeat split.
Qed.

Lemma count_too_large_is_fatal_witness :
  (handleClient_outcome small_surface_session).1 = CountTooLarge
  ∧ (handleClient small_surface_session).1 = false
  ∧ client (handleClient_outcome small_surface_session).2 = no_client
  ∧ keeps (acceptClient small_surface_session) (handleClient_outcome small_surface_session).2.
Proof.
  apply (count_too_large_is_fatal small_surface_session RunKind 3 20000 []).
  - reflexivity.
  - vm_compute. split; [discriminate | reflexivity].
Defined.

(** C5, amended. A pixel frame with [entryCount = 50000] on the 280x240
    surface is not rejected: 50000 is below 67200, so the frame passes the
    count check and goes on to buffer allocation and body decoding. *)
Theorem scenario_E_passes_count_check s fid tail :
  width (display (acceptClient s)) = 280 →
  height (display (acceptClient s)) = 240 →
  parse_header (client (acceptClient s)) = Some (PixelKind, fid, 50000, tail) →
  handleClient_outcome s = pixelBody fid 50000 (past_header tail (acceptClient s))
  ∧ (handleClient_outcome s).1 ≠ CountTooLarge.
Proof.
  intros Hw Hh Hp.
  assert (E : handleClient_outcome s = pixelBody fid 50000 (past_header tail (acceptClient s))).
  { unfold handleClient_outcome. rewrite (serve_header _ _ _ _ _ Hp), Hw, Hh. reflexivity. }
  split; [exact E |]. rewrite E. apply pixelBody_not_too_large.
Qed.

Lemma scenario_E_passes_count_check_witness :
  handleClient_outcome scenario_E_header_only
  = pixelBody 7 50000 (past_header [] (acceptClient scenario_E_header_only))
  ∧ (handleClient_outcome scenario_E_header_only).1 ≠ CountTooLarge.
Proof.
  apply (scenario_E_passes_count_check scenario_E_header_only 7 []); reflexivity.
Defined.

(** C5 as stated fails: the frame of scenario E announces 50000 entries,
    and with its body it is applied in full and the connection is kept. *)
Lemma scenario_E_is_applied :
  parse_header (client (acceptClient scenario_E)) = Some (PixelKind, 7, 50000, [])
  ∧ width (display scenario_E) * height (display scenario_E) = 67200
  ∧ (handleClient_outcome scenario_E).1 = AppliedFrame
  ∧ (handleClient scenario_E).1 = true
  ∧ attached (client (handleClient_outcome scenario_E).2) = true
  ∧ updatesApplied (handleClient_outcome scenario_E).2 = 50000.
Proof.
  assert (Hlen : Z.of_nat (length scenario_E_pixels) = 50000).
  { unfold scenario_E_pixels. rewrite length_replicate. apply Z2Nat.id. lia. }
  destruct (pixel_session_applied 7 scenario_E_pixels)
    as (Hp & Ho & _ & Hua & _ & _ & Hatt & _).
  - lia.
  - apply Forall_replicate. reflexivity.
  - rewrite Hlen. lia.
  - fold scenario_E in *. rewrite Hlen in Hp.
    split; [exact Hp |]. split; [reflexivity |].
    rewrite handleClient_result, Ho, Hua.
    split; [reflexivity |]. split; [reflexivity |]. split; [exact Hatt |].
    unfold scenario_E_pixels at 1.
    rewrite filter_replicate_true by reflexivity.
    rewrite length_replicate, Z2Nat.id by lia. reflexivity.
Qed.

(** C6, amended. When a connection is accepted, [frameCount] and
    [updatesApplied] are reset to zero before any frame of that connection
    is processed; [lastFrameId] is not reset and keeps its value until the
    next frame overwrites it. *)
Theorem accept_resets_counters s c rest :
  connected (client s) = false →
  server s = c :: rest →
  connected c = true →
  client (acceptClient s) = c
  ∧ frameCount (acceptClient s) = 0
  ∧ updatesApplied (acceptClient s) = 0
  ∧ lastFrameId (acceptClient s) = lastFrameId s
  ∧ handleClient_outcome s = serveClient (acceptClient s).
Proof.
  intros Hold Hsrv Hnew. unfold handleClient_outcome.
  rewrite (accept_new s c rest Hold Hsrv Hnew).
  repeat split.
Qed.

Lemma accept_resets_counters_witness :
  client (acceptClient after_first_peer) = mkClient true [] [[]; []]
  ∧ frameCount (acceptClient after_first_peer) = 0
  ∧ updatesApplied (acceptClient after_first_peer) = 0
  ∧ lastFrameId (acceptClient after_first_peer) = lastFrameId after_first_peer
  ∧ handleClient_outcome after_first_peer = serveClient (acceptClient after_first_peer).
Proof.
  apply (accept_resets_counters after_first_peer (mkClient true [] [[]; []]) []);
    vm_compute; reflexivity.
Defined.

(** C6 as stated fails: after a first connection whose last frame had
    id 7, the next connection is accepted with [frameCount] and
    [updatesApplied] back at zero and [lastFrameId] still 7. *)
Lemma lastFrameId_survives_reconnect :
  frameCount after_first_peer = 1
  ∧ updatesApplied after_first_peer = 1
  ∧ lastFrameId after_first_peer = 7
  ∧ connected (client after_first_peer) = false
  ∧ connected (client (handleClient after_first_peer).2) = true
  ∧ frameCount (handleClient after_first_peer).2 = 0
  ∧ updatesApplied (handleClient after_first_peer).2 = 0
  ∧ lastFrameId (handleClient after_first_peer).2 = 7.
Proof. vm_compute. repeat split. Qed.

(** C7. When [ensureUpdateBuffer] has to allocate and both [ps_malloc] and
    [malloc] report no memory, it returns [false] and leaves the buffer
    pointer, the capacity and every live block as they were: the old buffer
    is not released. *)
Theorem ensureUpdateBuffer_failure_keeps_buffer n s :
  fits n s = false →
  ps_fails (heap s) = true →
  ram_fails (heap s) = true →
  (ensureUpdateBuffer n s).1 = false
  ∧ updateBuffer (ensureUpdateBuffer n s).2 = updateBuffer s
  ∧ bufferCapacity (ensureUpdateBuffer n s).2 = bufferCapacity s
  ∧ blocks (heap (ensureUpdateBuffer n s).2) = blocks (heap s).
Proof.
  intros Hfit Hps Hram.
  destruct (ensure_grow n s Hfit) as [(_ & _ & h' & E & Hb & _) | ([Hno | Hno] & _)].
  - rewrite E. cbn. auto.
  - congruence.
  - congruence.
Qed.

Lemma ensureUpdateBuffer_failure_keeps_buffer_witness :
  (ensureUpdateBuffer 10 holding_four).1 = false
  ∧ updateBuffer (ensureUpdateBuffer 10 holding_four).2 = updateBuffer holding_four
  ∧ bufferCapacity (ensureUpdateBuffer 10 holding_four).2 = bufferCapacity holding_four
  ∧ blocks (heap (ensureUpdateBuffer 10 holding_four).2) = blocks (heap holding_four).
Proof.
  apply (ensureUpdateBuffer_failure_keeps_buffer 10 holding_four); vm_compute; reflexivity.
Defined.

(** C8, amended. Start from a state where an unallocated buffer has
    capacity 0, as at start-up, and take any sequence of
    [ensureUpdateBuffer] calls: [ns], then a call with [n], then [ms]. The
    call with [n] does not lower the capacity it finds, and no later call
    lowers the capacity it leaves; after it an unallocated buffer still has
    capacity 0. If [n <= bufferCapacity] while a buffer is held the call
    changes nothing and returns [true]; if it allocates successfully it sets
    the capacity to [n], which is at least the previous capacity and
    strictly more when a buffer was already held; if it fails the capacity
    is the one it found. *)
Theorem capacity_never_shrinks ns n ms s :
  null_is_empty s = true →
  Forall (λ m, 0 <= m) ns →
  0 <= n →
  Forall (λ m, 0 <= m) ms →
  bufferCapacity s <= bufferCapacity (ensure_seq ns s)
  ∧ bufferCapacity (ensure_seq ns s)
    <= bufferCapacity (ensureUpdateBuffer n (ensure_seq ns s)).2
  ∧ bufferCapacity (ensureUpdateBuffer n (ensure_seq ns s)).2
    <= bufferCapacity (ensure_seq ms (ensureUpdateBuffer n (ensure_seq ns s)).2)
  ∧ null_is_empty (ensureUpdateBuffer n (ensure_seq ns s)).2 = true
  ∧ (n <= bufferCapacity (ensure_seq ns s) →
     is_null (updateBuffer (ensure_seq ns s)) = false →
     ensureUpdateBuffer n (ensure_seq ns s) = (true, ensure_seq ns s))
  ∧ (fits n (ensure_seq ns s) = false →
     (ensureUpdateBuffer n (ensure_seq ns s)).1 = true →
     bufferCapacity (ensureUpdateBuffer n (ensure_seq ns s)).2 = n
     ∧ bufferCapacity (ensure_seq ns s) <= n
     ∧ (is_null (updateBuffer (ensure_seq ns s)) = false →
        bufferCapacity (ensure_seq ns s) < n))
  ∧ ((ensureUpdateBuffer n (ensure_seq ns s)).1 = false →
     bufferCapacity (ensureUpdateBuffer n (ensure_seq ns s)).2
     = bufferCapacity (ensure_seq ns s)).
Proof.
  intros Hinv0 Hns Hn Hms.
  pose proof (ensure_seq_null_is_empty ns s Hinv0 Hns) as Hinv.
  set (s1 := ensure_seq ns s) in *.
  destruct (ensure_capacity_step n s1 Hinv Hn) as [Hstep Hinv'].
  split; [apply ensure_seq_monotone; assumption |].
  split; [exact Hstep |].
  split; [apply ensure_seq_monotone; assumption |].
  split; [exact Hinv' |].
  split; [| split].
  - intros Hle Hheld. apply ensure_fits. unfold fits. rewrite Hheld.
    apply andb_true_iff. split; [apply Z.leb_le; exact Hle | reflexivity].
  - intros Hfit Hok.
    destruct (ensure_grow n s1 Hfit) as [(_ & _ & h' & E & _) | (_ & h' & E & _)];
      rewrite E in *; cbn in Hok |- *; [discriminate |].
    unfold fits in Hfit. unfold null_is_empty in Hinv.
    destruct (is_null (updateBuffer s1)).
    + apply Z.eqb_eq in Hinv. repeat split; [lia | discriminate].
    + rewrite andb_true_r in Hfit. apply Z.leb_gt in Hfit. repeat split; lia.
  - intros Hfail.
    destruct (fits n s1) eqn:Hfit.
    { rewrite ensure_fits in Hfail by exact Hfit. discriminate. }
    destruct (ensure_grow n s1 Hfit) as [(_ & _ & h' & E & _) | (_ & h' & E & _)];
      rewrite E in *; [reflexivity | discriminate].
Qed.

Lemma capacity_never_shrinks_witness :
  bufferCapacity nothing_held <= bufferCapacity (ensure_seq [4; 2] nothing_held)
  ∧ bufferCapacity (ensure_seq [4; 2] nothing_held)
    <= bufferCapacity (ensureUpdateBuffer 10 (ensure_seq [4; 2] nothing_held)).2
  ∧ bufferCapacity (ensureUpdateBuffer 10 (ensure_seq [4; 2] nothing_held)).2
    <= bufferCapacity
         (ensure_seq [3; 0; 20] (ensureUpdateBuffer 10 (ensure_seq [4; 2] nothing_held)).2)
  ∧ null_is_empty (ensureUpdateBuffer 10 (ensure_seq [4; 2] nothing_held)).2 = true
  ∧ (10 <= bufferCapacity (ensure_seq [4; 2] nothing_held) →
     is_null (updateBuffer (ensure_seq [4; 2] nothing_held)) = false →
     ensureUpdateBuffer 10 (ensure_seq [4; 2] nothing_held)
     = (true, ensure_seq [4; 2] nothing_held))
  ∧ (fits 10 (ensure_seq [4; 2] nothing_held) = false →
     (ensureUpdateBuffer 10 (ensure_seq [4; 2] nothing_held)).1 = true →
     bufferCapacity (ensureUpdateBuffer 10 (ensure_seq [4; 2] nothing_held)).2 = 10
     ∧ bufferCapacity (ensure_seq [4; 2] nothing_held) <= 10
     ∧ (is_null (updateBuffer (ensure_seq [4; 2] nothing_held)) = false →
        bufferCapacity (ensure_seq [4; 2] nothing_held) < 10))
  ∧ ((ensureUpdateBuffer 10 (ensure_seq [4; 2] nothing_held)).1 = false →
     bufferCapacity (ensureUpdateBuffer 10 (ensure_seq [4; 2] nothing_held)).2
     = bufferCapacity (ensure_seq [4; 2] nothing_held)).
Proof.
  apply (capacity_never_shrinks [4; 2] 10 [3; 0; 20] nothing_held).
  - reflexivity.
  - repeat constructor; lia.
  - lia.
  - repeat constructor; lia.
Defined.

(** C8 as stated fails for [n = 0] while no buffer is held: the call is
    not a no-op but an allocation, which fails when there is no memory, and
    which on success leaves the capacity at 0, not above it. *)
Lemma ensure_zero_is_not_a_noop :
  0 <= bufferCapacity nothing_held_no_memory
  ∧ (ensureUpdateBuffer 0 nothing_held_no_memory).1 = false
  ∧ 0 <= bufferCapacity nothing_held
  ∧ (ensureUpdateBuffer 0 nothing_held).1 = true
  ∧ updateBuffer (ensureUpdateBuffer 0 nothing_held).2 ≠ updateBuffer nothing_held
  ∧ bufferCapacity (ensureUpdateBuffer 0 nothing_held).2 = bufferCapacity nothing_held.
Proof. vm_compute. repeat split; discriminate. Qed.

(** C9. A frame of either kind whose parsed count is 0 is a valid empty
    frame: [handleClient] returns [true] with the client still attached,
    nothing is written to the display, the heap and the buffer are not
    touched, [frameCount] grows by one and [lastFrameId] becomes the
    frame's id. *)
Theorem empty_frame_counted s k fid tail :
  parse_header (client (acceptClient s)) = Some (k, fid, 0, tail) →
  handleClient s = (true, countFrame fid (past_header tail (acceptClient s)))
  ∧ (handleClient_outcome s).1 = EmptyFrame
  ∧ display (handleClient s).2 = display (acceptClient s)
  ∧ heap (handleClient s).2 = heap (acceptClient s)
  ∧ updateBuffer (handleClient s).2 = updateBuffer (acceptClient s)
  ∧ bufferCapacity (handleClient s).2 = bufferCapacity (acceptClient s)
  ∧ updatesApplied (handleClient s).2 = updatesApplied (acceptClient s)
  ∧ frameCount (handleClient s).2 = u32 (frameCount (acceptClient s) + 1)
  ∧ lastFrameId (handleClient s).2 = fid
  ∧ attached (client (handleClient s).2) = true.
Proof.
  intros Hp. rewrite handleClient_result. unfold handleClient_outcome.
  rewrite (serve_header _ _ _ _ _ Hp). cbn [Z.eqb fst snd outcome_bool].
  repeat split.
Qed.

Lemma empty_frame_counted_witness :
  handleClient empty_run_session
  = (true, countFrame 9 (past_header [1; 2; 3] (acceptClient empty_run_session)))
  ∧ (handleClient_outcome empty_run_session).1 = EmptyFrame
  ∧ display (handleClient empty_run_session).2 = display (acceptClient empty_run_session)
  ∧ heap (handleClient empty_run_session).2 = heap (acceptClient empty_run_session)
  ∧ updateBuffer (handleClient empty_run_session).2 = updateBuffer (acceptClient empty_run_session)
  ∧ bufferCapacity (handleClient empty_run_session).2
    = bufferCapacity (acceptClient empty_run_session)
  ∧ updatesApplied (handleClient empty_run_session).2
    = updatesApplied (acceptClient empty_run_session)
  ∧ frameCount (handleClient empty_run_session).2
    = u32 (frameCount (acceptClient empty_run_session) + 1)
  ∧ lastFrameId (handleClient empty_run_session).2 = 9
  ∧ attached (client (handleClient empty_run_session).2) = true.
Proof.
  apply (empty_frame_counted empty_run_session RunKind 9 [1; 2; 3]). reflexivity.
Defined.

(** C10, amended. On a surface of 65536 pixels or more (the 280x240 target
    has 67200) the [CountTooLarge] return is unreachable, because the count
    is a 16-bit field; every frame with a valid magic and version and a
    count of at least 1 goes on to buffer allocation and body decoding. A
    count of 0 ends the frame before the allocation. *)
Theorem count_check_unreachable_on_large_surface s :
  65536 <= width (display s) * height (display s) →
  (handleClient_outcome s).1 ≠ CountTooLarge
  ∧ (∀ k fid count tail,
       parse_header (client (acceptClient s)) = Some (k, fid, count, tail) →
       count ≠ 0 →
       handleClient_outcome s = frameBody k fid count (past_header tail (acceptClient s))).
Proof.
  intros Harea. destruct (accept_dims s) as [Hw Hh].
  unfold handleClient_outcome. split.
  - apply serve_not_too_large. rewrite Hw, Hh. exact Harea.
  - intros k fid count tail Hp Hnz.
    rewrite (serve_header _ _ _ _ _ Hp), Hw, Hh.
    pose proof (parse_header_count_range _ _ _ _ _ Hp).
    replace (count =? 0) with false by (symmetry; apply Z.eqb_neq; exact Hnz).
    replace (_ <? count) with false by (symmetry; apply Z.ltb_ge; lia).
    reflexivity.
Qed.

Lemma count_check_unreachable_on_large_surface_witness :
  (handleClient_outcome scenario_E_header_only).1 ≠ CountTooLarge
  ∧ (∀ k fid count tail,
       parse_header (client (acceptClient scenario_E_header_only)) = Some (k, fid, count, tail) →
       count ≠ 0 →
       handleClient_outcome scenario_E_header_only
       = frameBody k fid count (past_header tail (acceptClient scenario_E_header_only))).
Proof.
  apply (count_check_unreachable_on_large_surface scenario_E_header_only).
  vm_compute. discriminate.
Defined.

(** C10 as stated fails for a count of 0: on the 280x240 surface a valid
    pixel frame with no entries ends as an empty frame and the allocator is
    never asked, whereas the allocation path would have failed here. *)
Lemma empty_frame_skips_allocation :
  65536 <= width (display empty_frame_no_memory) * height (display empty_frame_no_memory)
  ∧ parse_header (client (acceptClient empty_frame_no_memory)) = Some (PixelKind, 5, 0, [])
  ∧ (handleClient_outcome empty_frame_no_memory).1 = EmptyFrame
  ∧ heap (handleClient_outcome empty_frame_no_memory).2 = heap empty_frame_no_memory
  ∧ (frameBody PixelKind 5 0 (past_header [] (acceptClient empty_frame_no_memory))).1
    = AllocationFailure.
Proof. vm_compute. repeat split; discriminate. Qed.

(** * Further properties of the code *)

(** ** readExactly *)

Lemma readLoop_attached fuel : ∀ len got s,
  attached (client (readLoop fuel len got s).2) = attached (client s).
Proof.
  induction fuel as [| fuel IH]; intros len got s; cbn [readLoop]; [reflexivity |].
  destruct ((length got <? len)%nat && connected (client s)); [| reflexivity].
  unfold client_read. destruct (attached (client s)) eqn:Hatt.
  - destruct (negb (is_nil _)).
    + rewrite IH. reflexivity.
    + rewrite IH. unfold delay1, client_tick. st_simpl.
      destruct (incoming (client s)); reflexivity.
  - cbn [is_nil negb]. rewrite IH. unfold delay1, client_tick. st_simpl.
    rewrite Hatt. destruct (incoming (client s)); exact Hatt.
Qed.

Lemma readExactly_zero s : readExactly 0 s = (true, [], s).
Proof.
  unfold readExactly, read_fuel.
  replace (2 * length (incoming (client s)) + 3)%nat
    with (S (2 * length (incoming (client s)) + 2)) by lia.
  reflexivity.
Qed.

(** The clock advances by one millisecond per segment waited for. *)
Lemma readLoop_time fuel : ∀ len got s,
  (length (incoming (client (readLoop fuel len got s).2)) ≤ length (incoming (client s)))%nat
  ∧ u32 (uptime (readLoop fuel len got s).2)
    = u32 (uptime s + Z.of_nat (length (incoming (client s))
                                 - length (incoming (client (readLoop fuel len got s).2)))).
Proof.
  induction fuel as [| fuel IH]; intros len got s; cbn [readLoop].
  { cbn [snd]. rewrite Nat.sub_diag, Z.add_0_r. auto. }
  destruct ((length got <? len)%nat && connected (client s)) eqn:Hgo.
  2:{ cbn [snd]. rewrite Nat.sub_diag, Z.add_0_r. auto. }
  apply andb_true_iff in Hgo as [Hlt Hconn]. apply Nat.ltb_lt in Hlt.
  unfold connected in Hconn. apply andb_true_iff in Hconn as [Hatt Hdata].
  unfold client_read. rewrite Hatt.
  destruct (negb (is_nil (take (len - length got) (rx (client s))))) eqn:Hchunk.
  - specialize (IH len (got ++ take (len - length got) (rx (client s)))
                  (set_client (mkClient true (drop (len - length got) (rx (client s)))
                                 (incoming (client s))) s)).
    st_simpl. exact IH.
  - assert (Hrx : rx (client s) = []).
    { destruct (rx (client s)); [reflexivity |].
      destruct (len - length got)%nat eqn:Hk; [lia | discriminate]. }
    rewrite Hrx in *. cbn [is_nil negb orb] in Hdata.
    destruct (incoming (client s)) as [| seg inc] eqn:Hinc; [discriminate |].
    specialize (IH len got
                  (delay1 (set_client (mkClient true (drop (len - length got) [])
                                         (seg :: inc)) s))).
    revert IH. unfold delay1, client_tick. st_simpl. intros [Hle Ht].
    cbn [length]. split; [lia |]. rewrite Ht, u32_succ_l. f_equal. lia.
Qed.

(** X1. [readExactly] succeeds exactly when nothing is asked for, or the
    client is attached and the peer delivers at least [len] bytes before it
    goes away; it then hands over the next [len] bytes of the stream and
    leaves the stream just behind them. *)
Theorem readExactly_takes_next_bytes len s :
  ((readExactly len s).1.1 = true
   ↔ len = 0%nat
     ∨ (attached (client s) = true ∧ (len ≤ length (stream (client s)))%nat))
  ∧ ((readExactly len s).1.1 = true →
     (readExactly len s).1.2 = take len (stream (client s))
     ∧ stream (client (readExactly len s).2) = drop len (stream (client s))).
Proof.
  destruct len as [| len].
  { rewrite readExactly_zero. cbn [fst snd]. split; [split; auto |].
    intros _. rewrite take_0, drop_0. auto. }
  assert (Hsucc : attached (client s) = true →
            (S len ≤ length (stream (client s)))%nat →
            (readExactly (S len) s).1.1 = true
            ∧ (readExactly (S len) s).1.2 = take (S len) (stream (client s))
            ∧ stream (client (readExactly (S len) s).2) = drop (S len) (stream (client s))).
  { intros Hatt Hlen.
    destruct (readExactly_stream (S len) s Hatt Hlen) as (c' & t' & E & _ & Hs).
    rewrite E. cbn [fst snd]. st_simpl. auto. }
  split; [split |].
  - intros Hok. right. apply readExactly_true; [lia | exact Hok].
  - intros [Hz | [Hatt Hlen]]; [discriminate | apply Hsucc; assumption].
  - intros Hok. destruct (readExactly_true (S len) s) as [Hatt Hlen]; [lia | exact Hok |].
    apply Hsucc; assumption.
Qed.

(** X2. [readExactly] touches nothing but the socket and the clock; it
    neither attaches nor detaches the client; the clock advances by one
    millisecond per segment it waited for; and when the bytes asked for are
    already buffered it does not wait at all. *)
Theorem readExactly_only_socket_and_clock len s :
  same_but_socket_and_clock s (readExactly len s).2
  ∧ attached (client (readExactly len s).2) = attached (client s)
  ∧ u32 (uptime (readExactly len s).2)
    = u32 (uptime s + Z.of_nat (length (incoming (client s))
                                 - length (incoming (client (readExactly len s).2))))
  ∧ (attached (client s) = true → (0 < len ≤ length (rx (client s)))%nat →
     readExactly len s
     = (true, take len (rx (client s)),
        set_client (mkClient true (drop len (rx (client s))) (incoming (client s))) s)).
Proof.
  split; [| split; [| split]].
  - destruct (readExactly_shape len s) as (c' & t' & E). rewrite E.
    unfold same_but_socket_and_clock. repeat split.
  - apply readLoop_attached.
  - apply readLoop_time.
  - intros Hatt Hlen. apply readExactly_buffered; assumption.
Qed.

(** ** ensureUpdateBuffer *)

Lemma wrapped_size n : u32 (n * sizeof_PixelUpdate) / sizeof_PixelUpdate = n mod 2 ^ 29.
Proof.
  unfold u32, sizeof_PixelUpdate.
  change (2 ^ 32) with (2 ^ 29 * 8).
  rewrite Z.mul_mod_distr_r by lia.
  apply Z.div_mul. lia.
Qed.

(** X3. PSRAM first, regular RAM as the fallback: [ensureUpdateBuffer]
    succeeds exactly when the buffer already fits or one of the two
    allocators has memory; it asks no allocator when the buffer fits, asks
    [ps_malloc] alone when that succeeds, and asks [malloc] only after
    [ps_malloc] has failed. *)
Theorem ensureUpdateBuffer_psram_first n s :
  ((ensureUpdateBuffer n s).1 = true
   ↔ fits n s = true ∨ ps_fails (heap s) = false ∨ ram_fails (heap s) = false)
  ∧ (fits n s = true → heap (ensureUpdateBuffer n s).2 = heap s)
  ∧ (fits n s = false → ps_fails (heap s) = false →
     psram_answers (heap (ensureUpdateBuffer n s).2) = tail (psram_answers (heap s))
     ∧ ram_answers (heap (ensureUpdateBuffer n s).2) = ram_answers (heap s))
  ∧ (fits n s = false → ps_fails (heap s) = true →
     psram_answers (heap (ensureUpdateBuffer n s).2) = tail (psram_answers (heap s))
     ∧ ram_answers (heap (ensureUpdateBuffer n s).2) = tail (ram_answers (heap s))).
Proof.
  destruct (fits n s) eqn:Hfit.
  { rewrite ensure_fits by exact Hfit. cbn [fst snd].
    split; [split; auto |]. split; [auto |]. split; discriminate. }
  unfold ensureUpdateBuffer. fold (fits n s). rewrite Hfit.
  unfold ps_fails, ram_fails, ps_malloc, malloc.
  destruct (heap s) as [ps ram b a]. cbn [psram_answers ram_answers blocks last_addr].
  destruct ps as [| [] ps]; destruct ram as [| [] ram];
    cbn [hd negb is_null nullptr Nat.eqb psram_answers ram_answers blocks last_addr tail];
    destruct (is_null (updateBuffer s)); cbn [negb]; st_simpl; unfold free; st_simpl;
    (split; [split; [intros H; try discriminate H; auto
                    | intros [H | [H | H]]; try discriminate H; reflexivity] |]);
    (split; [discriminate |]); split; intros _ H; try discriminate H; auto.
Qed.



(** X5. The byte count [needed * sizeof(PixelUpdate)] is computed in 32
    bits: the block a successful grow obtains has [n mod 2^29] blank
    entries, whatever the old buffer held. The recorded capacity [n]
    therefore matches the block exactly when [n < 2^29], as it always does
    for the 16-bit counts [handleClient] passes. *)
Theorem ensureUpdateBuffer_block_size n s :
  fits n s = false →
  (ensureUpdateBuffer n s).1 = true →
  buffer_ok s = true →
  0 <= n →
  blocks (heap (ensureUpdateBuffer n s).2) !! updateBuffer (ensureUpdateBuffer n s).2
  = Some (replicate (Z.to_nat (n mod 2 ^ 29)) blank)
  ∧ (buffer_ok (ensureUpdateBuffer n s).2 = true ↔ n < 2 ^ 29).
Proof.
  intros Hfit Hok Hbuf Hn.
  destruct (ensure_grow n s Hfit) as [(_ & _ & h' & E & _) | (_ & h' & E & Hl & Hb)].
  { rewrite E in Hok. discriminate. }
  cbn zeta in E, Hl, Hb. rewrite E. cbn [snd]. st_simpl.
  assert (Hlook : blocks h' !! S (last_addr (heap s))
                  = Some (replicate (Z.to_nat (n mod 2 ^ 29)) blank)).
  { rewrite Hb. unfold fresh_block. rewrite wrapped_size.
    destruct (is_null (updateBuffer s)) eqn:Hnull.
    - apply lookup_insert_eq.
    - destruct (buffer_ok_block s Hbuf Hnull) as [Hle _].
      rewrite lookup_delete_ne by lia. apply lookup_insert_eq. }
  split; [exact Hlook |].
  unfold buffer_ok. st_simpl. change (is_null (S (last_addr (heap s)))) with false. cbn match.
  rewrite Hlook, Hl, Nat.leb_refl, length_replicate. cbn [andb].
  pose proof (Z.mod_pos_bound n (2 ^ 29) ltac:(lia)) as Hmod.
  rewrite Z2Nat.id by lia. split.
  - intros H. apply Z.eqb_eq in H. lia.
  - intros H. apply Z.eqb_eq. apply Z.mod_small. lia.
Qed.

Lemma ensureUpdateBuffer_block_size_witness :
  blocks (heap (ensureUpdateBuffer (2 ^ 29 + 3) nothing_held).2)
    !! updateBuffer (ensureUpdateBuffer (2 ^ 29 + 3) nothing_held).2
  = Some (replicate (Z.to_nat ((2 ^ 29 + 3) mod 2 ^ 29)) blank)
  ∧ (buffer_ok (ensureUpdateBuffer (2 ^ 29 + 3) nothing_held).2 = true ↔ 2 ^ 29 + 3 < 2 ^ 29).
Proof.
  apply (ensureUpdateBuffer_block_size (2 ^ 29 + 3) nothing_held);
    [reflexivity | reflexivity | reflexivity | lia].
Defined.

(** X6. After a successful [ensureUpdateBuffer needed] in a good state the
    buffer is a live block, not null, with room for every index below
    [needed]: no entry that the decode and apply loops of [handleClient]
    address lies outside it. *)
Theorem ensureUpdateBuffer_makes_room needed s :
  buffer_ok s = true →
  0 <= needed < 2 ^ 29 →
  (ensureUpdateBuffer needed s).1 = true →
  is_null (updateBuffer (ensureUpdateBuffer needed s).2) = false
  ∧ needed <= bufferCapacity (ensureUpdateBuffer needed s).2
  ∧ ∃ cells,
      blocks (heap (ensureUpdateBuffer needed s).2)
        !! updateBuffer (ensureUpdateBuffer needed s).2 = Some cells
      ∧ Z.of_nat (length cells) = bufferCapacity (ensureUpdateBuffer needed s).2
      ∧ ∀ i, 0 <= i < needed → is_Some (cells !! Z.to_nat i).
Proof.
  intros Hok Hn Hs.
  destruct (ensure_ready needed s Hok Hn Hs) as (h' & p' & cells & E & Hb & Hlen & Hnull & _).
  rewrite E. cbn [snd]. st_simpl.
  split; [exact Hnull |]. split; [exact Hlen |].
  exists cells. split; [exact Hb |]. split; [reflexivity |].
  intros i Hi. apply lookup_lt_is_Some. lia.
Qed.

Lemma ensureUpdateBuffer_makes_room_witness :
  is_null (updateBuffer (ensureUpdateBuffer 3 holding_four).2) = false
  ∧ 3 <= bufferCapacity (ensureUpdateBuffer 3 holding_four).2
  ∧ ∃ cells,
      blocks (heap (ensureUpdateBuffer 3 holding_four).2)
        !! updateBuffer (ensureUpdateBuffer 3 holding_four).2 = Some cells
      ∧ Z.of_nat (length cells) = bufferCapacity (ensureUpdateBuffer 3 holding_four).2
      ∧ ∀ i, 0 <= i < 3 → is_Some (cells !! Z.to_nat i).
Proof.
  apply (ensureUpdateBuffer_makes_room 3 holding_four); [reflexivity | lia | reflexivity].
Defined.

(** ** One relation through every path of handleClient

    A relation between the state before and after that is reflexive and
    transitive and holds for each elementary step holds for [handleClient]
    as a whole, whichever [return] is taken. *)

Section Stages.

Variable R : State → State → Prop.

Hypothesis R_refl : ∀ s, R s s.
Hypothesis R_trans : ∀ s1 s2 s3, R s1 s2 → R s2 s3 → R s1 s3.
Hypothesis R_read : ∀ len s, R s (readExactly len s).2.
Hypothesis R_stop : ∀ s, R s (stop_client s).
Hypothesis R_print : ∀ it s, R s (Serial_print it s).
Hypothesis R_println : ∀ it s, R s (Serial_println it s).
Hypothesis R_count : ∀ fid s, R s (countFrame fid s).
Hypothesis R_finish : ∀ fid s, R s (finishFrame fid s).
Hypothesis R_ensure : ∀ n s, 0 <= n < 65536 → R s (ensureUpdateBuffer n s).2.
Hypothesis R_write : ∀ i f s, field_writer f → R s (buf_update i f s).
Hypothesis R_pixels : ∀ n i s, R s (applyPixels n i s).
Hypothesis R_runs : ∀ n i s, R s (applyRuns n i s).

Lemma stage_decodePixels n : ∀ i s, R s (decodePixels n i s).2.
Proof using R_refl R_trans R_read R_stop R_println R_write.
  induction n as [| n IH]; intros i s; cbn [decodePixels]; [apply R_refl |].
  pose proof (R_read 6 s) as K.
  destruct (readExactly 6 s) as [[ok entry] s1]. cbn [snd] in K.
  eapply R_trans; [exact K |].
  destruct ok; cbn [negb snd].
  - eapply R_trans; [| apply IH].
    repeat (eapply R_trans; [| solve [apply R_write; constructor]]). apply R_refl.
  - eapply R_trans; [apply R_println | apply R_stop].
Qed.

Lemma stage_decodeRuns n : ∀ i s, R s (decodeRuns n i s).2.
Proof using R_refl R_trans R_read R_stop R_println R_write.
  induction n as [| n IH]; intros i s; cbn [decodeRuns]; [apply R_refl |].
  pose proof (R_read 8 s) as K.
  destruct (readExactly 8 s) as [[ok entry] s1]. cbn [snd] in K.
  eapply R_trans; [exact K |].
  destruct ok; cbn [negb snd].
  - eapply R_trans; [| apply IH].
    repeat (eapply R_trans; [| solve [apply R_write; constructor]]). apply R_refl.
  - eapply R_trans; [apply R_println | apply R_stop].
Qed.

Lemma stage_pixelBody fid count s :
  0 <= count < 65536 → R s (pixelBody fid count s).2.
Proof using All.
  intros Hc. unfold pixelBody.
  pose proof (R_ensure count s Hc) as K1.
  destruct (ensureUpdateBuffer count s) as [ok s1]. cbn [snd] in K1.
  eapply R_trans; [exact K1 |].
  destruct ok; cbn [negb].
  - pose proof (stage_decodePixels (Z.to_nat count) 0 s1) as K2.
    destruct (decodePixels (Z.to_nat count) 0 s1) as [ok2 s2]. cbn [snd] in K2.
    eapply R_trans; [exact K2 |].
    destruct ok2; cbn [negb snd]; [| apply R_refl].
    eapply R_trans; [apply R_pixels | apply R_finish].
  - eapply R_trans; [apply R_println | apply R_stop].
Qed.

Lemma stage_runBody fid count s :
  0 <= count < 65536 → R s (runBody fid count s).2.
Proof using All.
  intros Hc. unfold runBody.
  pose proof (R_ensure count s Hc) as K1.
  destruct (ensureUpdateBuffer count s) as [ok s1]. cbn [snd] in K1.
  eapply R_trans; [exact K1 |].
  destruct ok; cbn [negb].
  - pose proof (stage_decodeRuns (Z.to_nat count) 0 s1) as K2.
    destruct (decodeRuns (Z.to_nat count) 0 s1) as [ok2 s2]. cbn [snd] in K2.
    eapply R_trans; [exact K2 |].
    destruct ok2; cbn [negb snd]; [| apply R_refl].
    eapply R_trans; [apply R_runs | apply R_finish].
  - eapply R_trans; [apply R_println | apply R_stop].
Qed.

Lemma stage_pixelFrame s : R s (pixelFrame s).2.
Proof using All.
  unfold pixelFrame.
  pose proof (R_read (Z.to_nat (HEADER_SIZE - 4)) s) as K.
  destruct (readExactly (Z.to_nat (HEADER_SIZE - 4)) s) as [[ok rest] s1]. cbn [snd] in K.
  eapply R_trans; [exact K |].
  destruct ok; cbn [negb].
  2:{ eapply R_trans; [apply R_println | apply R_stop]. }
  destruct (negb (byte_at rest 0 =? PROTO_VERSION)).
  { eapply R_trans; [apply R_print |]. eapply R_trans; [apply R_println | apply R_stop]. }
  destruct (_ =? 0); [apply R_count |].
  destruct (_ <? _).
  { eapply R_trans; [apply R_print |]. eapply R_trans; [apply R_println | apply R_stop]. }
  apply stage_pixelBody, le16_range.
Qed.

Lemma stage_runFrame s : R s (runFrame s).2.
Proof using All.
  unfold runFrame.
  pose proof (R_read (Z.to_nat (RUN_HEADER_SIZE - 4)) s) as K.
  destruct (readExactly (Z.to_nat (RUN_HEADER_SIZE - 4)) s) as [[ok rest] s1]. cbn [snd] in K.
  eapply R_trans; [exact K |].
  destruct ok; cbn [negb].
  2:{ eapply R_trans; [apply R_println | apply R_stop]. }
  destruct (negb (byte_at rest 0 =? RUN_VERSION)).
  { eapply R_trans; [apply R_print |]. eapply R_trans; [apply R_println | apply R_stop]. }
  destruct (_ =? 0); [apply R_count |].
  destruct (_ <? _).
  { eapply R_trans; [apply R_print |]. eapply R_trans; [apply R_println | apply R_stop]. }
  apply stage_runBody, le16_range.
Qed.

Lemma stage_serveClient s : R s (serveClient s).2.
Proof using All.
  unfold serveClient.
  destruct (negb (client_bool (client s)) || negb (connected (client s))); [apply R_refl |].
  destruct (available (client s) <? 11); [apply R_refl |].
  pose proof (R_read 4 s) as K.
  destruct (readExactly 4 s) as [[ok magicBuf] s1]. cbn [snd] in K.
  eapply R_trans; [exact K |].
  destruct ok; cbn [negb]; [| apply R_stop].
  destruct (negb (memcmp_eq magicBuf MAGIC_RUN 4) && negb (memcmp_eq magicBuf MAGIC 4)).
  { eapply R_trans; [apply R_println | apply R_stop]. }
  destruct (memcmp_eq magicBuf MAGIC 4); [apply stage_pixelFrame | apply stage_runFrame].
Qed.

Hypothesis R_accept : ∀ s, R s (acceptClient s).

Lemma stage_handleClient s : R s (handleClient s).2.
Proof using All.
  rewrite handleClient_result. cbn [snd]. unfold handleClient_outcome.
  eapply R_trans; [apply R_accept | apply stage_serveClient].
Qed.

End Stages.

(** ** Nothing is drawn outside the surface *)

Lemma draws_inside_refl s : draws_inside s s.
Proof.
  intros H. split; [exact H |]. split; [reflexivity |]. split; [reflexivity |].
  exists []. rewrite app_nil_r. auto.
Qed.

Lemma draws_inside_trans s1 s2 s3 :
  draws_inside s1 s2 → draws_inside s2 s3 → draws_inside s1 s3.
Proof.
  intros H12 H23 H1.
  destruct (H12 H1) as (H2 & Hw2 & Hh2 & new2 & Ho2 & Hi2).
  destruct (H23 H2) as (H3 & Hw3 & Hh3 & new3 & Ho3 & Hi3).
  split; [exact H3 |]. split; [congruence |]. split; [congruence |].
  exists (new2 ++ new3). split.
  - rewrite Ho3, Ho2, app_assoc. reflexivity.
  - rewrite forallb_app, Hi2. rewrite Hw2, Hh2 in Hi3. exact Hi3.
Qed.

(** Steps that leave heap, buffer pointer and display alone. *)
Ltac inside_same := intros Hok; split; [exact Hok |]; split; [reflexivity |];
  split; [reflexivity |]; exists []; rewrite app_nil_r; auto.

Lemma readExactly_inside len s : draws_inside s (readExactly len s).2.
Proof. destruct (readExactly_shape len s) as (c' & t' & E). rewrite E. inside_same. Qed.

Lemma finishFrame_inside fid s : draws_inside s (finishFrame fid s).
Proof. unfold finishFrame. destruct (2000 <? _); inside_same. Qed.

Lemma forallb_replicate {A} (f : A → bool) n x : f x = true → forallb f (replicate n x) = true.
Proof. intros Hf. induction n; cbn; [reflexivity | rewrite Hf; exact IHn]. Qed.

Lemma forallb_alter {A} (f : A → bool) (g : A → A) i l :
  (∀ x, f x = true → f (g x) = true) → forallb f l = true → forallb f (alter g i l) = true.
Proof.
  intros Hg. revert i. induction l as [| x l IH]; intros i H; [destruct i; exact H |].
  cbn in H. apply andb_true_iff in H as [Hx Hl].
  destruct i; cbn; apply andb_true_iff; auto.
Qed.

Lemma field_writer_u16 f e : field_writer f → cell_u16 e = true → cell_u16 (f e) = true.
Proof.
  intros Hf He. unfold cell_u16 in *.
  apply andb_true_iff in He as [He Hc]. apply andb_true_iff in He as [He Hl].
  apply andb_true_iff in He as [Hx Hy].
  assert (Hle : ∀ lo hi, is_u16 (le16 lo hi) = true).
  { intros lo hi. pose proof (le16_range lo hi). unfold is_u16.
    apply andb_true_iff. split; [apply Z.leb_le | apply Z.ltb_lt]; lia. }
  destruct Hf; cbn; rewrite ?Hle, ?Hx, ?Hy, ?Hl, ?Hc; reflexivity.
Qed.

Lemma ensure_inside n s : draws_inside s (ensureUpdateBuffer n s).2.
Proof.
  destruct (fits n s) eqn:Hfit.
  { rewrite ensure_fits by exact Hfit. apply draws_inside_refl. }
  destruct (ensure_grow n s Hfit) as [(_ & _ & h' & E & Hb & _) | (_ & h' & E & _ & Hb)];
    rewrite E; cbn [snd]; intros Hok.
  - split; [| split; [reflexivity | split; [reflexivity |]]].
    + unfold buffer_u16 in *. st_simpl. rewrite Hb. exact Hok.
    + exists []. rewrite app_nil_r. auto.
  - cbn zeta in Hb. split; [| split; [reflexivity | split; [reflexivity |]]].
    + unfold buffer_u16. st_simpl. rewrite Hb.
      destruct (is_null (updateBuffer s)).
      * rewrite lookup_insert_eq. apply forallb_replicate. reflexivity.
      * destruct (decide (updateBuffer s = S (last_addr (heap s)))) as [-> | Hne].
        -- rewrite lookup_delete_eq. reflexivity.
        -- rewrite lookup_delete_ne, lookup_insert_eq by exact Hne.
           apply forallb_replicate. reflexivity.
    + exists []. rewrite app_nil_r. auto.
Qed.

Lemma buf_update_inside i f s : field_writer f → draws_inside s (buf_update i f s).
Proof.
  intros Hf Hok. split; [| split; [reflexivity | split; [reflexivity |]]].
  - unfold buffer_u16, buf_update in *. st_simpl. rewrite lookup_alter_eq.
    destruct (blocks (heap s) !! updateBuffer s) as [cells |];
      cbn [fmap option_fmap option_map]; [| reflexivity].
    apply forallb_alter; [| exact Hok]. intros e. apply field_writer_u16, Hf.
  - exists []. rewrite app_nil_r. auto.
Qed.

Lemma buf_get_u16 i s : buffer_u16 s = true → cell_u16 (buf_get i s) = true.
Proof.
  unfold buffer_u16, buf_get. intros H.
  destruct (blocks (heap s) !! updateBuffer s) as [cells |]; cbn; [| reflexivity].
  destruct (cells !! Z.to_nat i) as [e |] eqn:He; cbn; [| reflexivity].
  rewrite forallb_forall in H. apply H. apply list_elem_of_In.
  eapply list_elem_of_lookup_2. exact He.
Qed.

Lemma cell_u16_fields e :
  cell_u16 e = true →
  0 <= upd_x e < 65536 ∧ 0 <= upd_y e < 65536 ∧ 0 <= upd_len e < 65536.
Proof.
  unfold cell_u16. intros H. apply andb_true_iff in H as [H _].
  apply andb_true_iff in H as [H Hl]. apply andb_true_iff in H as [Hx Hy].
  apply is_u16_range in Hx, Hy, Hl. auto.
Qed.

Lemma one_op_inside op v s :
  op_inside (width (display s)) (height (display s)) op = true →
  draws_inside s (set_updatesApplied v (draw op s)).
Proof.
  intros Hin Hok. split; [exact Hok |]. split; [reflexivity |]. split; [reflexivity |].
  exists [op]. split; [reflexivity |]. cbn. rewrite Hin. reflexivity.
Qed.

(** The guards of the two apply loops keep the calls inside the surface,
    and the values passed as [int16_t] are passed unchanged. *)
Lemma pixel_guard_inside i s :
  buffer_u16 s = true →
  (upd_x (buf_get i s) <? width (display s)) && (upd_y (buf_get i s) <? height (display s))
    = true →
  op_inside (width (display s)) (height (display s))
    (DrawPixel (int16 (upd_x (buf_get i s))) (int16 (upd_y (buf_get i s)))
       (upd_color (buf_get i s))) = true.
Proof.
  intros Hok Hguard.
  apply andb_true_iff in Hguard as [Hx Hy]. apply Z.ltb_lt in Hx, Hy.
  destruct (cell_u16_fields _ (buf_get_u16 i s Hok)) as (Hx0 & Hy0 & _).
  pose proof (width_range (display s)). pose proof (height_range (display s)).
  unfold op_inside. rewrite !int16_small by lia.
  repeat (apply andb_true_iff; split); first [apply Z.leb_le | apply Z.ltb_lt]; lia.
Qed.

Lemma run_guard_inside i s :
  buffer_u16 s = true →
  (upd_x (buf_get i s) <? width (display s)) && (upd_y (buf_get i s) <? height (display s))
    && (0 <? upd_len (buf_get i s))
    && (upd_x (buf_get i s) + upd_len (buf_get i s) <=? width (display s)) = true →
  op_inside (width (display s)) (height (display s))
    (FillRect (int16 (upd_x (buf_get i s))) (int16 (upd_y (buf_get i s)))
       (int16 (upd_len (buf_get i s))) 1 (upd_color (buf_get i s))) = true
  ∧ int16 (upd_len (buf_get i s)) = upd_len (buf_get i s).
Proof.
  intros Hok Hguard.
  apply andb_true_iff in Hguard as [Hguard Hfit].
  apply andb_true_iff in Hguard as [Hguard Hpos].
  apply andb_true_iff in Hguard as [Hx Hy].
  apply Z.ltb_lt in Hx, Hy, Hpos. apply Z.leb_le in Hfit.
  destruct (cell_u16_fields _ (buf_get_u16 i s Hok)) as (Hx0 & Hy0 & Hl0).
  pose proof (width_range (display s)). pose proof (height_range (display s)).
  split; [| apply int16_small; lia].
  unfold op_inside. rewrite !int16_small by lia.
  repeat (apply andb_true_iff; split); first [apply Z.leb_le | apply Z.ltb_lt]; lia.
Qed.

Lemma applyPixels_inside n : ∀ i s, draws_inside s (applyPixels n i s).
Proof.
  induction n as [| n IH]; intros i s; cbn [applyPixels]; [apply draws_inside_refl |].
  eapply draws_inside_trans; [| apply IH].
  destruct (_ && _) eqn:Hguard; [| apply draws_inside_refl].
  intros Hok. apply one_op_inside; [| exact Hok].
  apply pixel_guard_inside; assumption.
Qed.

Lemma applyRuns_inside n : ∀ i s, draws_inside s (applyRuns n i s).
Proof.
  induction n as [| n IH]; intros i s; cbn [applyRuns]; [apply draws_inside_refl |].
  eapply draws_inside_trans; [| apply IH].
  destruct (_ && _) eqn:Hguard; [| apply draws_inside_refl].
  intros Hok. apply one_op_inside; [| exact Hok].
  apply run_guard_inside; assumption.
Qed.

Lemma accept_inside s : draws_inside s (acceptClient s).
Proof.
  unfold acceptClient, server_available.
  destruct (negb (client_bool (client s)) || negb (connected (client s)));
    [| apply draws_inside_refl].
  destruct (server s) as [| c rest]; cbn zeta; st_simpl;
    match goal with |- context [if ?b then _ else _] => destruct b end;
    first [ solve [inside_same]
          | intros Hok; split; [exact Hok |]; split; [reflexivity |];
            split; [reflexivity |]; exists [FillScreen Black]; split; reflexivity ].
Qed.

Lemma handleClient_inside s : draws_inside s (handleClient s).2.
Proof.
  apply stage_handleClient.
  - apply draws_inside_refl.
  - apply draws_inside_trans.
  - apply readExactly_inside.
  - intros s0. inside_same.
  - intros it s0. inside_same.
  - intros it s0. inside_same.
  - intros fid s0. inside_same.
  - apply finishFrame_inside.
  - intros n s0 _. apply ensure_inside.
  - apply buf_update_inside.
  - apply applyPixels_inside.
  - apply applyRuns_inside.
  - apply accept_inside.
Qed.

(** ** No block is leaked *)

Lemma stays_tidy_refl s : stays_tidy s s.
Proof. intros H1 H2. auto. Qed.

Lemma stays_tidy_trans s1 s2 s3 : stays_tidy s1 s2 → stays_tidy s2 s3 → stays_tidy s1 s3.
Proof. intros H12 H23 Ha Hb. destruct (H12 Ha Hb) as [Hc Hd]. apply H23; assumption. Qed.

Lemma tidy_same s s' :
  evolves s s' → blocks (heap s') = blocks (heap s) → updateBuffer s' = updateBuffer s →
  stays_tidy s s'.
Proof.
  intros He Hb Hp Hok Hlive. split; [apply He, Hok |].
  unfold only_buffer_live in *. rewrite Hb, Hp. exact Hlive.
Qed.

Lemma readExactly_tidy len s : stays_tidy s (readExactly len s).2.
Proof.
  pose proof (readExactly_evolves len s) as He.
  destruct (readExactly_shape len s) as (c' & t' & E). rewrite E in *.
  apply tidy_same; [exact He | reflexivity | reflexivity].
Qed.

Lemma finishFrame_tidy fid s : stays_tidy s (finishFrame fid s).
Proof.
  apply tidy_same; [apply finishFrame_evolves | |];
    unfold finishFrame; destruct (2000 <? _); reflexivity.
Qed.

Lemma applyPixels_tidy n : ∀ i s, stays_tidy s (applyPixels n i s).
Proof.
  induction n as [| n IH]; intros i s; cbn [applyPixels]; [apply stays_tidy_refl |].
  eapply stays_tidy_trans; [| apply IH].
  destruct (_ && _); [| apply stays_tidy_refl].
  apply tidy_same; [| reflexivity | reflexivity].
  eapply evolves_trans; [| apply counted_evolves]. evolves_same.
Qed.

Lemma applyRuns_tidy n : ∀ i s, stays_tidy s (applyRuns n i s).
Proof.
  induction n as [| n IH]; intros i s; cbn [applyRuns]; [apply stays_tidy_refl |].
  eapply stays_tidy_trans; [| apply IH].
  destruct (_ && _); [| apply stays_tidy_refl].
  apply tidy_same; [| reflexivity | reflexivity].
  eapply evolves_trans; [| apply counted_evolves]. evolves_same.
Qed.

Lemma accept_tidy s : stays_tidy s (acceptClient s).
Proof.
  apply tidy_same; [apply accept_evolves | |];
    unfold acceptClient, server_available;
    destruct (negb (client_bool (client s)) || negb (connected (client s))); try reflexivity;
    destruct (server s) as [| c rest]; cbn zeta; st_simpl;
    match goal with |- context [if ?b then _ else _] => destruct b end; reflexivity.
Qed.

Lemma buf_update_tidy i f s : stays_tidy s (buf_update i f s).
Proof.
  intros Hok Hlive. split; [apply buf_update_evolves, Hok |].
  unfold only_buffer_live, buf_update in *. st_simpl.
  apply bool_decide_eq_true in Hlive. apply bool_decide_eq_true.
  rewrite dom_alter_L. exact Hlive.
Qed.

Lemma ensure_tidy n s : 0 <= n < 65536 → stays_tidy s (ensureUpdateBuffer n s).2.
Proof.
  intros Hn Hok Hlive. split; [apply ensure_evolves; [lia | exact Hok] |].
  destruct (fits n s) eqn:Hfit.
  { rewrite ensure_fits by exact Hfit. exact Hlive. }
  destruct (state_ok_fields s Hok) as (Hbuf & _).
  unfold only_buffer_live in *. apply bool_decide_eq_true in Hlive. apply bool_decide_eq_true.
  destruct (ensure_grow n s Hfit) as [(_ & _ & h' & E & Hb & _) | (_ & h' & E & _ & Hb)];
    rewrite E; cbn [snd]; st_simpl.
  - rewrite Hb. exact Hlive.
  - cbn zeta in Hb. rewrite Hb. unfold buffer_ok in Hbuf.
    destruct (is_null (updateBuffer s)) eqn:Hnull; cbn [is_null Nat.eqb nullptr].
    + rewrite dom_insert_L, Hlive. apply (right_id_L ∅ (∪)).
    + apply andb_true_iff in Hbuf as [Hle _]. apply Nat.leb_le in Hle.
      rewrite dom_delete_L, dom_insert_L, Hlive.
      apply set_eq. intros x.
      rewrite elem_of_difference, elem_of_union, !elem_of_singleton. lia.
Qed.

Lemma handleClient_tidy s : stays_tidy s (handleClient s).2.
Proof.
  apply stage_handleClient.
  - apply stays_tidy_refl.
  - apply stays_tidy_trans.
  - apply readExactly_tidy.
  - intros s0. apply tidy_same; [evolves_same | reflexivity | reflexivity].
  - intros it s0. apply tidy_same; [evolves_same | reflexivity | reflexivity].
  - intros it s0. apply tidy_same; [evolves_same | reflexivity | reflexivity].
  - intros fid s0. apply tidy_same; [evolves_same | reflexivity | reflexivity].
  - apply finishFrame_tidy.
  - apply ensure_tidy.
  - intros i f s0 _. apply buf_update_tidy.
  - apply applyPixels_tidy.
  - apply applyRuns_tidy.
  - apply accept_tidy.
Qed.

(** ** The outcome of a call, read off the receive buffer *)

Lemma serve_short s :
  available (client s) < 11 →
  serveClient s = (if connected (client s) then Incomplete else NoClient, s).
Proof.
  intros H. unfold serveClient, client_bool.
  destruct (connected (client s)); cbn [negb orb]; [| reflexivity].
  apply Z.ltb_lt in H. rewrite H. reflexivity.
Qed.

Lemma available_attached c : 0 < available c → attached c = true ∧ connected c = true.
Proof.
  unfold available, connected. destruct (attached c); [| lia].
  destruct (rx c); cbn; [lia | auto].
Qed.

Lemma memcmp_front m0 m1 m2 m3 tl b :
  memcmp_eq (m0 :: m1 :: m2 :: m3 :: tl) b 4 = memcmp_eq [m0; m1; m2; m3] b 4.
Proof. destruct tl as [| t0 tl]; destruct b as [| b0 [| b1 [| b2 [| b3 b']]]]; reflexivity. Qed.

(** With 11 bytes buffered both header reads succeed at once; what is left
    is a table over the bytes. *)
Lemma serve_buffered s :
  11 <= available (client s) →
  let r := rx (client s) in
  let k := kind_of r in
  let fid := le32 (byte_at r 5) (byte_at r 6) (byte_at r 7) (byte_at r 8) in
  let count := le16 (byte_at r 9) (byte_at r 10) in
  serveClient s =
    if unknown_magic r then
      (BadMagic, set_client no_client (Serial_println (Text "Bad magic; flushing stream") s))
    else if negb (byte_at r 4 =? version_of k) then
      (UnsupportedVersion,
       set_client no_client
         (Serial_println (Hex (byte_at r 4)) (Serial_print (Text (unsupported_text k)) s)))
    else if count =? 0 then (EmptyFrame, countFrame fid (past_header (drop 11 r) s))
    else if width (display s) * height (display s) <? count then
      (CountTooLarge,
       stop_client (Serial_println (Num count)
                      (Serial_print (Text (too_large_text k)) (past_header (drop 11 r) s))))
    else frameBody k fid count (past_header (drop 11 r) s).
Proof.
  intros Hav. destruct (available_attached (client s)) as [Hatt Hcon]; [lia |].
  unfold serveClient, client_bool. rewrite Hcon. cbn [negb orb].
  assert (Hav' : (available (client s) <? 11) = false) by (apply Z.ltb_ge; exact Hav).
  rewrite Hav'. unfold available in Hav. rewrite Hatt in Hav.
  destruct (rx (client s))
    as [| m0 [| m1 [| m2 [| m3 [| v [| f0 [| f1 [| f2 [| f3 [| c0 [| c1 tl]]]]]]]]]]] eqn:Hrx;
    try (simpl length in Hav; lia).
  rewrite readExactly_buffered by (rewrite ?Hrx; simpl; auto; lia).
  rewrite Hrx. cbn [take drop negb].
  set (s4 := set_client _ s).
  assert (Hrest : readExactly (Z.to_nat 7) s4 =
    (true, [v; f0; f1; f2; f3; c0; c1], past_header tl s)).
  { rewrite readExactly_buffered by (subst s4; simpl; auto; lia). reflexivity. }
  cbv zeta. unfold unknown_magic, kind_of.
  cbv [byte_at default from_option lookup list_lookup id].
  rewrite !(memcmp_front m0 m1 m2 m3 (v :: f0 :: f1 :: f2 :: f3 :: c0 :: c1 :: tl)).
  destruct (memcmp_eq [m0; m1; m2; m3] MAGIC 4) eqn:Hpx.
  - rewrite andb_false_r. unfold pixelFrame.
    change (HEADER_SIZE - 4) with 7. rewrite Hrest.
    cbv [byte_at default from_option lookup list_lookup id]. cbn [negb version_of].
    destruct (v =? PROTO_VERSION); reflexivity.
  - destruct (memcmp_eq [m0; m1; m2; m3] MAGIC_RUN 4) eqn:Hrn; cbn [negb andb].
    + unfold runFrame. change (RUN_HEADER_SIZE - 4) with 7. rewrite Hrest.
      cbv [byte_at default from_option lookup list_lookup id]. cbn [negb version_of].
      destruct (v =? RUN_VERSION); reflexivity.
    + reflexivity.
Qed.

Lemma parse_header_bytes c :
  11 <= available c →
  let r := rx c in
  parse_header c =
    if unknown_magic r || negb (byte_at r 4 =? version_of (kind_of r)) then None
    else Some (kind_of r, le32 (byte_at r 5) (byte_at r 6) (byte_at r 7) (byte_at r 8),
               le16 (byte_at r 9) (byte_at r 10), drop 11 r).
Proof.
  intros Hav. destruct (available_attached c) as [Hatt _]; [lia |].
  unfold available in Hav. rewrite Hatt in Hav.
  unfold parse_header. rewrite Hatt. cbv zeta.
  destruct (rx c)
    as [| m0 [| m1 [| m2 [| m3 [| v [| f0 [| f1 [| f2 [| f3 [| c0 [| c1 tl]]]]]]]]]]] eqn:Hrx;
    try (simpl length in Hav; lia).
  unfold unknown_magic, kind_of.
  cbv [byte_at default from_option lookup list_lookup id].
  rewrite !(memcmp_front m0 m1 m2 m3 (v :: f0 :: f1 :: f2 :: f3 :: c0 :: c1 :: tl)).
  cbn [drop].
  destruct (memcmp_eq [m0; m1; m2; m3] MAGIC 4).
  - rewrite andb_false_r. cbn [orb version_of]. destruct (v =? PROTO_VERSION); reflexivity.
  - destruct (memcmp_eq [m0; m1; m2; m3] MAGIC_RUN 4); cbn [negb andb orb version_of];
      [destruct (v =? RUN_VERSION) |]; reflexivity.
Qed.

Lemma parse_header_tail c k fid count tail :
  parse_header c = Some (k, fid, count, tail) →
  11 <= available c ∧ tail = drop 11 (rx c) ∧ (11 ≤ length (rx c))%nat.
Proof.
  intros Hp. pose proof (parse_header_attached _ _ _ _ _ Hp) as Hatt.
  unfold parse_header in Hp. rewrite Hatt in Hp. unfold available. rewrite Hatt.
  destruct (rx c)
    as [| m0 [| m1 [| m2 [| m3 [| v [| f0 [| f1 [| f2 [| f3 [| c0 [| c1 tl]]]]]]]]]]] eqn:Hrx;
    try discriminate.
  assert (tail = tl) as ->.
  { destruct (memcmp_eq _ MAGIC 4); [destruct (v =? PROTO_VERSION); congruence |].
    destruct (memcmp_eq _ MAGIC_RUN 4); [| discriminate].
    destruct (v =? RUN_VERSION); congruence. }
  simpl length. cbn [drop]. repeat split; lia.
Qed.

Lemma parse_header_stream c k fid count tail :
  parse_header c = Some (k, fid, count, tail) →
  tail ++ concat (incoming c) = drop 11 (stream c).
Proof.
  intros Hp. destruct (parse_header_tail _ _ _ _ _ Hp) as (_ & -> & Hlen).
  unfold stream. rewrite drop_app_le by exact Hlen. reflexivity.
Qed.

(** *** The bodies, for any bytes *)

Lemma decodePixels_consumes n : ∀ i s,
  attached (client s) = true →
  (6 * n ≤ length (stream (client s)))%nat →
  (decodePixels n i s).1 = true
  ∧ attached (client (decodePixels n i s).2) = true
  ∧ stream (client (decodePixels n i s).2) = drop (6 * n) (stream (client s)).
Proof.
  induction n as [| n IH]; intros i s Hatt Hlen; cbn [decodePixels].
  { cbn [fst snd]. rewrite Nat.mul_0_r, drop_0. auto. }
  destruct (readExactly_stream 6 s Hatt) as (c' & t' & E & Hatt' & Hs'); [lia |].
  rewrite E. cbn [negb].
  match goal with |- context [decodePixels n (i + 1) ?s4] => set (s4' := s4) end.
  assert (Hc : client s4' = c') by reflexivity.
  destruct (IH (i + 1) s4') as (Hok & Ha & Hs).
  - rewrite Hc. exact Hatt'.
  - rewrite Hc, Hs', length_drop. lia.
  - split; [exact Hok |]. split; [exact Ha |].
    rewrite Hs, Hc, Hs', drop_drop. f_equal. lia.
Qed.

Lemma decodeRuns_consumes n : ∀ i s,
  attached (client s) = true →
  (8 * n ≤ length (stream (client s)))%nat →
  (decodeRuns n i s).1 = true
  ∧ attached (client (decodeRuns n i s).2) = true
  ∧ stream (client (decodeRuns n i s).2) = drop (8 * n) (stream (client s)).
Proof.
  induction n as [| n IH]; intros i s Hatt Hlen; cbn [decodeRuns].
  { cbn [fst snd]. rewrite Nat.mul_0_r, drop_0. auto. }
  destruct (readExactly_stream 8 s Hatt) as (c' & t' & E & Hatt' & Hs'); [lia |].
  rewrite E. cbn [negb].
  match goal with |- context [decodeRuns n (i + 1) ?s4] => set (s4' := s4) end.
  assert (Hc : client s4' = c') by reflexivity.
  destruct (IH (i + 1) s4') as (Hok & Ha & Hs).
  - rewrite Hc. exact Hatt'.
  - rewrite Hc, Hs', length_drop. lia.
  - split; [exact Hok |]. split; [exact Ha |].
    rewrite Hs, Hc, Hs', drop_drop. f_equal. lia.
Qed.

Lemma applyPixels_client n : ∀ i s, client (applyPixels n i s) = client s.
Proof.
  induction n as [| n IH]; intros i s; cbn [applyPixels]; [reflexivity |].
  rewrite IH. destruct (_ && _); reflexivity.
Qed.

Lemma applyRuns_client n : ∀ i s, client (applyRuns n i s) = client s.
Proof.
  induction n as [| n IH]; intros i s; cbn [applyRuns]; [reflexivity |].
  rewrite IH. destruct (_ && _); reflexivity.
Qed.

Lemma finishFrame_client fid s : client (finishFrame fid s) = client s.
Proof. apply finishFrame_fields. Qed.

(** Once the count has passed its checks the outcome is decided by the
    allocation and by the number of bytes the peer still delivers. *)
Lemma frameBody_table k fid count s :
  0 <= count →
  attached (client s) = true →
  (frameBody k fid count s).1 =
    if negb (ensureUpdateBuffer count s).1 then AllocationFailure
    else if Z.of_nat (length (stream (client s))) <? entry_size k * count then Truncated
    else AppliedFrame.
Proof.
  intros Hc Hatt.
  pose proof (ensure_client count s) as Hcl.
  destruct k; cbv [frameBody pixelBody runBody entry_size];
    destruct (ensureUpdateBuffer count s) as [ok s1]; cbn [fst snd] in *;
    destruct ok; cbn [negb fst]; try reflexivity.
  - destruct (Z.ltb_spec (Z.of_nat (length (stream (client s)))) (6 * count)) as [Hlt | Hge].
    + pose proof (decodePixels_short (Z.to_nat count) 0 s1) as K. rewrite Hcl in K.
      destruct (decodePixels (Z.to_nat count) 0 s1) as [ok s2]. cbn [fst] in K.
      rewrite K by lia. reflexivity.
    + destruct (decodePixels_consumes (Z.to_nat count) 0 s1) as (K & _).
      * rewrite Hcl. exact Hatt.
      * rewrite Hcl. lia.
      * destruct (decodePixels (Z.to_nat count) 0 s1) as [ok s2]. cbn [fst] in K.
        rewrite K. reflexivity.
  - destruct (Z.ltb_spec (Z.of_nat (length (stream (client s)))) (8 * count)) as [Hlt | Hge].
    + pose proof (decodeRuns_short (Z.to_nat count) 0 s1) as K. rewrite Hcl in K.
      destruct (decodeRuns (Z.to_nat count) 0 s1) as [ok s2]. cbn [fst] in K.
      rewrite K by lia. reflexivity.
    + destruct (decodeRuns_consumes (Z.to_nat count) 0 s1) as (K & _).
      * rewrite Hcl. exact Hatt.
      * rewrite Hcl. lia.
      * destruct (decodeRuns (Z.to_nat count) 0 s1) as [ok s2]. cbn [fst] in K.
        rewrite K. reflexivity.
Qed.

(** After an applied frame the connection stands behind the body. *)
Lemma frameBody_applied_stream k fid count s :
  0 <= count →
  attached (client s) = true →
  (frameBody k fid count s).1 = AppliedFrame →
  attached (client (frameBody k fid count s).2) = true
  ∧ stream (client (frameBody k fid count s).2)
    = drop (Z.to_nat (entry_size k * count)) (stream (client s)).
Proof.
  intros Hc Hatt Happ.
  pose proof (frameBody_table k fid count s Hc Hatt) as T. rewrite Happ in T.
  pose proof (ensure_client count s) as Hcl.
  destruct (Z.ltb_spec (Z.of_nat (length (stream (client s)))) (entry_size k * count))
    as [Hlt | Hge]; [destruct (negb _); discriminate |].
  clear T. revert Happ Hge.
  destruct k; cbv [frameBody pixelBody runBody entry_size];
    destruct (ensureUpdateBuffer count s) as [ok s1]; cbn [fst snd] in *;
    destruct ok; cbn [negb fst]; try discriminate; intros _ Hge.
  - destruct (decodePixels_consumes (Z.to_nat count) 0 s1) as (K & Ha & Hs);
      [rewrite Hcl; exact Hatt | rewrite Hcl; lia |].
    destruct (decodePixels (Z.to_nat count) 0 s1) as [ok s2]. cbn [fst snd] in *.
    subst ok. cbn [negb snd].
    rewrite finishFrame_client, applyPixels_client, Hs, Hcl.
    split; [exact Ha |]. f_equal. lia.
  - destruct (decodeRuns_consumes (Z.to_nat count) 0 s1) as (K & Ha & Hs);
      [rewrite Hcl; exact Hatt | rewrite Hcl; lia |].
    destruct (decodeRuns (Z.to_nat count) 0 s1) as [ok s2]. cbn [fst snd] in *.
    subst ok. cbn [negb snd].
    rewrite finishFrame_client, applyRuns_client, Hs, Hcl.
    split; [exact Ha |]. f_equal. lia.
Qed.

(** *** From the outcome back to the header *)

Lemma serve_valid s k fid count tail :
  parse_header (client s) = Some (k, fid, count, tail) →
  0 < count <= width (display s) * height (display s) →
  serveClient s = frameBody k fid count (past_header tail s).
Proof.
  intros Hp Hc. rewrite (serve_header s k fid count tail Hp).
  destruct (Z.eqb_spec count 0) as [-> | _]; [lia |].
  destruct (Z.ltb_spec (width (display s) * height (display s)) count); [lia | reflexivity].
Qed.

Lemma frameBody_outcomes k fid count s :
  (frameBody k fid count s).1 = AllocationFailure
  ∨ (frameBody k fid count s).1 = Truncated
  ∨ (frameBody k fid count s).1 = AppliedFrame.
Proof.
  destruct k; cbv [frameBody pixelBody runBody];
    destruct (ensureUpdateBuffer count s) as [[] s1]; cbn [negb fst]; auto;
    match goal with |- context [let '(_, _) := ?d in _] => destruct d as [[] s2] end;
    cbn [negb fst]; auto.
Qed.

Lemma serve_reaches_body s :
  (serveClient s).1 = AllocationFailure
  ∨ (serveClient s).1 = Truncated
  ∨ (serveClient s).1 = AppliedFrame →
  ∃ k fid count tail,
    parse_header (client s) = Some (k, fid, count, tail)
    ∧ 0 < count <= width (display s) * height (display s)
    ∧ serveClient s = frameBody k fid count (past_header tail s).
Proof.
  intros Ho.
  destruct (Z.lt_ge_cases (available (client s)) 11) as [Hlt | Hge].
  { rewrite (serve_short s Hlt) in Ho. cbn [fst] in Ho.
    destruct (connected (client s)); destruct Ho as [? | [? | ?]]; discriminate. }
  pose proof (serve_buffered s Hge) as T. pose proof (parse_header_bytes (client s) Hge) as P.
  cbv zeta in T, P.
  destruct (unknown_magic (rx (client s))).
  { rewrite T in Ho. cbn [fst] in Ho. destruct Ho as [? | [? | ?]]; discriminate. }
  destruct (negb (_ =? version_of _)).
  { rewrite T in Ho. cbn [fst] in Ho. destruct Ho as [? | [? | ?]]; discriminate. }
  cbn [orb] in P.
  pose proof (parse_header_count_range _ _ _ _ _ P) as Hr.
  destruct (Z.eqb_spec (le16 (byte_at (rx (client s)) 9) (byte_at (rx (client s)) 10)) 0)
    as [Hz | Hnz].
  { rewrite T in Ho. cbn [fst] in Ho. destruct Ho as [? | [? | ?]]; discriminate. }
  destruct (Z.ltb_spec (width (display s) * height (display s))
              (le16 (byte_at (rx (client s)) 9) (byte_at (rx (client s)) 10))) as [Hbig | Hfit].
  { rewrite T in Ho. cbn [fst] in Ho. destruct Ho as [? | [? | ?]]; discriminate. }
  eexists _, _, _, _. split; [exact P |]. split; [lia | exact T].
Qed.

Lemma past_header_stream tail s :
  stream (client (past_header tail s)) = tail ++ concat (incoming (client s)).
Proof. reflexivity. Qed.

(** The outcome of the body of a frame whose header is valid. *)
Lemma serve_body_table s k fid count tail :
  parse_header (client s) = Some (k, fid, count, tail) →
  0 < count <= width (display s) * height (display s) →
  (serveClient s).1 =
    if negb (ensureUpdateBuffer count s).1 then AllocationFailure
    else if Z.of_nat (length (drop 11 (stream (client s)))) <? entry_size k * count
    then Truncated else AppliedFrame.
Proof.
  intros Hp Hc. rewrite (serve_valid s k fid count tail Hp Hc).
  rewrite frameBody_table by (reflexivity || lia).
  rewrite ensure_past_header, past_header_stream, (parse_header_stream _ _ _ _ _ Hp).
  reflexivity.
Qed.

(** What a failed allocation leaves behind. *)
Lemma frameBody_no_memory k fid count s :
  (ensureUpdateBuffer count s).1 = false →
  ∃ h',
    frameBody k fid count s =
      (AllocationFailure,
       set_client no_client
         (Serial_println (Text (no_buffer_text k))
            (Serial_println (Text "Failed to allocate update buffer") (set_heap h' s))))
    ∧ blocks h' = blocks (heap s) ∧ last_addr h' = last_addr (heap s).
Proof.
  intros Hf.
  destruct (fits count s) eqn:Hfit.
  { rewrite ensure_fits in Hf by exact Hfit. discriminate. }
  destruct (ensure_grow count s Hfit) as [(_ & _ & h' & E & Hb & Hl) | (_ & h' & E & _)];
    [| rewrite E in Hf; discriminate].
  exists h'. split; [| auto].
  destruct k; cbv [frameBody pixelBody runBody]; rewrite E; reflexivity.
Qed.

(** *** Counted frames *)

Lemma applyPixels_counters n : ∀ i s,
  frameCount (applyPixels n i s) = frameCount s
  ∧ lastFrameId (applyPixels n i s) = lastFrameId s.
Proof.
  induction n as [| n IH]; intros i s; cbn [applyPixels]; [auto |].
  destruct (IH (i + 1)
    (if (upd_x (buf_get i s) <? width (display s)) && (upd_y (buf_get i s) <? height (display s))
     then set_updatesApplied
            (u32 (updatesApplied
                    (draw (DrawPixel (int16 (upd_x (buf_get i s))) (int16 (upd_y (buf_get i s)))
                             (upd_color (buf_get i s))) s) + 1))
            (draw (DrawPixel (int16 (upd_x (buf_get i s))) (int16 (upd_y (buf_get i s)))
                     (upd_color (buf_get i s))) s)
     else s)) as [-> ->].
  destruct (_ && _); auto.
Qed.

Lemma applyRuns_counters n : ∀ i s,
  frameCount (applyRuns n i s) = frameCount s
  ∧ lastFrameId (applyRuns n i s) = lastFrameId s.
Proof.
  induction n as [| n IH]; intros i s; cbn [applyRuns]; [auto |].
  match goal with |- context [applyRuns n (i + 1) ?s1] => destruct (IH (i + 1) s1) as [-> ->] end.
  destruct (_ && _); auto.
Qed.

Lemma frameBody_applied_counts k fid count s :
  (frameBody k fid count s).1 = AppliedFrame →
  frameCount (frameBody k fid count s).2 = u32 (frameCount s + 1)
  ∧ lastFrameId (frameBody k fid count s).2 = fid.
Proof.
  destruct (ensure_keeps count s) as (_ & Hf1 & _ & _).
  destruct k; cbv [frameBody pixelBody runBody];
    destruct (ensureUpdateBuffer count s) as [[] s1]; cbn [negb fst snd] in *;
    try discriminate.
  - destruct (decodePixels_keeps (Z.to_nat count) 0 s1) as [(_ & Hf2 & _ & _) _].
    destruct (decodePixels (Z.to_nat count) 0 s1) as [[] s2]; cbn [negb fst snd] in *;
      try discriminate.
    intros _. destruct (finishFrame_fields fid (applyPixels (Z.to_nat count) 0 s2))
      as (_ & _ & -> & -> & _).
    destruct (applyPixels_counters (Z.to_nat count) 0 s2) as [-> _].
    rewrite Hf2, Hf1. auto.
  - destruct (decodeRuns_keeps (Z.to_nat count) 0 s1) as [(_ & Hf2 & _ & _) _].
    destruct (decodeRuns (Z.to_nat count) 0 s1) as [[] s2]; cbn [negb fst snd] in *;
      try discriminate.
    intros _. destruct (finishFrame_fields fid (applyRuns (Z.to_nat count) 0 s2))
      as (_ & _ & -> & -> & _).
    destruct (applyRuns_counters (Z.to_nat count) 0 s2) as [-> _].
    rewrite Hf2, Hf1. auto.
Qed.

Lemma serve_counted s :
  counted (serveClient s).1 = true →
  ∃ k fid count tail,
    parse_header (client s) = Some (k, fid, count, tail)
    ∧ frameCount (serveClient s).2 = u32 (frameCount s + 1)
    ∧ lastFrameId (serveClient s).2 = fid
    ∧ attached (client (serveClient s).2) = true.
Proof.
  intros Ho.
  destruct (Z.lt_ge_cases (available (client s)) 11) as [Hlt | Hge].
  { rewrite (serve_short s Hlt) in Ho. cbn [fst] in Ho.
    destruct (connected (client s)); discriminate. }
  pose proof (serve_buffered s Hge) as T. pose proof (parse_header_bytes (client s) Hge) as P.
  cbv zeta in T, P.
  destruct (unknown_magic (rx (client s))).
  { rewrite T in Ho. discriminate. }
  destruct (negb (_ =? version_of _)).
  { rewrite T in Ho. discriminate. }
  cbn [orb] in P.
  pose proof (parse_header_count_range _ _ _ _ _ P) as Hr.
  eexists _, _, _, _. split; [exact P |].
  destruct (le16 (byte_at (rx (client s)) 9) (byte_at (rx (client s)) 10) =? 0).
  { rewrite T. cbn [snd]. st_simpl. auto. }
  destruct (_ <? _).
  { rewrite T in Ho. discriminate. }
  rewrite T in *.
  assert (Happ : (frameBody (kind_of (rx (client s)))
                   (le32 (byte_at (rx (client s)) 5) (byte_at (rx (client s)) 6)
                      (byte_at (rx (client s)) 7) (byte_at (rx (client s)) 8))
                   (le16 (byte_at (rx (client s)) 9) (byte_at (rx (client s)) 10))
                   (past_header (drop 11 (rx (client s))) s)).1 = AppliedFrame).
  { destruct (frameBody_outcomes (kind_of (rx (client s)))
                   (le32 (byte_at (rx (client s)) 5) (byte_at (rx (client s)) 6)
                      (byte_at (rx (client s)) 7) (byte_at (rx (client s)) 8))
                   (le16 (byte_at (rx (client s)) 9) (byte_at (rx (client s)) 10))
                   (past_header (drop 11 (rx (client s))) s)) as [E | [E | E]];
      rewrite E in Ho; try discriminate. exact E. }
  destruct (frameBody_applied_counts _ _ _ _ Happ) as [Hfc Hid].
  assert (Hatt0 : attached (client (past_header (drop 11 (rx (client s))) s)) = true)
    by reflexivity.
  destruct (frameBody_applied_stream _ _ _ _ (proj1 Hr) Hatt0 Happ) as [Hatt _].
  auto.
Qed.

(** Every [return] of the part after the accept is of one of three sorts. *)
Lemma serve_sorts s :
  ((serveClient s).1 = (if connected (client s) then Incomplete else NoClient)
   ∧ (serveClient s).2 = s ∧ available (client s) < 11)
  ∨ fatal (serveClient s).1 = true
  ∨ counted (serveClient s).1 = true.
Proof.
  destruct (Z.lt_ge_cases (available (client s)) 11) as [Hlt | Hge].
  { left. rewrite (serve_short s Hlt). auto. }
  right. pose proof (serve_buffered s Hge) as T. cbv zeta in T.
  destruct (unknown_magic (rx (client s))); [rewrite T; auto |].
  destruct (negb (_ =? version_of _)); [rewrite T; auto |].
  destruct (_ =? 0); [rewrite T; auto |].
  destruct (_ <? _); [rewrite T; auto |].
  rewrite T.
  match goal with |- context [frameBody ?k ?f ?c ?st] =>
    destruct (frameBody_outcomes k f c st) as [E | [E | E]]; rewrite E; auto end.
Qed.

(** ** The statistics follow the drawing *)

Lemma updates_of_app a b : updates_of (a ++ b) = updates_of a + updates_of b.
Proof. induction a as [| op a IH]; cbn; [reflexivity | unfold updates_of in *; lia]. Qed.

Lemma tallied_refl s : inside_and_tallied s s.
Proof.
  split; [apply draws_inside_refl |]. intros _. exists [].
  rewrite app_nil_r, Z.add_0_r. auto.
Qed.

Lemma tallied_trans s1 s2 s3 :
  inside_and_tallied s1 s2 → inside_and_tallied s2 s3 → inside_and_tallied s1 s3.
Proof.
  intros [I12 T12] [I23 T23]. split; [eapply draws_inside_trans; eassumption |].
  intros H1. destruct (I12 H1) as (H2 & _).
  destruct (T12 H1) as (new2 & Ho2 & Hu2). destruct (T23 H2) as (new3 & Ho3 & Hu3).
  exists (new2 ++ new3). split; [rewrite Ho3, Ho2, app_assoc; reflexivity |].
  rewrite Hu3, updates_of_app, Z.add_assoc, <- u32_succ_l, Hu2, u32_succ_l. reflexivity.
Qed.

(** Steps that leave the display and [updatesApplied] alone. *)
Lemma tallied_same s s' :
  draws_inside s s' → display s' = display s → updatesApplied s' = updatesApplied s →
  inside_and_tallied s s'.
Proof.
  intros Hi Hd Hu. split; [exact Hi |]. intros _. exists [].
  rewrite Hd, Hu, app_nil_r, Z.add_0_r. auto.
Qed.

Lemma readExactly_tallied len s : inside_and_tallied s (readExactly len s).2.
Proof.
  destruct (readExactly_keeps len s) as (Hd & _ & Hu & _).
  apply tallied_same; [apply readExactly_inside | exact Hd | exact Hu].
Qed.

Lemma ensure_tallied n s : inside_and_tallied s (ensureUpdateBuffer n s).2.
Proof.
  destruct (ensure_keeps n s) as (Hd & _ & Hu & _).
  apply tallied_same; [apply ensure_inside | exact Hd | exact Hu].
Qed.

Lemma finishFrame_tallied fid s : inside_and_tallied s (finishFrame fid s).
Proof.
  destruct (finishFrame_fields fid s) as (Hd & Hu & _).
  apply tallied_same; [apply finishFrame_inside | exact Hd | exact Hu].
Qed.

Lemma one_op_tallied op v s :
  (buffer_u16 s = true →
   op_inside (width (display s)) (height (display s)) op = true ∧ v = op_updates op) →
  inside_and_tallied s (set_updatesApplied (u32 (updatesApplied (draw op s) + v)) (draw op s)).
Proof.
  intros Hin. split.
  - intros Hok. apply one_op_inside; [apply Hin, Hok | exact Hok].
  - intros Hok. destruct (Hin Hok) as [_ ->]. exists [op]. split; [reflexivity |].
    st_simpl. cbn [updates_of foldr]. rewrite Z.add_0_r. unfold u32.
    apply Z.mod_mod. lia.
Qed.

Lemma applyPixels_tallied n : ∀ i s, inside_and_tallied s (applyPixels n i s).
Proof.
  induction n as [| n IH]; intros i s; cbn [applyPixels]; [apply tallied_refl |].
  eapply tallied_trans; [| apply IH].
  destruct (_ && _) eqn:Hguard; [| apply tallied_refl].
  apply one_op_tallied. intros Hok. split; [| reflexivity].
  apply pixel_guard_inside; assumption.
Qed.

Lemma applyRuns_tallied n : ∀ i s, inside_and_tallied s (applyRuns n i s).
Proof.
  induction n as [| n IH]; intros i s; cbn [applyRuns]; [apply tallied_refl |].
  eapply tallied_trans; [| apply IH].
  destruct (_ && _) eqn:Hguard; [| apply tallied_refl].
  apply one_op_tallied. intros Hok.
  destruct (run_guard_inside i s Hok Hguard) as [Hin Hlen]. split; [exact Hin |].
  cbn [op_updates]. symmetry. exact Hlen.
Qed.

Lemma serveClient_tallied s : inside_and_tallied s (serveClient s).2.
Proof.
  apply stage_serveClient.
  - apply tallied_refl.
  - apply tallied_trans.
  - apply readExactly_tallied.
  - intros s0. apply tallied_same; [inside_same | reflexivity | reflexivity].
  - intros it s0. apply tallied_same; [inside_same | reflexivity | reflexivity].
  - intros it s0. apply tallied_same; [inside_same | reflexivity | reflexivity].
  - intros fid s0. apply tallied_same; [inside_same | reflexivity | reflexivity].
  - apply finishFrame_tallied.
  - intros n s0 _. apply ensure_tallied.
  - intros i f s0 Hf. apply tallied_same; [apply buf_update_inside, Hf | reflexivity | reflexivity].
  - apply applyPixels_tallied.
  - apply applyRuns_tallied.
Qed.

(** ** The main loop *)

Lemma loop_unfold W s : loop W s = delay1 (handleClient s).2.
Proof.
  unfold loop. destruct (handleClient s) as [b s1]. cbn [snd].
  unfold client_bool. destruct (connected (client s1)); reflexivity.
Qed.

Lemma delay1_evolves s : evolves s (delay1 s).
Proof. evolves_same. Qed.

Lemma delay1_tidy s : stays_tidy s (delay1 s).
Proof. apply tidy_same; [apply delay1_evolves | reflexivity | reflexivity]. Qed.

Lemma delay1_inside s : draws_inside s (delay1 s).
Proof. inside_same. Qed.

Lemma turns_evolves W n : ∀ s, evolves s (turns W n s).
Proof.
  induction n as [| n IH]; intros s; cbn [turns]; [apply evolves_refl |].
  eapply evolves_trans; [| apply IH]. rewrite loop_unfold.
  eapply evolves_trans; [apply handleClient_evolves | apply delay1_evolves].
Qed.

Lemma turns_tidy W n : ∀ s, stays_tidy s (turns W n s).
Proof.
  induction n as [| n IH]; intros s; cbn [turns]; [apply stays_tidy_refl |].
  eapply stays_tidy_trans; [| apply IH]. rewrite loop_unfold.
  eapply stays_tidy_trans; [apply handleClient_tidy | apply delay1_tidy].
Qed.

Lemma turns_inside W n : ∀ s, draws_inside s (turns W n s).
Proof.
  induction n as [| n IH]; intros s; cbn [turns]; [apply draws_inside_refl |].
  eapply draws_inside_trans; [| apply IH]. rewrite loop_unfold.
  eapply draws_inside_trans; [apply handleClient_inside | apply delay1_inside].
Qed.

(** A turn with a connected client and less than a header buffered. *)
Lemma loop_waiting W s :
  connected (client s) = true → available (client s) < 11 → loop W s = delay1 s.
Proof.
  intros Hcon Hav. rewrite loop_unfold, handleClient_result.
  unfold handleClient_outcome. rewrite (accept_connected s Hcon), (serve_short s Hav).
  reflexivity.
Qed.

Lemma concat_take_length {A} (l : list (list A)) : ∀ j m,
  (j ≤ m)%nat → (length (concat (take j l)) ≤ length (concat (take m l)))%nat.
Proof.
  induction l as [| x l IH]; intros j m Hjm; [rewrite !take_nil; lia |].
  destruct j as [| j]; [cbn; lia |]. destruct m as [| m]; [lia |].
  cbn [take concat]. rewrite !length_app. specialize (IH j m). lia.
Qed.

Lemma turns_waiting W segs : ∀ s more,
  attached (client s) = true →
  incoming (client s) = segs ++ more →
  (∀ j, (j < length segs)%nat → (length (rx (client s) ++ concat (take j segs)) < 11)%nat) →
  same_but_socket_and_clock s (turns W (length segs) s)
  ∧ attached (client (turns W (length segs) s)) = true
  ∧ rx (client (turns W (length segs) s)) = rx (client s) ++ concat segs
  ∧ incoming (client (turns W (length segs) s)) = more
  ∧ u32 (uptime (turns W (length segs) s)) = u32 (uptime s + Z.of_nat (length segs)).
Proof.
  induction segs as [| seg segs IH]; intros s more Hatt Hinc Hlt.
  - cbn [turns length concat]. cbn [app] in Hinc. rewrite app_nil_r, Z.add_0_r.
    unfold same_but_socket_and_clock. repeat split; auto.
  - cbn [turns length]. cbn [app] in Hinc.
    assert (Hcon : connected (client s) = true).
    { unfold connected. rewrite Hatt, Hinc. cbn. apply orb_true_r. }
    assert (Hav : available (client s) < 11).
    { specialize (Hlt 0%nat). cbn [length take concat] in Hlt. rewrite app_nil_r in Hlt.
      unfold available. rewrite Hatt. lia. }
    rewrite (loop_waiting W s Hcon Hav).
    assert (Hcl : client (delay1 s) = mkClient true (rx (client s) ++ seg) (segs ++ more)).
    { unfold delay1. st_simpl. unfold client_tick. rewrite Hinc, Hatt. reflexivity. }
    destruct (IH (delay1 s) more) as (Hsame & Ha & Hrx & Hin & Hup).
    + rewrite Hcl. reflexivity.
    + rewrite Hcl. reflexivity.
    + intros j Hj. rewrite Hcl. cbn [rx]. rewrite <- app_assoc.
      apply (Hlt (S j)). cbn [length]. lia.
    + rewrite Hcl in Hrx. cbn [rx] in Hrx.
      split; [| split; [exact Ha | split; [| split; [exact Hin |]]]].
      * unfold same_but_socket_and_clock in *. exact Hsame.
      * rewrite Hrx. cbn [concat]. rewrite app_assoc. reflexivity.
      * rewrite Hup. unfold delay1. st_simpl. rewrite u32_succ_l. f_equal. lia.
Qed.

(** ** The listener *)

Lemma ensure_server n s : server (ensureUpdateBuffer n s).2 = server s.
Proof.
  destruct (fits n s) eqn:Hfit.
  { rewrite ensure_fits by exact Hfit. reflexivity. }
  destruct (ensure_grow n s Hfit) as [(_ & _ & h' & E & _) | (_ & h' & E & _)];
    rewrite E; reflexivity.
Qed.

Lemma applyPixels_server n : ∀ i s, server (applyPixels n i s) = server s.
Proof.
  induction n as [| n IH]; intros i s; cbn [applyPixels]; [reflexivity |].
  rewrite IH. destruct (_ && _); reflexivity.
Qed.

Lemma applyRuns_server n : ∀ i s, server (applyRuns n i s) = server s.
Proof.
  induction n as [| n IH]; intros i s; cbn [applyRuns]; [reflexivity |].
  rewrite IH. destruct (_ && _); reflexivity.
Qed.

Lemma serveClient_server s : server (serveClient s).2 = server s.
Proof.
  apply (stage_serveClient (λ s s', server s' = server s)).
  - reflexivity.
  - intros s1 s2 s3 H12 H23. congruence.
  - intros len s0. destruct (readExactly_shape len s0) as (c' & t' & ->). reflexivity.
  - reflexivity.
  - reflexivity.
  - reflexivity.
  - reflexivity.
  - intros fid s0. unfold finishFrame. destruct (2000 <? _); reflexivity.
  - intros n s0 _. apply ensure_server.
  - reflexivity.
  - apply applyPixels_server.
  - apply applyRuns_server.
Qed.

(** ** The pace of the peer does not matter *)

Ltac pace := unfold same_but_pace in *; st_simpl; intuition (try congruence).

Lemma pace_stop s1 s2 c1 c2 t1 t2 :
  same_but_pace s1 s2 →
  same_but_pace (stop_client (set_uptime t1 (set_client c1 s1)))
    (stop_client (set_uptime t2 (set_client c2 s2))).
Proof. intros H. pace. Qed.

Lemma readExactly_pace len s1 s2 :
  (0 < len)%nat →
  same_but_pace s1 s2 →
  (readExactly len s1).1.1 = (readExactly len s2).1.1
  ∧ ((readExactly len s1).1.1 = true →
     (readExactly len s1).1.2 = (readExactly len s2).1.2
     ∧ same_but_pace (readExactly len s1).2 (readExactly len s2).2)
  ∧ ∃ c1 t1 c2 t2,
      (readExactly len s1).2 = set_uptime t1 (set_client c1 s1)
      ∧ (readExactly len s2).2 = set_uptime t2 (set_client c2 s2).
Proof.
  intros Hlen Hs.
  assert (Hatt : attached (client s2) = attached (client s1)) by pace.
  assert (Hstr : stream (client s2) = stream (client s1)) by pace.
  destruct (readExactly_shape len s1) as (c1 & t1 & E1).
  destruct (readExactly_shape len s2) as (c2 & t2 & E2).
  split; [| split; [| exists c1, t1, c2, t2; auto]].
  - destruct ((readExactly len s1).1.1) eqn:R1.
    + destruct (readExactly_true len s1 Hlen R1) as [Ha Hl].
      destruct (readExactly_stream len s2) as (c' & t' & E & _); [congruence | congruence |].
      rewrite E. reflexivity.
    + destruct ((readExactly len s2).1.1) eqn:R2; [| reflexivity].
      destruct (readExactly_true len s2 Hlen R2) as [Ha Hl].
      destruct (readExactly_stream len s1) as (c' & t' & E & _); [congruence | congruence |].
      rewrite E in R1. discriminate.
  - intros R1. destruct (readExactly_true len s1 Hlen R1) as [Ha Hl].
    destruct (readExactly_stream len s1 Ha Hl) as (c1' & t1' & F1 & Ha1 & Hs1).
    destruct (readExactly_stream len s2) as (c2' & t2' & F2 & Ha2 & Hs2);
      [congruence | congruence |].
    rewrite F1, F2. cbn [fst snd]. split; [congruence |].
    assert (stream c2' = stream c1') by (rewrite Hs1, Hs2, Hstr; reflexivity). pace.
Qed.

Lemma buf_update_pace i f s1 s2 :
  same_but_pace s1 s2 → same_but_pace (buf_update i f s1) (buf_update i f s2).
Proof.
  intros H. unfold buf_update.
  assert (heap s2 = heap s1) as -> by pace.
  assert (updateBuffer s2 = updateBuffer s1) as -> by pace.
  pace.
Qed.

Lemma buf_get_pace i s1 s2 : same_but_pace s1 s2 → buf_get i s2 = buf_get i s1.
Proof.
  intros H. unfold buf_get.
  assert (heap s2 = heap s1) as -> by pace.
  assert (updateBuffer s2 = updateBuffer s1) as -> by pace.
  reflexivity.
Qed.

Lemma decodePixels_pace n : ∀ i s1 s2,
  same_but_pace s1 s2 →
  (decodePixels n i s1).1 = (decodePixels n i s2).1
  ∧ same_but_pace (decodePixels n i s1).2 (decodePixels n i s2).2.
Proof.
  induction n as [| n IH]; intros i s1 s2 Hs; cbn [decodePixels]; [auto |].
  destruct (readExactly_pace 6 s1 s2) as (Hok & Htrue & c1 & t1 & c2 & t2 & E1 & E2);
    [lia | exact Hs |].
  destruct (readExactly 6 s1) as [[ok1 e1] r1]. destruct (readExactly 6 s2) as [[ok2 e2] r2].
  cbn [fst snd] in *. subst ok2. destruct ok1; cbn [negb].
  - destruct (Htrue eq_refl) as [<- Hr]. apply IH.
    repeat apply buf_update_pace. exact Hr.
  - cbn [fst snd]. split; [reflexivity |]. subst r1 r2. pace.
Qed.

Lemma decodeRuns_pace n : ∀ i s1 s2,
  same_but_pace s1 s2 →
  (decodeRuns n i s1).1 = (decodeRuns n i s2).1
  ∧ same_but_pace (decodeRuns n i s1).2 (decodeRuns n i s2).2.
Proof.
  induction n as [| n IH]; intros i s1 s2 Hs; cbn [decodeRuns]; [auto |].
  destruct (readExactly_pace 8 s1 s2) as (Hok & Htrue & c1 & t1 & c2 & t2 & E1 & E2);
    [lia | exact Hs |].
  destruct (readExactly 8 s1) as [[ok1 e1] r1]. destruct (readExactly 8 s2) as [[ok2 e2] r2].
  cbn [fst snd] in *. subst ok2. destruct ok1; cbn [negb].
  - destruct (Htrue eq_refl) as [<- Hr]. apply IH.
    repeat apply buf_update_pace. exact Hr.
  - cbn [fst snd]. split; [reflexivity |]. subst r1 r2. pace.
Qed.

Lemma applyPixels_pace n : ∀ i s1 s2,
  same_but_pace s1 s2 → same_but_pace (applyPixels n i s1) (applyPixels n i s2).
Proof.
  induction n as [| n IH]; intros i s1 s2 Hs; cbn [applyPixels]; [exact Hs |].
  apply IH. rewrite (buf_get_pace i s1 s2 Hs).
  assert (display s2 = display s1) as -> by pace.
  destruct (_ && _); [| exact Hs]. pace.
Qed.

Lemma applyRuns_pace n : ∀ i s1 s2,
  same_but_pace s1 s2 → same_but_pace (applyRuns n i s1) (applyRuns n i s2).
Proof.
  induction n as [| n IH]; intros i s1 s2 Hs; cbn [applyRuns]; [exact Hs |].
  apply IH. rewrite (buf_get_pace i s1 s2 Hs).
  assert (display s2 = display s1) as -> by pace.
  destruct (_ && _); [| exact Hs]. pace.
Qed.

Lemma finishFrame_pace fid s1 s2 :
  same_but_pace s1 s2 → same_but_pace (finishFrame fid s1) (finishFrame fid s2).
Proof.
  intros Hs. unfold finishFrame.
  destruct (2000 <? _); destruct (2000 <? _); pace.
Qed.

Lemma ensure_pace n s1 s2 :
  same_but_pace s1 s2 →
  (ensureUpdateBuffer n s1).1 = (ensureUpdateBuffer n s2).1
  ∧ same_but_pace (ensureUpdateBuffer n s1).2 (ensureUpdateBuffer n s2).2.
Proof.
  intros Hs. unfold ensureUpdateBuffer.
  assert (heap s2 = heap s1) as -> by pace.
  assert (updateBuffer s2 = updateBuffer s1) as -> by pace.
  assert (bufferCapacity s2 = bufferCapacity s1) as -> by pace.
  destruct (_ && _); [auto |]. cbv zeta.
  destruct (ps_malloc _ (heap s1)) as [tmp h1].
  destruct (if is_null tmp then _ else _) as [tmp' h2].
  destruct (is_null tmp'); cbn [fst snd]; (split; [reflexivity | pace]).
Qed.

Lemma frameBody_pace k fid count s1 s2 :
  same_but_pace s1 s2 →
  (frameBody k fid count s1).1 = (frameBody k fid count s2).1
  ∧ same_but_pace (frameBody k fid count s1).2 (frameBody k fid count s2).2.
Proof.
  intros Hs. destruct (ensure_pace count s1 s2 Hs) as [Hok Hs1].
  destruct k; cbv [frameBody pixelBody runBody];
    destruct (ensureUpdateBuffer count s1) as [ok1 r1];
    destruct (ensureUpdateBuffer count s2) as [ok2 r2];
    cbn [fst snd] in *; subst ok2; destruct ok1; cbn [negb fst snd];
    try (split; [reflexivity | pace]).
  - destruct (decodePixels_pace (Z.to_nat count) 0 r1 r2 Hs1) as [Hd Hs2].
    destruct (decodePixels (Z.to_nat count) 0 r1) as [d1 q1].
    destruct (decodePixels (Z.to_nat count) 0 r2) as [d2 q2].
    cbn [fst snd] in *. subst d2. destruct d1; cbn [negb fst snd]; split; auto.
    apply finishFrame_pace, applyPixels_pace, Hs2.
  - destruct (decodeRuns_pace (Z.to_nat count) 0 r1 r2 Hs1) as [Hd Hs2].
    destruct (decodeRuns (Z.to_nat count) 0 r1) as [d1 q1].
    destruct (decodeRuns (Z.to_nat count) 0 r2) as [d2 q2].
    cbn [fst snd] in *. subst d2. destruct d1; cbn [negb fst snd]; split; auto.
    apply finishFrame_pace, applyRuns_pace, Hs2.
Qed.

Lemma serve_pace s1 s2 :
  same_but_pace s1 s2 →
  11 <= available (client s1) →
  11 <= available (client s2) →
  (serveClient s1).1 = (serveClient s2).1
  ∧ same_but_pace (serveClient s1).2 (serveClient s2).2.
Proof.
  intros Hs Hav1 Hav2.
  pose proof (serve_buffered s1 Hav1) as T1. pose proof (serve_buffered s2 Hav2) as T2.
  cbv zeta in T1, T2.
  destruct (available_attached (client s1)) as [Ha1 _]; [lia |].
  destruct (available_attached (client s2)) as [Ha2 _]; [lia |].
  assert (Hstr : stream (client s2) = stream (client s1)) by pace.
  assert (Hd : display s2 = display s1) by pace.
  unfold available in Hav1, Hav2. rewrite Ha1 in Hav1. rewrite Ha2 in Hav2.
  unfold stream in Hstr.
  destruct (rx (client s1))
    as [| m0 [| m1 [| m2 [| m3 [| v [| f0 [| f1 [| f2 [| f3 [| c0 [| c1 tl1]]]]]]]]]]] eqn:Hrx1;
    try (simpl length in Hav1; lia).
  destruct (rx (client s2))
    as [| n0 [| n1 [| n2 [| n3 [| w [| g0 [| g1 [| g2 [| g3 [| d0 [| d1 tl2]]]]]]]]]]] eqn:Hrx2;
    try (simpl length in Hav2; lia).
  cbn [app] in Hstr. injection Hstr as -> -> -> -> -> -> -> -> -> -> -> Htl.
  assert (Hp : same_but_pace (past_header tl1 s1) (past_header tl2 s2)).
  { unfold same_but_pace, stream in *. st_simpl. intuition. }
  revert T1 T2. unfold unknown_magic, kind_of.
  cbv [byte_at default from_option lookup list_lookup id].
  rewrite !(memcmp_front m0 m1 m2 m3 (v :: f0 :: f1 :: f2 :: f3 :: c0 :: c1 :: tl1)).
  rewrite !(memcmp_front m0 m1 m2 m3 (v :: f0 :: f1 :: f2 :: f3 :: c0 :: c1 :: tl2)).
  cbn [drop]. rewrite Hd. intros -> ->.
  destruct (negb _ && negb _); [split; [reflexivity | pace] |].
  destruct (negb (v =? _)); [split; [reflexivity | pace] |].
  destruct (le16 c0 c1 =? 0); [split; [reflexivity | pace] |].
  destruct (_ <? le16 c0 c1); [split; [reflexivity | pace] |].
  apply frameBody_pace. exact Hp.
Qed.

Lemma parse_header_stream_length c k fid count tail :
  parse_header c = Some (k, fid, count, tail) →
  Z.of_nat (length (drop 11 (stream c))) = Z.of_nat (length (stream c)) - 11.
Proof.
  intros Hp. destruct (parse_header_tail _ _ _ _ _ Hp) as (_ & _ & Hlen).
  rewrite length_drop. unfold stream. rewrite length_app. lia.
Qed.

Lemma entry_size_pos k : 0 < entry_size k.
Proof. destruct k; reflexivity. Qed.

(** * Further properties of the frame handler *)

(** X7. Nothing is drawn outside the surface. With [uint16_t] values in the
    update buffer (as its C++ type has it), whatever bytes the peer sends,
    one call of [handleClient] only adds calls to the display that lie
    inside it: [drawPixel] at [0 <= x < width], [0 <= y < height], and
    [fillRect] rows of positive length that end at or before [width]; the
    coordinates passed as [int16_t] never wrap. The surface size does not
    change, no earlier call is taken back, and the buffer keeps holding
    [uint16_t] values. *)
Theorem handleClient_draws_inside_surface s :
  buffer_u16 s = true →
  buffer_u16 (handleClient s).2 = true
  ∧ width (display (handleClient s).2) = width (display s)
  ∧ height (display (handleClient s).2) = height (display s)
  ∧ ∃ new, ops (display (handleClient s).2) = ops (display s) ++ new
           ∧ forallb (op_inside (width (display s)) (height (display s))) new = true.
Proof. exact (handleClient_inside s). Qed.

Lemma handleClient_draws_inside_surface_witness :
  buffer_u16 (handleClient run_session).2 = true
  ∧ width (display (handleClient run_session).2) = width (display run_session)
  ∧ height (display (handleClient run_session).2) = height (display run_session)
  ∧ ∃ new, ops (display (handleClient run_session).2) = ops (display run_session) ++ new
           ∧ forallb (op_inside (width (display run_session)) (height (display run_session)))
               new = true.
Proof. apply (handleClient_draws_inside_surface run_session). reflexivity. Defined.

(** X8. No block is leaked. From a good state in which the update buffer is
    the only live block of the heap (or no block is live and the buffer is
    null), one call of [handleClient] leads to such a state again, whichever
    [return] it takes: a grown buffer replaces the old one, and no path
    allocates anything else or frees the buffer. *)
Theorem handleClient_leaks_no_block s :
  state_ok s = true →
  only_buffer_live s = true →
  state_ok (handleClient s).2 = true ∧ only_buffer_live (handleClient s).2 = true.
Proof. exact (handleClient_tidy s). Qed.

Lemma handleClient_leaks_no_block_witness :
  state_ok (handleClient pixel_session).2 = true
  ∧ only_buffer_live (handleClient pixel_session).2 = true.
Proof.
  apply (handleClient_leaks_no_block pixel_session); vm_compute; reflexivity.
Defined.

(** X9. Until 11 bytes are buffered nothing is read: with fewer than
    [HEADER_SIZE] bytes available after the accept, [handleClient] leaves
    the state as the accept left it, and returns [true] exactly when the
    client is connected. *)
Theorem handleClient_waits_for_header s :
  available (client (acceptClient s)) < 11 →
  handleClient s = (connected (client (acceptClient s)), acceptClient s).
Proof.
  intros Hlt. rewrite handleClient_result.
  change (handleClient_outcome s) with (serveClient (acceptClient s)).
  rewrite (serve_short _ Hlt). cbn [fst snd].
  destruct (connected (client (acceptClient s))); reflexivity.
Qed.

Lemma handleClient_waits_for_header_witness :
  handleClient half_header_session
  = (connected (client (acceptClient half_header_session)), acceptClient half_header_session).
Proof. apply (handleClient_waits_for_header half_header_session). vm_compute. reflexivity. Defined.

(** X10. [BadMagic] is the outcome exactly when 11 bytes are buffered and the
    first four are neither [PXUP] nor [PXUR]. The call then returns [false];
    all it has done since the accept is to print one line and to stop the
    client, so whatever was buffered behind the four bytes is discarded with
    the connection. *)
Theorem bad_magic_drops_client s :
  let s0 := acceptClient s in
  ((handleClient_outcome s).1 = BadMagic
   ↔ 11 <= available (client s0) ∧ unknown_magic (rx (client s0)) = true)
  ∧ ((handleClient_outcome s).1 = BadMagic →
     handleClient s
     = (false, set_client no_client (Serial_println (Text "Bad magic; flushing stream") s0))).
Proof.
  intros s0. rewrite handleClient_result.
  change (handleClient_outcome s) with (serveClient s0).
  assert (Hiff : (serveClient s0).1 = BadMagic
                 ↔ 11 <= available (client s0) ∧ unknown_magic (rx (client s0)) = true).
  { destruct (Z.lt_ge_cases (available (client s0)) 11) as [Hlt | Hge].
    - rewrite (serve_short s0 Hlt). cbn [fst].
      split; [destruct (connected _); discriminate | lia].
    - pose proof (serve_buffered s0 Hge) as T. cbv zeta in T.
      destruct (unknown_magic (rx (client s0))); [rewrite T; cbn [fst]; tauto |].
      split; [| intros [_ ?]; discriminate].
      rewrite T.
      destruct (negb (_ =? version_of _)); [discriminate |].
      destruct (_ =? 0); [discriminate |].
      destruct (_ <? _); [discriminate |].
      match goal with |- context [frameBody ?k ?f ?c ?st] =>
        destruct (frameBody_outcomes k f c st) as [E | [E | E]]; rewrite E; discriminate end. }
  split; [exact Hiff |]. intros Ho. apply Hiff in Ho as [Hge Hu].
  pose proof (serve_buffered s0 Hge) as T. cbv zeta in T. rewrite Hu in T.
  rewrite T. reflexivity.
Qed.

(** X11. The version byte is checked against the version of the kind the
    magic announces: 2 for [PXUP], 1 for [PXUR]. [UnsupportedVersion] is the
    outcome exactly when 11 bytes are buffered, the magic is known and the
    fifth byte is not that version. The call then returns [false]; all it
    has done since the accept is to print the byte in hexadecimal behind the
    message of the kind and to stop the client. *)
Theorem unsupported_version_drops_client s :
  let s0 := acceptClient s in
  let r := rx (client s0) in
  ((handleClient_outcome s).1 = UnsupportedVersion
   ↔ 11 <= available (client s0) ∧ unknown_magic r = false
     ∧ byte_at r 4 ≠ version_of (kind_of r))
  ∧ ((handleClient_outcome s).1 = UnsupportedVersion →
     handleClient s
     = (false,
        set_client no_client
          (Serial_println (Hex (byte_at r 4))
             (Serial_print (Text (unsupported_text (kind_of r))) s0)))).
Proof.
  intros s0 r. rewrite handleClient_result.
  change (handleClient_outcome s) with (serveClient s0).
  assert (Hiff : (serveClient s0).1 = UnsupportedVersion
                 ↔ 11 <= available (client s0) ∧ unknown_magic r = false
                   ∧ byte_at r 4 ≠ version_of (kind_of r)).
  { destruct (Z.lt_ge_cases (available (client s0)) 11) as [Hlt | Hge].
    - rewrite (serve_short s0 Hlt). cbn [fst].
      split; [destruct (connected _); discriminate | lia].
    - pose proof (serve_buffered s0 Hge) as T. cbv zeta in T. fold r in T.
      destruct (unknown_magic r).
      { rewrite T. cbn [fst]. split; [discriminate | intros (_ & ? & _); discriminate]. }
      destruct (Z.eqb_spec (byte_at r 4) (version_of (kind_of r))) as [Hv | Hv];
        cbn [negb] in T; [| rewrite T; cbn [fst]; tauto].
      split; [| intros (_ & _ & ?); contradiction].
      rewrite T.
      destruct (_ =? 0); [discriminate |].
      destruct (_ <? _); [discriminate |].
      match goal with |- context [frameBody ?k ?f ?c ?st] =>
        destruct (frameBody_outcomes k f c st) as [E | [E | E]]; rewrite E; discriminate end. }
  split; [exact Hiff |]. intros Ho. apply Hiff in Ho as (Hge & Hu & Hv).
  pose proof (serve_buffered s0 Hge) as T. cbv zeta in T. fold r in T. rewrite Hu in T.
  apply Z.eqb_neq in Hv. rewrite Hv in T. cbn [negb] in T.
  rewrite T. reflexivity.
Qed.

(** X12. [AllocationFailure] is the outcome exactly when a valid header
    announces a count between 1 and width x height and [ensureUpdateBuffer]
    fails for it. The call then returns [false] with the client stopped;
    the display and the session statistics are as after the accept; the
    buffer held before, its capacity and every block of the heap are kept;
    and two lines have been printed, the one of [ensureUpdateBuffer] first. *)
Theorem allocation_failure_drops_client s :
  let s0 := acceptClient s in
  let s' := (handleClient s).2 in
  ((handleClient_outcome s).1 = AllocationFailure
   ↔ ∃ k fid count tail,
       parse_header (client s0) = Some (k, fid, count, tail)
       ∧ 0 < count <= width (display s0) * height (display s0)
       ∧ (ensureUpdateBuffer count s0).1 = false)
  ∧ ((handleClient_outcome s).1 = AllocationFailure →
     (handleClient s).1 = false
     ∧ client s' = no_client
     ∧ keeps s0 s'
     ∧ updateBuffer s' = updateBuffer s0
     ∧ bufferCapacity s' = bufferCapacity s0
     ∧ blocks (heap s') = blocks (heap s0)
     ∧ ∃ k, serial s'
            = serial s0 ++ [Text "Failed to allocate update buffer"; Newline;
                            Text (no_buffer_text k); Newline]).
Proof.
  intros s0 s'. subst s'. rewrite handleClient_result. cbn [fst snd].
  change (handleClient_outcome s) with (serveClient s0).
  assert (Hto : (serveClient s0).1 = AllocationFailure →
                ∃ k fid count tail,
                  parse_header (client s0) = Some (k, fid, count, tail)
                  ∧ 0 < count <= width (display s0) * height (display s0)
                  ∧ (ensureUpdateBuffer count s0).1 = false).
  { intros Ho. destruct (serve_reaches_body s0) as (k & fid & count & tail & Hp & Hc & _);
      [auto |].
    exists k, fid, count, tail. split; [exact Hp |]. split; [exact Hc |].
    rewrite (serve_body_table s0 k fid count tail Hp Hc) in Ho.
    destruct ((ensureUpdateBuffer count s0).1); [| reflexivity].
    cbn [negb] in Ho. destruct (_ <? _); discriminate. }
  split.
  - split; [exact Hto |]. intros (k & fid & count & tail & Hp & Hc & Hf).
    rewrite (serve_body_table s0 k fid count tail Hp Hc), Hf. reflexivity.
  - intros Ho. destruct (Hto Ho) as (k & fid & count & tail & Hp & Hc & Hf).
    rewrite Ho. split; [reflexivity |].
    rewrite (serve_valid s0 k fid count tail Hp Hc).
    rewrite <- (ensure_past_header count tail s0) in Hf.
    destruct (frameBody_no_memory k fid count (past_header tail s0) Hf) as (h' & E & Hb & _).
    rewrite E. cbn [snd]. unfold keeps. st_simpl.
    split; [reflexivity |]. split; [repeat split |].
    split; [reflexivity |]. split; [reflexivity |]. split; [exact Hb |].
    exists k. rewrite <- app_assoc. reflexivity.
Qed.

(** X13. A header read never fails: [Truncated] is the outcome exactly when
    a valid header announces a count between 1 and width x height, the
    buffer is ready for it, and the peer goes away before it has delivered
    the [entry_size * count] bytes of the body. The two [readExactly] calls
    for the header find their bytes buffered. *)
Theorem truncated_only_in_body s :
  let s0 := acceptClient s in
  (handleClient_outcome s).1 = Truncated
  ↔ ∃ k fid count tail,
      parse_header (client s0) = Some (k, fid, count, tail)
      ∧ 0 < count <= width (display s0) * height (display s0)
      ∧ (ensureUpdateBuffer count s0).1 = true
      ∧ Z.of_nat (length (stream (client s0))) < 11 + entry_size k * count.
Proof.
  intros s0. change (handleClient_outcome s) with (serveClient s0). split.
  - intros Ho. destruct (serve_reaches_body s0) as (k & fid & count & tail & Hp & Hc & _);
      [auto |].
    exists k, fid, count, tail. split; [exact Hp |]. split; [exact Hc |].
    rewrite (serve_body_table s0 k fid count tail Hp Hc) in Ho.
    rewrite (parse_header_stream_length _ _ _ _ _ Hp) in Ho.
    destruct ((ensureUpdateBuffer count s0).1); [| discriminate].
    cbn [negb] in Ho. split; [reflexivity |].
    destruct (Z.ltb_spec (Z.of_nat (length (stream (client s0))) - 11) (entry_size k * count));
      [lia | discriminate].
  - intros (k & fid & count & tail & Hp & Hc & Hf & Hlen).
    rewrite (serve_body_table s0 k fid count tail Hp Hc), Hf.
    rewrite (parse_header_stream_length _ _ _ _ _ Hp). cbn [negb].
    destruct (Z.ltb_spec (Z.of_nat (length (stream (client s0))) - 11) (entry_size k * count));
      [reflexivity | lia].
Qed.

(** X14. Framing. [AppliedFrame] is the outcome exactly when a valid header
    announces a count between 1 and width x height, the buffer is ready for
    it, and the peer delivers the whole body. Whatever the entries contain,
    the call then consumes exactly [11 + entry_size * count] bytes of the
    stream, 6 per pixel and 8 per run, and leaves the client attached just
    behind the frame. *)
Theorem applied_frame_consumes_its_bytes s :
  let s0 := acceptClient s in
  let s' := (handleClient s).2 in
  ((handleClient_outcome s).1 = AppliedFrame
   ↔ ∃ k fid count tail,
       parse_header (client s0) = Some (k, fid, count, tail)
       ∧ 0 < count <= width (display s0) * height (display s0)
       ∧ (ensureUpdateBuffer count s0).1 = true
       ∧ 11 + entry_size k * count <= Z.of_nat (length (stream (client s0))))
  ∧ (∀ k fid count tail,
       parse_header (client s0) = Some (k, fid, count, tail) →
       (handleClient_outcome s).1 = AppliedFrame →
       attached (client s') = true
       ∧ stream (client s')
         = drop (Z.to_nat (11 + entry_size k * count)) (stream (client s0))).
Proof.
  intros s0 s'. subst s'. rewrite handleClient_result. cbn [snd].
  change (handleClient_outcome s) with (serveClient s0). split; [split |].
  - intros Ho. destruct (serve_reaches_body s0) as (k & fid & count & tail & Hp & Hc & _);
      [auto |].
    exists k, fid, count, tail. split; [exact Hp |]. split; [exact Hc |].
    rewrite (serve_body_table s0 k fid count tail Hp Hc) in Ho.
    rewrite (parse_header_stream_length _ _ _ _ _ Hp) in Ho.
    destruct ((ensureUpdateBuffer count s0).1); [| discriminate].
    cbn [negb] in Ho. split; [reflexivity |].
    destruct (Z.ltb_spec (Z.of_nat (length (stream (client s0))) - 11) (entry_size k * count));
      [discriminate | lia].
  - intros (k & fid & count & tail & Hp & Hc & Hf & Hlen).
    rewrite (serve_body_table s0 k fid count tail Hp Hc), Hf.
    rewrite (parse_header_stream_length _ _ _ _ _ Hp). cbn [negb].
    destruct (Z.ltb_spec (Z.of_nat (length (stream (client s0))) - 11) (entry_size k * count));
      [lia | reflexivity].
  - intros k fid count tail Hp Ho.
    destruct (serve_reaches_body s0) as (k' & fid' & count' & tail' & Hp' & Hc & E);
      [auto |].
    rewrite Hp in Hp'. injection Hp' as <- <- <- <-.
    rewrite E in Ho |- *.
    assert (Hatt0 : attached (client (past_header tail s0)) = true) by reflexivity.
    destruct (frameBody_applied_stream k fid count (past_header tail s0)) as [Ha Hs];
      [lia | exact Hatt0 | exact Ho |].
    split; [exact Ha |].
    rewrite Hs, past_header_stream, (parse_header_stream _ _ _ _ _ Hp), drop_drop.
    f_equal. pose proof (entry_size_pos k). nia.
Qed.

(** X15. A frame is counted once, and only a whole one: when the call ends
    with an empty or an applied frame, [frameCount] is one more (modulo
    2^32) than after the accept and [lastFrameId] is the [frameId] of the
    header that was read; on every other [return] both are as the accept
    left them. *)
Theorem frames_counted_once s :
  let s0 := acceptClient s in
  let s' := (handleClient s).2 in
  if counted (handleClient_outcome s).1 then
    frameCount s' = u32 (frameCount s0 + 1)
    ∧ ∃ k fid count tail,
        parse_header (client s0) = Some (k, fid, count, tail) ∧ lastFrameId s' = fid
  else frameCount s' = frameCount s0 ∧ lastFrameId s' = lastFrameId s0.
Proof.
  intros s0 s'. subst s'. rewrite handleClient_result. cbn [snd].
  change (handleClient_outcome s) with (serveClient s0).
  destruct (serve_sorts s0) as [(Ho & Hs & _) | [Hf | Hc]].
  - rewrite Ho, Hs. destruct (connected (client s0)); cbn [counted]; auto.
  - destruct (serve_fatal s0 Hf) as [(_ & Hfc & _ & Hid) _].
    destruct ((serveClient s0).1); try discriminate; cbn [counted]; auto.
  - rewrite Hc. destruct (serve_counted s0 Hc) as (k & fid & count & tail & Hp & Hfc & Hid & _).
    split; [exact Hfc |]. exists k, fid, count, tail. auto.
Qed.

(** X16. What the return value says about the connection: after [false] no
    client is connected, after [true] a client is attached. *)
Theorem false_means_no_peer s :
  if (handleClient s).1 then attached (client (handleClient s).2) = true
  else connected (client (handleClient s).2) = false.
Proof.
  rewrite handleClient_result. cbn [fst snd].
  change (handleClient_outcome s) with (serveClient (acceptClient s)).
  set (s0 := acceptClient s).
  destruct (serve_sorts s0) as [(Ho & Hs & _) | [Hf | Hc]].
  - rewrite Ho, Hs. destruct (connected (client s0)) eqn:Hcon; cbn [outcome_bool];
      [| reflexivity].
    unfold connected in Hcon. apply andb_true_iff in Hcon as [Ha _]. exact Ha.
  - destruct (serve_fatal s0 Hf) as [_ ->].
    destruct ((serveClient s0).1); try discriminate; reflexivity.
  - destruct (serve_counted s0 Hc) as (k & fid & count & tail & _ & _ & _ & Ha).
    destruct ((serveClient s0).1); try discriminate; exact Ha.
Qed.

(** X17. One peer at a time. While the client is connected the listener is
    not asked and the accept does nothing; otherwise exactly one pending
    connection is taken from the listener, if there is one, and becomes the
    client, whether or not it is still connected. Nothing after the accept
    touches the listener. *)
Theorem accept_takes_one_peer s :
  server (handleClient s).2 = (if connected (client s) then server s else tl (server s))
  ∧ (connected (client s) = true → acceptClient s = s)
  ∧ (connected (client s) = false → client (acceptClient s) = hd no_client (server s)).
Proof.
  split; [| split; [apply accept_connected |]].
  - rewrite handleClient_result. cbn [snd]. unfold handleClient_outcome.
    rewrite serveClient_server. unfold acceptClient, server_available, client_bool.
    destruct (connected (client s)); cbn [negb orb]; [reflexivity |].
    destruct (server s) as [| c rest] eqn:Hsrv; cbn zeta; st_simpl;
      destruct (connected _); st_simpl; rewrite ?Hsrv; reflexivity.
  - intros Hcon. unfold acceptClient, server_available, client_bool. rewrite Hcon.
    cbn [negb orb].
    destruct (server s) as [| c rest] eqn:Hsrv; cbn zeta; st_simpl; [reflexivity |].
    destruct (connected c); reflexivity.
Qed.

(** X19. The invariants hold along the whole run of the main loop: from a
    good state whose only live block is the update buffer, any number of
    turns leads to such a state, the capacity of the buffer never goes
    down, the surface size stays, and every call added to the display lies
    inside the surface. *)
Theorem loop_turns_keep_invariants (showWaitingScreen : State → State) n s :
  state_ok s = true →
  only_buffer_live s = true →
  buffer_u16 s = true →
  state_ok (turns showWaitingScreen n s) = true
  ∧ only_buffer_live (turns showWaitingScreen n s) = true
  ∧ buffer_u16 (turns showWaitingScreen n s) = true
  ∧ bufferCapacity s <= bufferCapacity (turns showWaitingScreen n s)
  ∧ width (display (turns showWaitingScreen n s)) = width (display s)
  ∧ height (display (turns showWaitingScreen n s)) = height (display s)
  ∧ ∃ new, ops (display (turns showWaitingScreen n s)) = ops (display s) ++ new
           ∧ forallb (op_inside (width (display s)) (height (display s))) new = true.
Proof.
  intros Hok Hlive Hu16.
  destruct (turns_evolves showWaitingScreen n s Hok) as [Hok' Hcap].
  destruct (turns_tidy showWaitingScreen n s Hok Hlive) as [_ Hlive'].
  destruct (turns_inside showWaitingScreen n s Hu16) as (Hu16' & Hw & Hh & Hnew).
  auto 10.
Qed.

Lemma loop_turns_keep_invariants_witness :
  state_ok (turns (λ s, s) 3 pixel_session) = true
  ∧ only_buffer_live (turns (λ s, s) 3 pixel_session) = true
  ∧ buffer_u16 (turns (λ s, s) 3 pixel_session) = true
  ∧ bufferCapacity pixel_session <= bufferCapacity (turns (λ s, s) 3 pixel_session)
  ∧ width (display (turns (λ s, s) 3 pixel_session)) = width (display pixel_session)
  ∧ height (display (turns (λ s, s) 3 pixel_session)) = height (display pixel_session)
  ∧ ∃ new, ops (display (turns (λ s, s) 3 pixel_session)) = ops (display pixel_session) ++ new
           ∧ forallb (op_inside (width (display pixel_session))
                        (height (display pixel_session))) new = true.
Proof.
  apply (loop_turns_keep_invariants (λ s, s) 3 pixel_session); vm_compute; reflexivity.
Defined.

(** X20. A header that arrives in pieces is waited for. With a client
    attached whose next segments are [segs], and fewer than 11 bytes
    buffered until the last of them has arrived, [length segs] turns of the
    loop read nothing and change nothing but the socket and the clock: one
    segment is taken over per turn and per millisecond, and afterwards the
    buffered bytes are the old ones followed by all of [segs]. *)
Theorem loop_collects_split_header (showWaitingScreen : State → State) segs more s :
  attached (client s) = true →
  incoming (client s) = segs ++ more →
  (length (rx (client s) ++ concat (take (length segs - 1) segs)) < 11)%nat →
  same_but_socket_and_clock s (turns showWaitingScreen (length segs) s)
  ∧ attached (client (turns showWaitingScreen (length segs) s)) = true
  ∧ rx (client (turns showWaitingScreen (length segs) s)) = rx (client s) ++ concat segs
  ∧ incoming (client (turns showWaitingScreen (length segs) s)) = more
  ∧ u32 (uptime (turns showWaitingScreen (length segs) s))
    = u32 (uptime s + Z.of_nat (length segs)).
Proof.
  intros Hatt Hinc Hlt. apply turns_waiting; [exact Hatt | exact Hinc |].
  intros j Hj. rewrite length_app in *.
  pose proof (concat_take_length segs j (length segs - 1)). lia.
Qed.

Lemma loop_collects_split_header_witness :
  same_but_socket_and_clock (acceptClient half_header_session)
    (turns (λ s, s) (length [[7; 0; 0; 0; 1; 0]]) (acceptClient half_header_session))
  ∧ attached (client (turns (λ s, s) (length [[7; 0; 0; 0; 1; 0]])
                        (acceptClient half_header_session))) = true
  ∧ rx (client (turns (λ s, s) (length [[7; 0; 0; 0; 1; 0]])
                  (acceptClient half_header_session)))
    = rx (client (acceptClient half_header_session)) ++ concat [[7; 0; 0; 0; 1; 0]]
  ∧ incoming (client (turns (λ s, s) (length [[7; 0; 0; 0; 1; 0]])
                        (acceptClient half_header_session)))
    = [[1; 0; 2; 0; 3; 0]; []]
  ∧ u32 (uptime (turns (λ s, s) (length [[7; 0; 0; 0; 1; 0]])
                   (acceptClient half_header_session)))
    = u32 (uptime (acceptClient half_header_session)
           + Z.of_nat (length [[7; 0; 0; 0; 1; 0]])).
Proof.
  apply (loop_collects_split_header (λ s, s) [[7; 0; 0; 0; 1; 0]] [[1; 0; 2; 0; 3; 0]; []]
           (acceptClient half_header_session)).
  - reflexivity.
  - reflexivity.
  - vm_compute. lia.
Defined.

(** X21. [updatesApplied] tallies the drawing. In a good state with
    [uint16_t] values in the update buffer, what [handleClient] does after
    the accept advances [updatesApplied], modulo 2^32, by exactly 1 for
    every [drawPixel] and by the row length for every [fillRect] it has
    added to the display; the length passed as [int16_t] is the decoded one. *)
Theorem updatesApplied_tallies_the_drawing s :
  state_ok s = true →
  buffer_u16 s = true →
  ∃ new,
    ops (display (handleClient s).2) = ops (display (acceptClient s)) ++ new
    ∧ updatesApplied (handleClient s).2
      = u32 (updatesApplied (acceptClient s) + updates_of new).
Proof.
  intros Hok Hu16.
  destruct (handleClient_evolves s Hok) as [Hok' _].
  destruct (state_ok_fields _ Hok') as [_ Hua].
  destruct (accept_inside s Hu16) as (Hu16' & _).
  rewrite handleClient_result in *. cbn [snd] in *. unfold handleClient_outcome in *.
  destruct (serveClient_tallied (acceptClient s)) as [_ T].
  destruct (T Hu16') as (new & Ho & Hu). exists new. split; [exact Ho |].
  rewrite <- Hu. symmetry. apply u32_small. exact Hua.
Qed.

Lemma updatesApplied_tallies_the_drawing_witness :
  ∃ new,
    ops (display (handleClient run_session).2) = ops (display (acceptClient run_session)) ++ new
    ∧ updatesApplied (handleClient run_session).2
      = u32 (updatesApplied (acceptClient run_session) + updates_of new).
Proof.
  apply (updatesApplied_tallies_the_drawing run_session); reflexivity.
Defined.

(** X22. The little-endian expressions of the decoder neither overflow nor
    lose a bit: for bytes, [b0 | (b1 << 8)] stored in a [uint16_t] is
    [b0 + 256 b1], and the four casts to [uint32_t] combined with [|] give
    [b0 + 256 b1 + 65536 b2 + 16777216 b3]. *)
Theorem little_endian_values b0 b1 b2 b3 :
  0 <= b0 < 256 → 0 <= b1 < 256 → 0 <= b2 < 256 → 0 <= b3 < 256 →
  le16 b0 b1 = b0 + 256 * b1
  ∧ le32 b0 b1 b2 b3 = b0 + 256 * b1 + 65536 * b2 + 16777216 * b3.
Proof.
  intros H0 H1 H2 H3. unfold le16, le32.
  rewrite (lor_shiftl_add b0 b1 8) by lia.
  rewrite (lor_shiftl_add (b0 + b1 * 2 ^ 8) b2 16) by lia.
  rewrite (lor_shiftl_add (b0 + b1 * 2 ^ 8 + b2 * 2 ^ 16) b3 24) by lia.
  rewrite u16_small, u32_small by lia. lia.
Qed.

Lemma little_endian_values_witness :
  le16 1 2 = 1 + 256 * 2
  ∧ le32 1 2 3 255 = 1 + 256 * 2 + 65536 * 3 + 16777216 * 255.
Proof. apply (little_endian_values 1 2 3 255); lia. Defined.

(** X23. The pace of the peer does not matter. Take two states that differ
    only in how much of the same byte stream is already buffered, in the
    clock, and in what depends on the clock (the statistics lines and their
    time stamp). Once both have the 11 bytes of the header buffered,
    [handleClient] takes the same [return] in both, and afterwards the two
    states again differ in nothing else: same calls on the display, same
    counters, same buffer and heap, same position in the stream. *)
Theorem frame_result_independent_of_segmentation s1 s2 :
  same_but_pace s1 s2 →
  11 <= available (client s1) →
  11 <= available (client s2) →
  (handleClient s1).1 = (handleClient s2).1
  ∧ (handleClient_outcome s1).1 = (handleClient_outcome s2).1
  ∧ same_but_pace (handleClient s1).2 (handleClient s2).2.
Proof.
  intros Hs Hav1 Hav2.
  destruct (available_attached (client s1)) as [_ Hc1]; [lia |].
  destruct (available_attached (client s2)) as [_ Hc2]; [lia |].
  rewrite !handleClient_result. cbn [fst snd]. unfold handleClient_outcome.
  rewrite (accept_connected s1 Hc1), (accept_connected s2 Hc2).
  destruct (serve_pace s1 s2 Hs Hav1 Hav2) as [Ho Hp].
  rewrite Ho. auto.
Qed.

Lemma frame_result_independent_of_segmentation_witness :
  (handleClient (acceptClient one_pixel_session)).1
  = (handleClient (acceptClient trickle_session)).1
  ∧ (handleClient_outcome (acceptClient one_pixel_session)).1
    = (handleClient_outcome (acceptClient trickle_session)).1
  ∧ same_but_pace (handleClient (acceptClient one_pixel_session)).2
      (handleClient (acceptClient trickle_session)).2.
Proof.
  apply (frame_result_independent_of_segmentation
           (acceptClient one_pixel_session) (acceptClient trickle_session)).
  - vm_compute. repeat split; reflexivity.
  - vm_compute. discriminate.
  - vm_compute. discriminate.
Defined.
